(** * Powersoft amplifier UDP feedback channel (src/udp.ts)

    A shallow embedding of the binary UDP client of the Companion module:
    the frame codec ([crc16IBM], [buildFrame], [parseHeader]), the three
    payload decoders, the single-shot request/response exchange
    ([udpRequest]) and the status aggregator ([readUdpStatus]).

    Conventions of the embedding:
    - a JavaScript number that holds an integer is a [Z]; the 32-bit
      behaviour of the bitwise operators is written out in module [JS];
    - a Node [Buffer] is a [list byte]; reading an element out of range
      yields [None] (undefined), the [read*]/[write*] accessors throw;
    - a [throw] is the [Throw] constructor of [result]; code inside a
      [try]/[catch] that mutates the status object runs in the
      state-and-exception monad [M];
    - a sparse JavaScript array is a [list (option A)] whose [None]
      entries are holes. *)

From Stdlib Require Import ZArith QArith Lia.
From stdpp Require Import base option list strings.
From coqutil Require Import Byte Word.LittleEndianList.

Close Scope Q_scope.
Local Open Scope Z_scope.

(** ** JavaScript integer operators *)

Module JS.

Definition ToInt32 (z : Z) : Z :=
  let m := z mod 2 ^ 32 in
  if m <? 2 ^ 31 then m else m - 2 ^ 32.

Definition ToUint32 (z : Z) : Z := z mod 2 ^ 32.

(** [a & b] *)
Definition band (a b : Z) : Z := Z.land (ToInt32 a) (ToInt32 b).
(** [a ^ b] *)
Definition bxor (a b : Z) : Z := Z.lxor (ToInt32 a) (ToInt32 b).
(** [~a] *)
Definition bnot (a : Z) : Z := Z.lnot (ToInt32 a).
(** [a >> k] *)
Definition shr (a k : Z) : Z := Z.shiftr (ToInt32 a) (ToUint32 k mod 32).
(** [a << k] *)
Definition shl (a k : Z) : Z := ToInt32 (Z.shiftl (ToInt32 a) (ToUint32 k mod 32)).
(** [a >>> k] *)
Definition ushr (a k : Z) : Z := Z.shiftr (ToUint32 a) (ToUint32 k mod 32).

(** An operand that may be [undefined] converts to 0 under the bitwise
    operators. *)
Definition operand (v : option Z) : Z := default 0 v.

(** Truthiness of a number. *)
Definition truthy (z : Z) : bool := negb (z =? 0).

(** [v !== undefined] *)
Definition defined {A} (v : option A) : bool :=
  match v with Some _ => true | None => false end.

(** [v === n] for [v] a number or undefined and [n] a number. *)
Definition strict_eq (v : option Z) (n : Z) : bool :=
  match v with Some z => z =? n | None => false end.

(** A sparse array: [None] is a hole. *)
Definition Array (A : Type) : Type := list (option A).

(** [arr[i]]: a hole and an index out of range both read undefined. *)
Definition array_get {A} (arr : list (option A)) (i : Z) : option A :=
  if i <? 0 then None else mjoin (arr !! Z.to_nat i).

(** [arr[i] = x]: extends the array with holes when [i] is past the end. *)
Definition array_set {A} (arr : list (option A)) (i : Z) (x : A) : list (option A) :=
  let n := Z.to_nat i in
  if i <? 0 then arr
  else if (n <? length arr)%nat then <[n := Some x]> arr
  else arr ++ replicate (n - length arr) None ++ [Some x].

(** [arr.length] *)
Definition array_length {A} (arr : list (option A)) : Z := Z.of_nat (length arr).

(** [arr.some(f)]: holes are skipped. *)
Definition array_some {A} (f : A → bool) (arr : list (option A)) : bool :=
  existsb (λ o, match o with Some x => f x | None => false end) arr.

(** [Math.min] on integers. *)
Definition Math_min (a b : Z) : Z := Z.min a b.

End JS.

(** ** Exceptions *)

Inductive Error : Type :=
  | Err (message : string)          (* new Error(message) *)
  | RangeError (code : string)      (* thrown by the Buffer accessors *)
  | TypeError (message : string)    (* property access on undefined *)
  | SocketError (message : string). (* reported by the dgram socket *)

Inductive result (A : Type) : Type :=
  | Ok (a : A)
  | Throw (e : Error).
Arguments Ok {A} a.
Arguments Throw {A} e.

#[global] Instance result_ret : MRet result := λ A a, Ok a.
#[global] Instance result_bind : MBind result := λ A B f m,
  match m with Ok a => f a | Throw e => Throw e end.

Definition is_Ok {A} (r : result A) : bool :=
  match r with Ok _ => true | Throw _ => false end.

(** The error taxonomy of the specification. *)
Definition MalformedFrame (e : Error) : Prop :=
  e = Err "UDP frame too short" ∨ e = Err "Bad STX" ∨ e = Err "Truncated frame".
Definition Timeout : Error := Err "UDP timeout".

(** ** Node Buffers *)

Abbreviation Buffer := (list byte).

Module Buf.

(** [buf.length] *)
Definition length (buf : Buffer) : Z := Z.of_nat (List.length buf).

(** [Buffer.alloc(n)] *)
Definition alloc (n : Z) : Buffer := replicate (Z.to_nat n) Byte.x00.

(** [Buffer.from([...])] *)
Definition from (l : list Z) : Buffer := byte.of_Z <$> l.

(** [buf[i]] *)
Definition get (buf : Buffer) (i : Z) : option Z :=
  if i <? 0 then None else byte.unsigned <$> buf !! Z.to_nat i.

(** [buf[i] = v]: the value is truncated to 8 bits, a store out of range
    is dropped. *)
Definition set (buf : Buffer) (i : Z) (v : Z) : Buffer :=
  if i <? 0 then buf else <[Z.to_nat i := byte.of_Z v]> buf.

Definition in_bounds (buf : Buffer) (offset : Z) (n : nat) : bool :=
  (0 <=? offset) && (offset + Z.of_nat n <=? length buf).

Definition readUIntLE (n : nat) (buf : Buffer) (offset : Z) : result Z :=
  if in_bounds buf offset n
  then Ok (le_combine (take n (drop (Z.to_nat offset) buf)))
  else Throw (RangeError "ERR_OUT_OF_RANGE").

(** [buf.readUInt16LE(offset)] *)
Definition readUInt16LE := readUIntLE 2.
(** [buf.readUInt32LE(offset)] *)
Definition readUInt32LE := readUIntLE 4.

(** [buf.readInt16LE(offset)] *)
Definition readInt16LE (buf : Buffer) (offset : Z) : result Z :=
  u ← readUInt16LE buf offset;
  Ok (if u <? 2 ^ 15 then u else u - 2 ^ 16).

(** [buf.writeUInt16LE(value, offset)] *)
Definition writeUInt16LE (buf : Buffer) (value offset : Z) : result Buffer :=
  if negb ((0 <=? value) && (value <=? 65535)) then Throw (RangeError "ERR_OUT_OF_RANGE")
  else if in_bounds buf offset 2
  then Ok (list_inserts (Z.to_nat offset) (le_split 2 value) buf)
  else Throw (RangeError "ERR_OUT_OF_RANGE").

(** [source.copy(target, targetStart)]: copies as much of [source] as
    fits, returns the updated target. *)
Definition copy (source target : Buffer) (targetStart : Z) : result Buffer :=
  if targetStart <? 0 then Throw (RangeError "ERR_OUT_OF_RANGE")
  else Ok (list_inserts (Z.to_nat targetStart) source target).

Definition clamp (len i : Z) : Z :=
  if i <? 0 then Z.max (len + i) 0 else Z.min i len.

(** [buf.subarray(start, end)] *)
Definition subarray (buf : Buffer) (start end_ : Z) : Buffer :=
  let s := clamp (length buf) start in
  let e := clamp (length buf) end_ in
  take (Z.to_nat (e - s)) (drop (Z.to_nat s) buf).

End Buf.

(** ** Protocol constants *)

Module CMD.
Definition READGM : Z := 0x01.
Definition INFO : Z := 0x0b.
Definition STANDBY : Z := 0x0e.
Definition READALLALARMS2 : Z := 0x19.
End CMD.

(** ** Frame codec *)

(** Body of the inner loop of [crc16IBM]. *)
Definition crc_bit (crc : Z) : Z :=
  let mix := JS.band crc 1 in
  let crc := JS.shr crc 1 in
  if JS.truthy mix then JS.bxor crc 0xa001 else crc.

(** Body of the outer loop: [crc ^= buf[offset + i]], then eight rounds.
    An element read out of range is undefined and converts to 0. *)
Definition crc_byte (crc : Z) (b : option Z) : Z :=
  match b with
  | Some v => Nat.iter 8 crc_bit (JS.bxor crc v)
  | None => Nat.iter 8 crc_bit (JS.bxor crc 0)
  end.

(** The outer loop, from index [i] on; [todo] counts the iterations that
    [i < len] still allows. *)
Fixpoint crc_loop (buf : Buffer) (offset : Z) (todo : nat) (i : Z) (crc : Z) : Z :=
  match todo with
  | O => crc
  | S todo' => crc_loop buf offset todo' (i + 1) (crc_byte crc (Buf.get buf (offset + i)))
  end.

Definition crc16IBM (buf : Buffer) (offset len : Z) : Z :=
  JS.band (crc_loop buf offset (Z.to_nat len) 0 0xffff) 0xffff.

Definition buildFrame (cmd cookie answerPort : Z) (data : Buffer) (forceZeroCrc : bool)
  : result Buffer :=
  let count := Buf.length data in
  let headerLen := 1 + 1 + 2 + 2 + 2 in
  let trailerLen := 2 + 1 + 1 in
  let total := headerLen + count + trailerLen in
  let out := Buf.alloc total in
  let o := 0 in
  let out := Buf.set out o 0x02 in
  let o := o + 1 in
  let out := Buf.set out o (JS.band cmd 0xff) in
  let o := o + 1 in
  out ← Buf.writeUInt16LE out (JS.band cookie 0xffff) o;
  let o := o + 2 in
  out ← Buf.writeUInt16LE out (JS.band count 0xffff) o;
  let o := o + 2 in
  out ← Buf.writeUInt16LE out (JS.band answerPort 0xffff) o;
  let o := o + 2 in
  out ← (if 0 <? count then Buf.copy data out o else Ok out);
  let o := o + count in
  let crc := if negb forceZeroCrc then crc16IBM out 0 (8 + count) else 0 in
  out ← Buf.writeUInt16LE out (JS.band crc 0xffff) o;
  let o := o + 2 in
  let out := Buf.set out o (JS.band (JS.bnot cmd) 0xff) in
  let o := o + 1 in
  let out := Buf.set out o 0x03 in
  Ok out.

(** The object returned by [parseHeader]. *)
Module Header.
Record t : Type := mk {
  STX : option Z;
  cmd : option Z;
  cookie : Z;
  count : Z;
  answerPort : Z;
  data : Buffer;
  crc16 : Z;
  notCmd : option Z;
  ETX : option Z;
}.
End Header.

Definition parseHeader (msg : Buffer) : result Header.t :=
  if Buf.length msg <? 12 then Throw (Err "UDP frame too short") else
  let STX := Buf.get msg 0 in
  let cmd := Buf.get msg 1 in
  cookie ← Buf.readUInt16LE msg 2;
  count ← Buf.readUInt16LE msg 4;
  answerPort ← Buf.readUInt16LE msg 6;
  let dataStart := 8 in
  let dataEnd := dataStart + count in
  if negb (JS.strict_eq STX 0x02) then Throw (Err "Bad STX") else
  if Buf.length msg <? dataEnd + 4 then Throw (Err "Truncated frame") else
  crc16 ← Buf.readUInt16LE msg dataEnd;
  let notCmd := Buf.get msg (dataEnd + 1) in
  let ETX := Buf.get msg (dataEnd + 2) in
  let data := Buf.subarray msg dataStart dataEnd in
  Ok (Header.mk STX cmd cookie count answerPort data crc16 notCmd ETX).

(** ** Payload decoders *)

Module Standby.
Record t : Type := mk { ok : bool; standbyRaw : option Z }.
End Standby.

Definition parseStandbyData (data : Buffer) : Standby.t :=
  if Buf.length data >=? 2 then
    let answer_ok := Buf.get data 0 in
    let on_off := Buf.get data 1 in
    Standby.mk (JS.strict_eq answer_ok 1) on_off
  else Standby.mk false None.

(** [cent / 100]: the JavaScript number is kept as the exact fraction. *)
Definition div100 (cent : Z) : Q := Qmake cent 100.

Module Gm.
Record channel : Type := mkChannel {
  inGain : option Q;
  outGain : option Q;
  inMute : option bool;
  outMute : option bool;
}.
Record t : Type := mk { ok : bool; channels : JS.Array channel }.
End Gm.

(** The [for] loop of [parseReadgmData]; [todo] counts the iterations that
    the bound [i < ch] still allows. *)
Fixpoint readgm_loop (data : Buffer) (todo : nat) (i p : Z) (channels : JS.Array Gm.channel)
  : result (JS.Array Gm.channel) :=
  match todo with
  | O => Ok channels
  | S todo' =>
    if p + 6 >? Buf.length data then Ok channels else
    inGainCent ← Buf.readInt16LE data p;
    let p := p + 2 in
    outGainCent ← Buf.readInt16LE data p;
    let p := p + 2 in
    let inMute := Buf.get data p in
    let p := p + 1 in
    let outMute := Buf.get data p in
    let p := p + 1 in
    let channels :=
      JS.array_set channels i
        (Gm.mkChannel (Some (div100 inGainCent)) (Some (div100 outGainCent))
                      (Some (JS.strict_eq inMute 1)) (Some (JS.strict_eq outMute 1))) in
    readgm_loop data todo' (i + 1) p channels
  end.

Definition parseReadgmData (data : Buffer) (maxChannels : Z) : result Gm.t :=
  let res := Gm.mk false [] in
  if Buf.length data <? 2 then Ok res else
  let ok := JS.strict_eq (Buf.get data 0) 1 in
  let n := Buf.get data 1 in
  let res := Gm.mk ok (Gm.channels res) in (* res.ok = ok *)
  let p := 2 in
  (* Math.min(undefined, _) is NaN and the loop body never runs *)
  let ch := match n with Some n => JS.Math_min n maxChannels | None => 0 end in
  channels ← readgm_loop data (Z.to_nat ch) 0 p (Gm.channels res);
  Ok (Gm.mk (Gm.ok res) channels).

Module Alarms.
Record t : Type := mk {
  ok : bool;
  fault : bool;
  gpio : option Z;
  global : option Z;
  channelWords : option (JS.Array Z);
}.
End Alarms.

(** The [for] loop of [parseReadAllAlarms2Data]; [todo] counts the
    iterations that [i < 8] still allows. *)
Fixpoint alarms_loop (data : Buffer) (todo : nat) (i p : Z) (channelWords : JS.Array Z)
  : result (JS.Array Z) :=
  match todo with
  | O => Ok channelWords
  | S todo' =>
    if negb (p + 4 <=? Buf.length data) then Ok channelWords else
    w ← Buf.readUInt32LE data p;
    let channelWords := JS.array_set channelWords i w in
    alarms_loop data todo' (i + 1) (p + 4) channelWords
  end.

Definition parseReadAllAlarms2Data (data : Buffer) : result Alarms.t :=
  if Buf.length data <? 1 then Ok (Alarms.mk false false None None None) else
  let ok := JS.strict_eq (Buf.get data 0) 1 in
  if negb ok then Ok (Alarms.mk false false None None None) else
  if Buf.length data <? 1 + 1 + 2 + 4 then Ok (Alarms.mk true false None None None) else
  let gpio := Buf.get data 1 in
  let p := 1 + 1 + 2 in
  global ← Buf.readUInt32LE data p;
  let p := p + 4 in
  channelWords ← alarms_loop data 8 0 p [];
  let fault := negb (global =? 0) || JS.array_some (λ w, negb (w =? 0)) channelWords in
  Ok (Alarms.mk true fault gpio (Some global) (Some channelWords)).

(** ** Transport exchange *)

Record UdpOptions : Type := mkOptions {
  host : string;
  devicePort : option Z;
  answerPortZero : option bool;
  timeoutMs : option Z;
}.

(** A datagram handed to [socket.send]. *)
Record Datagram : Type := mkDatagram {
  dg_frame : Buffer;
  dg_port : Z;
  dg_host : string;
}.

(** Callbacks the event loop can deliver to one exchange once the frame
    has been handed to the socket. *)
Inductive Event : Type :=
  | Message (msg : Buffer)            (* socket 'message' *)
  | TimerFired                        (* the setTimeout callback *)
  | SendCallback (err : option Error). (* completion callback of socket.send *)

(** What the environment does during one call of [udpRequest]: the value
    drawn by [Math.random] (already scaled and floored), the outcome of
    [socket.bind], and the callbacks delivered before the deadline. *)
Record Exchange : Type := mkExchange {
  random_cookie : Z;
  bind_result : result Z;
  events : list Event;
}.

(** The promise returned by [udpRequest] together with the resources its
    callbacks close over. *)
Module Pending.
Record t : Type := mk {
  settled : option (result Buffer);
  timer_armed : bool;
  socket_open : bool;
  listening : bool;
}.
Definition init : t := mk None true true true.
(** [resolve]/[reject]: only the first call has an effect. *)
Definition settle (r : result Buffer) (st : t) : t :=
  match settled st with
  | None => mk (Some r) (timer_armed st) (socket_open st) (listening st)
  | Some _ => st
  end.
(** [clearTimeout(timer); socket.close()] *)
Definition release (st : t) : t := mk (settled st) false false (listening st).
End Pending.

(** Body of the ['message'] handler, after the timer is cleared and the
    socket closed. *)
Definition check_reply (cmd cookie : Z) (msg : Buffer) : result Buffer :=
  h ← parseHeader msg;
  if negb (JS.band (JS.bxor (JS.operand (Header.cmd h)) 0xff) 0xff =? cmd)
  then Throw (Err "Unexpected cmd in response")
  else if negb (Header.cookie h =? cookie) then Throw (Err "Cookie mismatch")
  else Ok (Header.data h).

Definition step (cmd cookie : Z) (st : Pending.t) (ev : Event) : Pending.t :=
  match ev with
  | Message msg =>
    (* registered with [once]; a closed socket emits nothing *)
    if Pending.socket_open st && Pending.listening st then
      let st := Pending.release st in
      let st := Pending.mk (Pending.settled st) (Pending.timer_armed st)
                           (Pending.socket_open st) false in
      Pending.settle (check_reply cmd cookie msg) st
    else st
  | TimerFired =>
    if Pending.timer_armed st then
      let st := Pending.mk (Pending.settled st) false false (Pending.listening st) in
      Pending.settle (Throw Timeout) st
    else st
  | SendCallback (Some err) => Pending.settle (Throw err) (Pending.release st)
  | SendCallback None => st
  end.

(** The second promise of [udpRequest]: the callbacks in [evs] run in
    order, then the deadline elapses.  [None] would be a promise that
    never settles. *)
Definition await_reply (cmd cookie : Z) (evs : list Event) : option (result Buffer) :=
  Pending.settled (foldl (step cmd cookie) Pending.init (evs ++ [TimerFired])).

(** [socket.send(frame, port, host, callback)] checks the port before
    anything is handed to the socket: a port outside 1..65535 makes it
    throw [ERR_SOCKET_BAD_PORT], a [RangeError], synchronously. *)
Definition valid_port (port : Z) : bool := (0 <? port) && (port <=? 65535).

Definition socket_send (port : Z) : result unit :=
  if valid_port port then Ok tt else Throw (RangeError "ERR_SOCKET_BAD_PORT").

(** The exchange once the executor of the second promise has run.  The
    timer is armed and the ['message'] listener registered before
    [socket.send] is called: when [send] throws, the exception rejects the
    promise and nothing is released. *)
Definition started (sent : result unit) : Pending.t :=
  match sent with
  | Ok _ => Pending.init
  | Throw e => Pending.settle (Throw e) Pending.init
  end.

(** [udpRequest]: returns the datagrams sent and the state of the returned
    promise. *)
Definition udpRequest (opts : UdpOptions) (cmd : Z) (data : Buffer) (forceZeroCrc : bool)
    (x : Exchange) : list Datagram * option (result Buffer) :=
  let host := host opts in
  let devicePort := default 1234 (devicePort opts) in
  let cookie := random_cookie x in
  match bind_result x with
  | Throw e => ([], Some (Throw e))
  | Ok answerPort =>
    let ap := if default false (answerPortZero opts) then 0 else answerPort in
    let forceZero := forceZeroCrc || (cmd =? CMD.STANDBY) in
    match buildFrame cmd cookie ap data forceZero with
    | Throw e => ([], Some (Throw e))
    | Ok frame =>
      match socket_send devicePort with
      | Ok _ => ([mkDatagram frame devicePort host], await_reply cmd cookie (events x))
      | Throw e =>
        (* thrown inside the executor: the timer and the listener stay *)
        ([], Pending.settled
               (foldl (step cmd cookie) (started (Throw e)) (events x ++ [TimerFired])))
      end
    end
  end.

(** ** Status aggregator *)

Module UdpStatus.
Record channel : Type := mkChannel {
  mute : option bool;
  gain : option Q;
  clip : option bool;
  overTemp : option bool;
  lowLoad : option bool;
  railFault : option bool;
  otherFault : option bool;
  thermalSOA : option bool;
  auxCurrentFault : option bool;
}.
(** The object literal [{}]. *)
Definition empty : channel := mkChannel None None None None None None None None None.

Record t : Type := mk {
  power : option bool;
  fault : option bool;
  channels : list channel;
}.

Definition set_power (v : bool) (s : t) : t := mk (Some v) (fault s) (channels s).
Definition set_fault (v : bool) (s : t) : t := mk (power s) (Some v) (channels s).

Definition set_mute (v : option bool) (c : channel) : channel :=
  mkChannel v (gain c) (clip c) (overTemp c) (lowLoad c) (railFault c) (otherFault c)
            (thermalSOA c) (auxCurrentFault c).
Definition set_gain (v : Q) (c : channel) : channel :=
  mkChannel (mute c) (Some v) (clip c) (overTemp c) (lowLoad c) (railFault c) (otherFault c)
            (thermalSOA c) (auxCurrentFault c).
Definition set_clip (v : bool) (c : channel) : channel :=
  mkChannel (mute c) (gain c) (Some v) (overTemp c) (lowLoad c) (railFault c) (otherFault c)
            (thermalSOA c) (auxCurrentFault c).
Definition set_overTemp (v : bool) (c : channel) : channel :=
  mkChannel (mute c) (gain c) (clip c) (Some v) (lowLoad c) (railFault c) (otherFault c)
            (thermalSOA c) (auxCurrentFault c).
Definition set_lowLoad (v : bool) (c : channel) : channel :=
  mkChannel (mute c) (gain c) (clip c) (overTemp c) (Some v) (railFault c) (otherFault c)
            (thermalSOA c) (auxCurrentFault c).
Definition set_railFault (v : bool) (c : channel) : channel :=
  mkChannel (mute c) (gain c) (clip c) (overTemp c) (lowLoad c) (Some v) (otherFault c)
            (thermalSOA c) (auxCurrentFault c).
Definition set_otherFault (v : bool) (c : channel) : channel :=
  mkChannel (mute c) (gain c) (clip c) (overTemp c) (lowLoad c) (railFault c) (Some v)
            (thermalSOA c) (auxCurrentFault c).
Definition set_thermalSOA (v : bool) (c : channel) : channel :=
  mkChannel (mute c) (gain c) (clip c) (overTemp c) (lowLoad c) (railFault c) (otherFault c)
            (Some v) (auxCurrentFault c).
Definition set_auxCurrentFault (v : bool) (c : channel) : channel :=
  mkChannel (mute c) (gain c) (clip c) (overTemp c) (lowLoad c) (railFault c) (otherFault c)
            (thermalSOA c) (Some v).
End UdpStatus.

(** Statements that mutate [status] and may throw: the state survives an
    exception, as the object does in the [catch] handler. *)
Definition M (A : Type) : Type := UdpStatus.t → result A * UdpStatus.t.

#[global] Instance M_ret : MRet M := λ A a s, (Ok a, s).
#[global] Instance M_bind : MBind M := λ A B f m s,
  match m s with
  | (Ok a, s') => f a s'
  | (Throw e, s') => (Throw e, s')
  end.

Definition lift {A} (r : result A) : M A := λ s, (r, s).
Definition modify (f : UdpStatus.t → UdpStatus.t) : M unit := λ s, (Ok tt, f s).
Definition skip : M unit := mret tt.

(** [status.channels[i].field = v]: a [TypeError] when [status.channels[i]]
    is undefined. *)
Definition set_channel (i : Z) (f : UdpStatus.channel → UdpStatus.channel) : M unit := λ s,
  let chs := UdpStatus.channels s in
  match (if i <? 0 then None else chs !! Z.to_nat i) with
  | Some c =>
    (Ok tt, UdpStatus.mk (UdpStatus.power s) (UdpStatus.fault s) (<[Z.to_nat i := f c]> chs))
  | None => (Throw (TypeError "Cannot set properties of undefined"), s)
  end.

(** [for (let i = start; i < bound; i++) body], [todo] iterations left. *)
Fixpoint for_loop (todo : nat) (i : Z) (body : Z → M unit) : M unit :=
  match todo with
  | O => skip
  | S todo' => _ ← body i; for_loop todo' (i + 1) body
  end.

(** [try { const data = await request; block(data) } catch (_) {}]:
    [None] when the awaited promise never settles. *)
Definition try_await (request : option (result Buffer)) (block : Buffer → M unit)
    (status : UdpStatus.t) : option UdpStatus.t :=
  r ← request;
  Some (match r with
        | Ok data => snd (block data status)
        | Throw _ => status
        end).

(** First [try] block of [readUdpStatus], after the [await]. *)
Definition standby_block (standbyData : Buffer) : M unit :=
  let s := parseStandbyData standbyData in
  if Standby.ok s && JS.defined (Standby.standbyRaw s) then
    (* PDF: 2 => STANDBY OFF (operative), 1 => STANDBY ON *)
    modify (UdpStatus.set_power (JS.strict_eq (Standby.standbyRaw s) 2))
  else skip.

(** Second [try] block. *)
Definition readgm_block (maxChannels : Z) (gmData : Buffer) : M unit :=
  gm ← lift (parseReadgmData gmData maxChannels);
  if Gm.ok gm then
    let bound := JS.Math_min (JS.array_length (Gm.channels gm)) maxChannels in
    for_loop (Z.to_nat bound) 0 (λ i,
      match JS.array_get (Gm.channels gm) i with
      | None => skip (* continue *)
      | Some ch =>
        (* Prefer output mute/gain when available; fallback to input *)
        _ ← set_channel i (UdpStatus.set_mute
               (match Gm.outMute ch with Some m => Some m | None => Gm.inMute ch end));
        let g := match Gm.outGain ch with Some g => Some g | None => Gm.inGain ch end in
        match g with
        | Some g => set_channel i (UdpStatus.set_gain g)
        | None => skip
        end
      end)
  else skip.

(** Third [try] block. *)
Definition alarms_block (maxChannels : Z) (alData : Buffer) : M unit :=
  a ← lift (parseReadAllAlarms2Data alData);
  if Alarms.ok a then
    _ ← modify (UdpStatus.set_fault (Alarms.fault a));
    (* Map per-channel critical bits when available *)
    let words := default [] (Alarms.channelWords a) in
    let bound := JS.Math_min (JS.array_length words) maxChannels in
    for_loop (Z.to_nat bound) 0 (λ i,
      let w := JS.ushr (JS.operand (JS.array_get words i)) 0 in
      if JS.truthy w then
        (* Bit mapping from PDF *)
        _ ← set_channel i (UdpStatus.set_clip (negb (JS.band w (JS.shl 1 0) =? 0)));
        _ ← set_channel i (UdpStatus.set_thermalSOA (negb (JS.band w (JS.shl 1 1) =? 0)));
        _ ← set_channel i (UdpStatus.set_overTemp (negb (JS.band w (JS.shl 1 3) =? 0)));
        _ ← set_channel i (UdpStatus.set_railFault (negb (JS.band w (JS.shl 1 4) =? 0)));
        _ ← set_channel i (UdpStatus.set_auxCurrentFault (negb (JS.band w (JS.shl 1 5) =? 0)));
        _ ← set_channel i (UdpStatus.set_otherFault (negb (JS.band w (JS.shl 1 6) =? 0)));
        set_channel i (UdpStatus.set_lowLoad (negb (JS.band w (JS.shl 1 7) =? 0)))
      else skip)
  else skip.

(** The environment of one poll: one [Exchange] per request, in the order
    the requests are made. *)
Record Network : Type := mkNetwork {
  standby_exchange : Exchange;
  readgm_exchange : Exchange;
  alarms_exchange : Exchange;
}.

(** [readUdpStatus]: the datagrams sent, and the snapshot the returned
    promise resolves with ([None]: the promise never settles). *)
Definition readUdpStatus (opts : UdpOptions) (maxChannels : Z) (net : Network)
  : list Datagram * option UdpStatus.t :=
  let status :=
    UdpStatus.mk None None (replicate (Z.to_nat maxChannels) UdpStatus.empty) in
  (* STANDBY read: data=[0,0,0,0] *)
  let '(sent1, reply1) :=
    udpRequest opts CMD.STANDBY (Buf.from [0; 0; 0; 0]) true (standby_exchange net) in
  match try_await reply1 standby_block status with
  | None => (sent1, None)
  | Some status =>
    let '(sent2, reply2) :=
      udpRequest opts CMD.READGM (Buf.alloc 0) false (readgm_exchange net) in
    match try_await reply2 (readgm_block maxChannels) status with
    | None => (sent1 ++ sent2, None)
    | Some status =>
      let '(sent3, reply3) :=
        udpRequest opts CMD.READALLALARMS2 (Buf.alloc 0) false (alarms_exchange net) in
      match try_await reply3 (alarms_block maxChannels) status with
      | None => (sent1 ++ sent2 ++ sent3, None)
      | Some status => (sent1 ++ sent2 ++ sent3, Some status)
      end
    end
  end.

(** ** The specification's wording of the wire format

    These definitions follow the specification, not the code; the
    theorems below relate them to the code above. *)

(** One round of the table-free CRC, least-significant bit first, with
    feedback value [0xA001]. *)
Definition crc16_spec_round (reg : Z) : Z :=
  if Z.odd reg then Z.lxor (Z.shiftr reg 1) 0xA001 else Z.shiftr reg 1.

(** The register after the bytes have been fed, each byte xor-ed in and
    followed by eight rounds. *)
Definition crc16_spec_from (reg : Z) (bytes : list byte) : Z :=
  foldl (λ reg b, Nat.iter 8 crc16_spec_round (Z.lxor reg (byte.unsigned b))) reg bytes.

(** The 16-bit CRC of a byte sequence, initial register [0xFFFF]. *)
Definition crc16_spec (bytes : list byte) : Z := crc16_spec_from 0xFFFF bytes.

(** A little-endian signed 16-bit value. *)
Definition sint16_le (lo hi : byte) : Z :=
  let u := byte.unsigned lo + 256 * byte.unsigned hi in
  if u <? 32768 then u else u - 65536.

(** A little-endian unsigned 32-bit value. *)
Definition uint32_le (b0 b1 b2 b3 : byte) : Z :=
  byte.unsigned b0 + 256 * byte.unsigned b1 + 65536 * byte.unsigned b2
  + 16777216 * byte.unsigned b3.

(** The gain/mute table: at most [budget] records of six bytes, as many as
    are complete; a gain is the signed 16-bit value over 100, as a
    fraction. *)
Fixpoint gm_table_spec (budget : nat) (bytes : list byte) : list Gm.channel :=
  match budget, bytes with
  | S budget', g0 :: g1 :: h0 :: h1 :: im :: om :: rest =>
    Gm.mkChannel (Some (Qmake (sint16_le g0 g1) 100)) (Some (Qmake (sint16_le h0 h1) 100))
                 (Some (byte.unsigned im =? 1)) (Some (byte.unsigned om =? 1))
    :: gm_table_spec budget' rest
  | _, _ => []
  end.

(** The per-channel alarm words: at most [budget] words of four bytes, as
    many as are complete. *)
Fixpoint alarm_words_spec (budget : nat) (bytes : list byte) : list Z :=
  match budget, bytes with
  | S budget', b0 :: b1 :: b2 :: b3 :: rest =>
    uint32_le b0 b1 b2 b3 :: alarm_words_spec budget' rest
  | _, _ => []
  end.

(** The seven alarm flags of a channel, in the order clip, thermalSOA,
    overTemp, railFault, auxCurrentFault, otherFault, lowLoad. *)
Definition alarm_flags (c : UdpStatus.channel) : list (option bool) :=
  [UdpStatus.clip c; UdpStatus.thermalSOA c; UdpStatus.overTemp c; UdpStatus.railFault c;
   UdpStatus.auxCurrentFault c; UdpStatus.otherFault c; UdpStatus.lowLoad c].

(** The flags the specification assigns to an alarm word: bits 0, 1, 3, 4,
    5, 6 and 7, in the order of [alarm_flags]. *)
Definition alarm_bits_spec (w : Z) : list (option bool) :=
  (λ k, Some (Z.testbit w k)) <$> [0; 1; 3; 4; 5; 6; 7].

(** ** Auxiliary notions for the aggregator *)

(** The state of [status] once a [try] block has run on the outcome [r]
    of its request. *)
Definition after (r : result Buffer) (block : Buffer → M unit) (s : UdpStatus.t)
  : UdpStatus.t :=
  match r with Ok data => snd (block data s) | Throw _ => s end.

(** [status.channels[i]] replaced by [f status.channels[i]]. *)
Definition upd (i : nat) (f : UdpStatus.channel → UdpStatus.channel) (s : UdpStatus.t)
  : UdpStatus.t :=
  UdpStatus.mk (UdpStatus.power s) (UdpStatus.fault s) (alter f i (UdpStatus.channels s)).

(** The status object [readUdpStatus] starts from. *)
Definition fresh (maxChannels : Z) : UdpStatus.t :=
  UdpStatus.mk None None (replicate (Z.to_nat maxChannels) UdpStatus.empty).

(** The three requests of one poll and the promise each returns. *)
Definition standby_reply (opts : UdpOptions) (net : Network) : option (result Buffer) :=
  snd (udpRequest opts CMD.STANDBY (Buf.from [0; 0; 0; 0]) true (standby_exchange net)).
Definition readgm_reply (opts : UdpOptions) (net : Network) : option (result Buffer) :=
  snd (udpRequest opts CMD.READGM (Buf.alloc 0) false (readgm_exchange net)).
Definition alarms_reply (opts : UdpOptions) (net : Network) : option (result Buffer) :=
  snd (udpRequest opts CMD.READALLALARMS2 (Buf.alloc 0) false (alarms_exchange net)).

(** The reply a device sends: the request's command inverted, its cookie
    echoed. *)
Definition device_reply (cmd cookie : Z) (payload : list Z) : Buffer :=
  match buildFrame (JS.band (JS.bnot cmd) 0xff) cookie 0 (Buf.from payload) false with
  | Ok frame => frame
  | Throw _ => []
  end.

(** ** Auxiliary definitions used in the statements and proofs *)

(** The header bytes written by [buildFrame]. *)
Definition frame_header (cmd cookie answerPort count : Z) : Buffer :=
  [byte.of_Z 2; byte.of_Z (cmd mod 256)]
  ++ le_split 2 (cookie mod 65536) ++ le_split 2 (count mod 65536)
  ++ le_split 2 (answerPort mod 65536).

(** The trailer bytes written by [buildFrame]. *)
Definition frame_trailer (cmd crc : Z) : Buffer :=
  le_split 2 crc ++ [byte.of_Z ((- cmd - 1) mod 256); byte.of_Z 3].

(** The unsigned 16-bit little-endian value at [offset]. *)
Definition u16_at (msg : Buffer) (offset : Z) : Z :=
  le_combine (take 2 (drop (Z.to_nat offset) msg)).

(** The value of [parseHeader] on a message of at least 12 bytes, with
    every accessor resolved. *)
Definition parseHeader_long (msg : Buffer) : result Header.t :=
  let count := u16_at msg 4 in
  if negb (JS.strict_eq (Buf.get msg 0) 0x02) then Throw (Err "Bad STX")
  else if Buf.length msg <? 8 + count + 4 then Throw (Err "Truncated frame")
  else Ok (Header.mk (Buf.get msg 0) (Buf.get msg 1) (u16_at msg 2) count (u16_at msg 6)
                     (Buf.subarray msg 8 (8 + count)) (u16_at msg (8 + count))
                     (Buf.get msg (8 + count + 1)) (Buf.get msg (8 + count + 2))).

(** The outcome decided by the first callback other than a successful send
    completion; the deadline decides when there is none. *)
Fixpoint first_outcome (cmd cookie : Z) (evs : list Event) : result Buffer :=
  match evs with
  | [] => Throw Timeout
  | Message msg :: _ => check_reply cmd cookie msg
  | TimerFired :: _ => Throw Timeout
  | SendCallback (Some err) :: _ => Throw err
  | SendCallback None :: evs' => first_outcome cmd cookie evs'
  end.

(** A reply to a standby request that echoes cookie 8. *)
Definition stale_reply : Buffer := device_reply CMD.STANDBY 8 [1; 2; 0; 0].
(** A reply to a standby request that echoes cookie 7. *)
Definition matching_reply : Buffer := device_reply CMD.STANDBY 7 [1; 2; 0; 0].

(** A payload whose answer-ok byte is 0. *)
Definition alarms_refused : Buffer := Buf.from [0; 0; 0; 0; 1; 0; 0; 0; 1; 0; 0; 0].
(** An accepted payload: global word 0, channel words 0 and 0x83, and two
    bytes of a third word. *)
Definition alarms_sample : Buffer :=
  Buf.from [1; 0; 0; 0; 0; 0; 0; 0; 0; 0; 0; 0; 0x83; 0; 0; 0; 7; 7].

(** Effect of one iteration of the gain/mute loop on its channel. *)
Definition gm_apply (ch : Gm.channel) (c : UdpStatus.channel) : UdpStatus.channel :=
  let c :=
    UdpStatus.set_mute
      (match Gm.outMute ch with Some m => Some m | None => Gm.inMute ch end) c in
  match (match Gm.outGain ch with Some g => Some g | None => Gm.inGain ch end) with
  | Some g => UdpStatus.set_gain g c
  | None => c
  end.

(** Effect of one iteration of the alarm loop on its channel. *)
Definition alarm_apply (w : Z) (c : UdpStatus.channel) : UdpStatus.channel :=
  if JS.truthy w then
    UdpStatus.set_lowLoad (negb (JS.band w (JS.shl 1 7) =? 0))
      (UdpStatus.set_otherFault (negb (JS.band w (JS.shl 1 6) =? 0))
         (UdpStatus.set_auxCurrentFault (negb (JS.band w (JS.shl 1 5) =? 0))
            (UdpStatus.set_railFault (negb (JS.band w (JS.shl 1 4) =? 0))
               (UdpStatus.set_overTemp (negb (JS.band w (JS.shl 1 3) =? 0))
                  (UdpStatus.set_thermalSOA (negb (JS.band w (JS.shl 1 1) =? 0))
                     (UdpStatus.set_clip (negb (JS.band w (JS.shl 1 0) =? 0)) c))))))
  else c.

(** [F j] applied to every channel [j] with [lo ≤ j < lo + n]. *)
Definition upd_range (F : nat → UdpStatus.channel → UdpStatus.channel) (lo n : nat)
    (s : UdpStatus.t) : UdpStatus.t :=
  UdpStatus.mk (UdpStatus.power s) (UdpStatus.fault s)
    (imap (λ j c, if decide (lo ≤ j < lo + n)%nat then F j c else c) (UdpStatus.channels s)).

(** The mute and gain fields of a channel. *)
Definition gm_fields (c : UdpStatus.channel) : option bool * option Q :=
  (UdpStatus.mute c, UdpStatus.gain c).

(** The bytes [crc16IBM] reads for the window of [len] bytes at [offset]:
    an index outside the buffer reads as the zero byte. *)
Definition crc_window (buf : Buffer) (offset len : Z) : Buffer :=
  (λ i, default Byte.x00
          (if offset + i <? 0 then None else buf !! Z.to_nat (offset + i)))
  <$> seqZ 0 len.

(** ** Sample inputs *)

(** Sample connection options: defaults everywhere. *)
Definition sample_options : UdpOptions := mkOptions "192.168.1.20" None None None.
(** An exchange in which the device answers with [payload]. *)
Definition replying (c ck : Z) (payload : list Z) : Exchange :=
  mkExchange ck (Ok 40000) [SendCallback None; Message (device_reply c ck payload)].
(** An exchange in which nothing arrives before the deadline. *)
Definition unanswered (ck : Z) : Exchange := mkExchange ck (Ok 40000) [SendCallback None].
(** A device that answers only the alarm request: global word 0, channel
    words 0x83 and 0. *)
Definition alarms_only : Network :=
  mkNetwork (unanswered 7) (unanswered 8)
    (replying CMD.READALLALARMS2 9 [1; 0; 0; 0; 0; 0; 0; 0; 0x83; 0; 0; 0; 0; 0; 0; 0]).

(** A device that answers the standby request with raw state code 3. *)
Definition standby_code_3 : Network :=
  mkNetwork (replying CMD.STANDBY 7 [1; 3; 0; 0]) (unanswered 8) (unanswered 9).
(** A device that answers the standby request with raw state code 2. *)
Definition standby_code_2 : Network :=
  mkNetwork (replying CMD.STANDBY 7 [1; 2; 0; 0]) (unanswered 8) (unanswered 9).

(** A decoded alarm payload with channel words 0x83 and 0. *)
Definition alarms_0x83 : Buffer :=
  Buf.from [1; 0; 0; 0; 0; 0; 0; 0; 0x83; 0; 0; 0; 0; 0; 0; 0].

(** The network of [alarms_only] with the alarm request left unanswered. *)
Definition nothing_answers : Network := mkNetwork (unanswered 7) (unanswered 8) (unanswered 9).

(** The standby datagram of a poll with [sample_options], cookie 7 and
    local port 40000. *)
Definition standby_datagram : Datagram :=
  mkDatagram
    (Buf.from [0x02; 0x0e; 0x07; 0x00; 0x04; 0x00; 0x40; 0x9c; 0; 0; 0; 0; 0; 0; 0xf1; 0x03])
    1234 "192.168.1.20".
(** The alarm datagram of the same poll, cookie 9. *)
Definition alarms_datagram : Datagram :=
  mkDatagram
    (Buf.from [0x02; 0x19; 0x09; 0x00; 0x00; 0x00; 0x40; 0x9c; 0x78; 0x23; 0xe6; 0x03])
    1234 "192.168.1.20".

(** An exchange in which the first datagram received is the standby
    request frame itself. *)
Definition echoed : Exchange :=
  mkExchange 7 (Ok 40000) [SendCallback None; Message (dg_frame standby_datagram)].

(** A device that answers the three requests of a poll: power on, two
    gain/mute records, channel alarm words 0x83 and 0. *)
Definition answering : Network :=
  mkNetwork
    (replying CMD.STANDBY 7 [1; 2; 0; 0])
    (replying CMD.READGM 8 [1; 2; 0; 0; 0xd4; 0xfe; 0; 1; 0x64; 0; 0; 0; 1; 0])
    (replying CMD.READALLALARMS2 9 [1; 0; 0; 0; 0; 0; 0; 0; 0x83; 0; 0; 0; 0; 0; 0; 0]).
(** The first channel of a poll of [answering]. *)
Definition answering_channel : UdpStatus.channel :=
  UdpStatus.mkChannel (Some true) (Some (Qmake (-300) 100)) (Some true) (Some false)
                      (Some true) (Some false) (Some false) (Some true) (Some false).
(** The snapshot of a poll of [answering] with two channels. *)
Definition answering_snapshot : UdpStatus.t :=
  UdpStatus.mk (Some true) (Some true)
    [answering_channel;
     UdpStatus.mkChannel (Some false) (Some (Qmake 0 100)) None None None None None None None].

(** A device that answers only the gain/mute request, with one record. *)
Definition one_record : Network :=
  mkNetwork (unanswered 7) (replying CMD.READGM 8 [1; 1; 0; 0; 0xd4; 0xfe; 0; 1]) (unanswered 9).
(** The snapshot of a poll of [one_record] with two channels. *)
Definition one_record_snapshot : UdpStatus.t :=
  UdpStatus.mk None None
    [UdpStatus.mkChannel (Some true) (Some (Qmake (-300) 100)) None None None None None None None;
     UdpStatus.empty].

(** * Properties *)

(** Closes a case in which the hypothesis [H] bounds the length of a
    buffer that is written out too short for it. *)
Ltac buffer_too_short H := unfold Buf.length in H; cbn [length] in H; lia.

(** ** JavaScript integer operators on small values *)

Lemma ToInt32_small z : 0 ≤ z < 2 ^ 31 → JS.ToInt32 z = z.
Proof.
  intros Hz. unfold JS.ToInt32. rewrite Z.mod_small by lia.
  destruct (Z.ltb_spec z (2 ^ 31)); lia.
Qed.

Lemma ToInt32_mod_pow2 z n : 0 ≤ n ≤ 32 → JS.ToInt32 z mod 2 ^ n = z mod 2 ^ n.
Proof.
  intros Hn. unfold JS.ToInt32.
  assert (Hdiv : 2 ^ 32 = 2 ^ (32 - n) * 2 ^ n).
  { rewrite <- Z.pow_add_r by lia. f_equal. lia. }
  assert (Hmm : (z mod 2 ^ 32) mod 2 ^ n = z mod 2 ^ n).
  { rewrite Hdiv. rewrite Z.mul_comm.
    rewrite Z.rem_mul_r by (apply Z.pow_nonzero || apply Z.pow_pos_nonneg; lia).
    rewrite Z.mul_comm, Z.mod_add by (apply Z.pow_nonzero; lia).
    apply Z.mod_mod. apply Z.pow_nonzero; lia. }
  destruct (_ <? _); [exact Hmm|].
  rewrite Hdiv at 2.
  replace (z mod 2 ^ 32 - 2 ^ (32 - n) * 2 ^ n)
    with (z mod 2 ^ 32 + (- 2 ^ (32 - n)) * 2 ^ n) by lia.
  rewrite Z.mod_add by (apply Z.pow_nonzero; lia). exact Hmm.
Qed.

Lemma band_0xff z : JS.band z 0xff = z mod 256.
Proof.
  unfold JS.band. rewrite (ToInt32_small 255) by lia.
  change 255 with (Z.ones 8). rewrite Z.land_ones by lia.
  apply (ToInt32_mod_pow2 z 8). lia.
Qed.

Lemma band_0xffff z : JS.band z 0xffff = z mod 65536.
Proof.
  unfold JS.band. rewrite (ToInt32_small 65535) by lia.
  change 65535 with (Z.ones 16). rewrite Z.land_ones by lia.
  apply (ToInt32_mod_pow2 z 16). lia.
Qed.

Lemma bnot_0xff z : JS.band (JS.bnot z) 0xff = (- z - 1) mod 256.
Proof.
  rewrite band_0xff. unfold JS.bnot, Z.lnot.
  replace (Z.pred (- JS.ToInt32 z)) with (-1 - JS.ToInt32 z) by lia.
  replace (- z - 1) with (-1 - z) by lia.
  rewrite (Zminus_mod (-1) (JS.ToInt32 z)), (Zminus_mod (-1) z).
  change 256 with (2 ^ 8). rewrite ToInt32_mod_pow2 by lia. reflexivity.
Qed.

Lemma lxor_below_pow2 a b n :
  0 < n → 0 ≤ a < 2 ^ n → 0 ≤ b < 2 ^ n → 0 ≤ Z.lxor a b < 2 ^ n.
Proof.
  intros Hn Ha Hb.
  assert (Hnn : 0 ≤ Z.lxor a b) by (apply Z.lxor_nonneg; lia).
  split; [exact Hnn|].
  destruct (Z.eq_dec (Z.lxor a b) 0) as [->|Hne]; [apply Z.pow_pos_nonneg; lia|].
  apply Z.log2_lt_pow2; [lia|].
  eapply Z.le_lt_trans; [apply Z.log2_lxor; lia|].
  apply Z.max_lub_lt.
  - destruct (Z.eq_dec a 0) as [->|]; [simpl; lia|]. apply Z.log2_lt_pow2; lia.
  - destruct (Z.eq_dec b 0) as [->|]; [simpl; lia|]. apply Z.log2_lt_pow2; lia.
Qed.

Lemma bxor_small a b :
  0 ≤ a < 2 ^ 16 → 0 ≤ b < 2 ^ 16 →
  JS.bxor a b = Z.lxor a b ∧ 0 ≤ Z.lxor a b < 2 ^ 16.
Proof.
  intros Ha Hb. unfold JS.bxor. rewrite !ToInt32_small by lia.
  split; [reflexivity|]. apply lxor_below_pow2; lia.
Qed.

(** ** The checksum loop computes the CRC of the specification *)

Lemma crc16_spec_round_range reg :
  0 ≤ reg < 2 ^ 16 → 0 ≤ crc16_spec_round reg < 2 ^ 16.
Proof.
  intros Hr. unfold crc16_spec_round.
  assert (0 ≤ Z.shiftr reg 1 < 2 ^ 15).
  { rewrite Z.shiftr_div_pow2 by lia. change (2 ^ 1) with 2.
    split; [apply Z.div_pos; lia|]. apply Z.div_lt_upper_bound; lia. }
  destruct (Z.odd reg); [|lia].
  apply lxor_below_pow2; lia.
Qed.

Lemma crc_bit_spec crc : 0 ≤ crc < 2 ^ 16 → crc_bit crc = crc16_spec_round crc.
Proof.
  intros Hr. unfold crc_bit, crc16_spec_round, JS.band, JS.shr, JS.truthy.
  rewrite (ToInt32_small crc), (ToInt32_small 1) by lia.
  change (JS.ToUint32 1 mod 32) with 1.
  change 1 with (Z.ones 1) at 1. rewrite Z.land_ones by lia.
  change (2 ^ 1) with 2. rewrite Zmod_odd.
  assert (0 ≤ Z.shiftr crc 1 < 2 ^ 15).
  { rewrite Z.shiftr_div_pow2 by lia. change (2 ^ 1) with 2.
    split; [apply Z.div_pos; lia|]. apply Z.div_lt_upper_bound; lia. }
  destruct (Z.odd crc); simpl; [|reflexivity].
  apply bxor_small; lia.
Qed.

Lemma crc_rounds_spec n crc :
  0 ≤ crc < 2 ^ 16 →
  Nat.iter n crc_bit crc = Nat.iter n crc16_spec_round crc
  ∧ 0 ≤ Nat.iter n crc16_spec_round crc < 2 ^ 16.
Proof.
  intros Hr. induction n as [|n [IHeq IHr]]; simpl; [split; [reflexivity|lia]|].
  rewrite IHeq. split; [apply crc_bit_spec; exact IHr|].
  apply crc16_spec_round_range; exact IHr.
Qed.

Lemma crc_byte_spec crc b :
  0 ≤ crc < 2 ^ 16 →
  crc_byte crc (Some (byte.unsigned b))
  = Nat.iter 8 crc16_spec_round (Z.lxor crc (byte.unsigned b))
  ∧ 0 ≤ Nat.iter 8 crc16_spec_round (Z.lxor crc (byte.unsigned b)) < 2 ^ 16.
Proof.
  intros Hr. unfold crc_byte.
  pose proof (byte.unsigned_range b) as Hb.
  destruct (bxor_small crc (byte.unsigned b)) as [-> Hx]; [lia|lia|].
  apply crc_rounds_spec. exact Hx.
Qed.

Lemma crc16_spec_from_range bytes reg :
  0 ≤ reg < 2 ^ 16 → 0 ≤ crc16_spec_from reg bytes < 2 ^ 16.
Proof.
  revert reg. induction bytes as [|b bytes IH]; intros reg Hr; cbn [crc16_spec_from foldl].
  - exact Hr.
  - apply IH. apply (crc_byte_spec reg b Hr).
Qed.

Lemma crc16_spec_range bytes : 0 ≤ crc16_spec bytes < 2 ^ 16.
Proof. apply (crc16_spec_from_range bytes 0xFFFF). lia. Qed.

Lemma Buf_length_app (l1 l2 : Buffer) : Buf.length (l1 ++ l2) = Buf.length l1 + Buf.length l2.
Proof. unfold Buf.length. rewrite length_app. lia. Qed.

Lemma Buf_length_nonneg (l : Buffer) : 0 ≤ Buf.length l.
Proof. unfold Buf.length. lia. Qed.

Lemma Buf_get_middle (pre post : Buffer) b :
  Buf.get (pre ++ b :: post) (Buf.length pre) = Some (byte.unsigned b).
Proof.
  unfold Buf.get, Buf.length.
  destruct (Z.ltb_spec (Z.of_nat (length pre)) 0); [lia|].
  rewrite Nat2Z.id. rewrite list_lookup_middle by reflexivity. reflexivity.
Qed.

Lemma crc_loop_step (buf : Buffer) offset todo i crc :
  crc_loop buf offset (S todo) i crc
  = crc_loop buf offset todo (i + 1) (crc_byte crc (Buf.get buf (offset + i))).
Proof. reflexivity. Qed.

Lemma crc16_spec_from_cons reg b bytes :
  crc16_spec_from reg (b :: bytes)
  = crc16_spec_from (Nat.iter 8 crc16_spec_round (Z.lxor reg (byte.unsigned b))) bytes.
Proof. reflexivity. Qed.

Lemma crc_loop_spec (l pre post : Buffer) crc :
  0 ≤ crc < 2 ^ 16 →
  crc_loop (pre ++ l ++ post) 0 (length l) (Buf.length pre) crc = crc16_spec_from crc l.
Proof.
  revert pre crc. induction l as [|b l IH]; intros pre crc Hr; [reflexivity|].
  rewrite crc16_spec_from_cons.
  simpl length. rewrite crc_loop_step, Z.add_0_l.
  rewrite <- app_comm_cons, Buf_get_middle.
  destruct (crc_byte_spec crc b Hr) as [-> Hr'].
  rewrite <- (IH (pre ++ [b])) by exact Hr'.
  rewrite Buf_length_app, <- app_assoc. reflexivity.
Qed.

(** On a buffer that starts with [l], the checksum of its first [length l]
    bytes, as the code computes it, is the CRC of the specification. *)
Lemma crc16IBM_spec (l post : Buffer) : crc16IBM (l ++ post) 0 (Buf.length l) = crc16_spec l.
Proof.
  unfold crc16IBM. unfold Buf.length at 1. rewrite Nat2Z.id.
  pose proof (crc_loop_spec l [] post 0xffff) as H. cbn [app] in H.
  change (Buf.length []) with 0 in H. rewrite H by lia.
  rewrite band_0xffff. apply Z.mod_small. apply crc16_spec_range.
Qed.

(** ** Layout of the frame built by [buildFrame] *)

Lemma in_bounds_true (buf : Buffer) offset n :
  0 ≤ offset → offset + Z.of_nat n ≤ Buf.length buf → Buf.in_bounds buf offset n = true.
Proof.
  intros H1 H2. unfold Buf.in_bounds.
  apply andb_true_intro. split; apply Z.leb_le; lia.
Qed.

Lemma writeUInt16LE_ok (buf : Buffer) value offset :
  0 ≤ value ≤ 65535 → 0 ≤ offset → offset + 2 ≤ Buf.length buf →
  Buf.writeUInt16LE buf value offset
  = Ok (list_inserts (Z.to_nat offset) (le_split 2 value) buf).
Proof.
  intros Hv H1 H2. unfold Buf.writeUInt16LE.
  replace ((0 <=? value) && (value <=? 65535)) with true
    by (symmetry; apply andb_true_intro; split; apply Z.leb_le; lia).
  cbn [negb]. rewrite in_bounds_true by (cbn; lia). reflexivity.
Qed.

Lemma mod_65536_range z : 0 ≤ z mod 65536 ≤ 65535.
Proof. pose proof (Z.mod_pos_bound z 65536). lia. Qed.

Lemma bind_Ok {A B} (a : A) (f : A → result B) : (Ok a ≫= f) = f a.
Proof. reflexivity. Qed.

Lemma alloc_frame (data : Buffer) :
  Buf.alloc (1 + 1 + 2 + 2 + 2 + Buf.length data + (2 + 1 + 1))
  = replicate 8 Byte.x00 ++ replicate (length data) Byte.x00 ++ replicate 4 Byte.x00.
Proof.
  unfold Buf.alloc, Buf.length. rewrite <- !replicate_add. f_equal. lia.
Qed.

Lemma Buf_set_at (pre post : Buffer) x o v :
  o = Buf.length pre → Buf.set (pre ++ x :: post) o v = pre ++ byte.of_Z v :: post.
Proof.
  intros ->. unfold Buf.set, Buf.length.
  destruct (Z.ltb_spec (Z.of_nat (length pre)) 0); [lia|].
  rewrite Nat2Z.id. replace (length pre) with (length pre + 0)%nat by lia.
  rewrite insert_app_r. reflexivity.
Qed.

Lemma list_inserts_at {A} (pre old post k : list A) :
  length old = length k → list_inserts (length pre) k (pre ++ old ++ post) = pre ++ k ++ post.
Proof.
  intros Hlen. replace (length pre) with (length pre + 0)%nat by lia.
  rewrite list_inserts_app_r. f_equal. apply list_inserts_0_r. lia.
Qed.

Lemma writeUInt16LE_at (pre old post : Buffer) v o :
  o = Buf.length pre → length old = 2%nat → 0 ≤ v ≤ 65535 →
  Buf.writeUInt16LE (pre ++ old ++ post) v o = Ok (pre ++ le_split 2 v ++ post).
Proof.
  intros -> Hold Hv. rewrite writeUInt16LE_ok.
  - unfold Buf.length. rewrite Nat2Z.id. rewrite list_inserts_at; [reflexivity|].
    rewrite Hold. reflexivity.
  - exact Hv.
  - apply Buf_length_nonneg.
  - rewrite !Buf_length_app. pose proof (Buf_length_nonneg post).
    unfold Buf.length at 3. rewrite Hold. lia.
Qed.

Lemma copy_at (pre old post source : Buffer) o :
  o = Buf.length pre → length old = length source →
  Buf.copy source (pre ++ old ++ post) o = Ok (pre ++ source ++ post).
Proof.
  intros -> Hlen. unfold Buf.copy, Buf.length.
  destruct (Z.ltb_spec (Z.of_nat (length pre)) 0); [lia|].
  rewrite Nat2Z.id, list_inserts_at by exact Hlen. reflexivity.
Qed.

Lemma buildFrame_layout cmd cookie answerPort (data : Buffer) fz :
  buildFrame cmd cookie answerPort data fz
  = Ok (frame_header cmd cookie answerPort (Buf.length data) ++ data
        ++ frame_trailer cmd
             (if fz then 0
              else crc16_spec (frame_header cmd cookie answerPort (Buf.length data) ++ data))).
Proof.
  unfold buildFrame. cbv zeta.
  rewrite alloc_frame.
  set (rest := replicate (length data) Byte.x00 ++ replicate 4 Byte.x00).
  rewrite bnot_0xff, !band_0xff.
  rewrite (band_0xffff cookie), (band_0xffff (Buf.length data)), (band_0xffff answerPort).
  cbn [replicate app].
  rewrite (Buf_set_at [] _ _ 0 _ eq_refl : Buf.set (_ :: _) 0 _ = _ :: _).
  rewrite (Buf_set_at [_] _ _ (0 + 1) _ eq_refl : Buf.set (_ :: _ :: _) (0 + 1) _ = _ :: _ :: _).
  rewrite (writeUInt16LE_at [_; _] [_; _] _ _ _ eq_refl eq_refl (mod_65536_range _)
           : Buf.writeUInt16LE (_ :: _ :: _ :: _ :: _) _ (0 + 1 + 1)
             = Ok (_ :: _ :: _ :: _ :: _)).
  rewrite bind_Ok.
  rewrite (writeUInt16LE_at [_; _; _; _] [_; _] _ _ _ eq_refl eq_refl (mod_65536_range _)
           : Buf.writeUInt16LE (_ :: _ :: _ :: _ :: _ :: _ :: _) _ (0 + 1 + 1 + 2)
             = Ok (_ :: _ :: _ :: _ :: _ :: _ :: _)).
  rewrite bind_Ok.
  rewrite (writeUInt16LE_at [_; _; _; _; _; _] [_; _] _ _ _ eq_refl eq_refl
             (mod_65536_range _)
           : Buf.writeUInt16LE (_ :: _ :: _ :: _ :: _ :: _ :: _ :: _ :: _) _ (0 + 1 + 1 + 2 + 2)
             = Ok (_ :: _ :: _ :: _ :: _ :: _ :: _ :: _ :: _)).
  rewrite bind_Ok.
  change (byte.of_Z 2 :: ?t) with (frame_header cmd cookie answerPort (Buf.length data) ++ rest).
  set (hdr := frame_header cmd cookie answerPort (Buf.length data)).
  assert (Hlen : Buf.length (hdr ++ data) = 0 + 1 + 1 + 2 + 2 + 2 + Buf.length data).
  { rewrite Buf_length_app. reflexivity. }
  assert (Hcopy : (if 0 <? Buf.length data
                   then Buf.copy data (hdr ++ rest) (0 + 1 + 1 + 2 + 2 + 2)
                   else Ok (hdr ++ rest))
                  = Ok ((hdr ++ data) ++ [Byte.x00; Byte.x00] ++ [Byte.x00; Byte.x00])).
  { subst rest. rewrite <- (app_assoc hdr data). destruct (Z.ltb_spec 0 (Buf.length data)) as [Hpos|Hz].
    - apply copy_at; [reflexivity|]. apply length_replicate.
    - destruct data; [reflexivity|]. unfold Buf.length in Hz. cbn [length] in Hz. lia. }
  rewrite Hcopy, bind_Ok. clear Hcopy.
  replace (8 + Buf.length data) with (Buf.length (hdr ++ data)) by (rewrite Hlen; reflexivity).
  rewrite <- Hlen.
  rewrite crc16IBM_spec.
  set (crc := if negb fz then crc16_spec (hdr ++ data) else 0).
  assert (Hcrc : JS.band crc 65535 = if fz then 0 else crc16_spec (hdr ++ data)).
  { rewrite band_0xffff. subst crc. destruct fz; [reflexivity|].
    apply Z.mod_small. apply crc16_spec_range. }
  rewrite Hcrc. clear Hcrc crc.
  set (crc := if fz then 0 else crc16_spec (hdr ++ data)).
  assert (Hr : 0 ≤ crc ≤ 65535).
  { subst crc. destruct fz; [lia|]. pose proof (crc16_spec_range (hdr ++ data)). lia. }
  rewrite (writeUInt16LE_at (hdr ++ data) [Byte.x00; Byte.x00] [Byte.x00; Byte.x00] crc _
             eq_refl eq_refl Hr), bind_Ok.
  f_equal.
  rewrite (app_assoc (hdr ++ data)).
  rewrite (Buf_set_at ((hdr ++ data) ++ le_split 2 crc) [Byte.x00] Byte.x00).
  2:{ rewrite (Buf_length_app (hdr ++ data)). reflexivity. }
  rewrite (cons_middle _ ((hdr ++ data) ++ le_split 2 crc)), app_assoc.
  rewrite (Buf_set_at (((hdr ++ data) ++ le_split 2 crc) ++ _) [] Byte.x00).
  2:{ rewrite (Buf_length_app ((hdr ++ data) ++ _)), (Buf_length_app (hdr ++ data)).
      reflexivity. }
  unfold frame_trailer. rewrite <- !app_assoc. reflexivity.
Qed.

(** ** What [parseHeader] returns *)

Lemma readUInt16LE_ok (msg : Buffer) offset :
  0 ≤ offset → offset + 2 ≤ Buf.length msg →
  Buf.readUInt16LE msg offset = Ok (u16_at msg offset).
Proof.
  intros H1 H2. unfold Buf.readUInt16LE, Buf.readUIntLE.
  rewrite in_bounds_true by (cbn; lia). reflexivity.
Qed.

Lemma u16_at_range msg offset : 0 ≤ u16_at msg offset < 65536.
Proof.
  unfold u16_at. pose proof (le_combine_bound (take 2 (drop (Z.to_nat offset) msg))) as H.
  assert (Hl : (length (take 2 (drop (Z.to_nat offset) msg)) ≤ 2)%nat)
    by (rewrite length_take; lia).
  assert (2 ^ (8 * Z.of_nat (length (take 2 (drop (Z.to_nat offset) msg)))) ≤ 2 ^ 16)
    by (apply Z.pow_le_mono_r; lia).
  lia.
Qed.

Lemma parseHeader_short (msg : Buffer) :
  Buf.length msg < 12 → parseHeader msg = Throw (Err "UDP frame too short").
Proof.
  intros H. unfold parseHeader.
  destruct (Z.ltb_spec (Buf.length msg) 12); [reflexivity|lia].
Qed.

Lemma parseHeader_unfold (msg : Buffer) :
  12 ≤ Buf.length msg → parseHeader msg = parseHeader_long msg.
Proof.
  intros H. unfold parseHeader, parseHeader_long.
  destruct (Z.ltb_spec (Buf.length msg) 12); [lia|].
  rewrite !readUInt16LE_ok by lia. rewrite !bind_Ok.
  destruct (negb _); [reflexivity|].
  destruct (Z.ltb_spec (Buf.length msg) (8 + u16_at msg 4 + 4)); [reflexivity|].
  pose proof (u16_at_range msg 4).
  rewrite readUInt16LE_ok by lia. reflexivity.
Qed.

Lemma Buf_get_at (pre post : Buffer) b o :
  o = Buf.length pre → Buf.get (pre ++ b :: post) o = Some (byte.unsigned b).
Proof. intros ->. apply Buf_get_middle. Qed.

Lemma u16_at_app (pre post : Buffer) b0 b1 o :
  o = Buf.length pre → u16_at (pre ++ b0 :: b1 :: post) o = le_combine [b0; b1].
Proof.
  intros ->. unfold u16_at, Buf.length. rewrite Nat2Z.id, drop_app_length. reflexivity.
Qed.

Lemma subarray_at (pre mid post : Buffer) s e :
  s = Buf.length pre → e = Buf.length pre + Buf.length mid →
  Buf.subarray (pre ++ mid ++ post) s e = mid.
Proof.
  intros -> ->. unfold Buf.subarray, Buf.clamp.
  rewrite !Buf_length_app.
  pose proof (Buf_length_nonneg pre). pose proof (Buf_length_nonneg mid).
  pose proof (Buf_length_nonneg post).
  destruct (Z.ltb_spec (Buf.length pre) 0); [lia|].
  destruct (Z.ltb_spec (Buf.length pre + Buf.length mid) 0); [lia|].
  rewrite !Z.min_l by lia.
  replace (Buf.length pre + Buf.length mid - Buf.length pre) with (Buf.length mid) by lia.
  unfold Buf.length. rewrite !Nat2Z.id, drop_app_length, take_app_length. reflexivity.
Qed.

(** [parseHeader] on a message laid out as a frame, possibly followed by
    further bytes.  The last two fields come from the offsets the code
    reads: [notCmd] is the second checksum byte and [ETX] the byte after
    it. *)
Lemma parseHeader_frame (s c k0 k1 n0 n1 p0 p1 : byte) (data : Buffer)
    (c0 c1 t0 t1 : byte) (tail : Buffer) :
  le_combine [n0; n1] = Buf.length data →
  parseHeader ([s; c; k0; k1; n0; n1; p0; p1] ++ data ++ [c0; c1; t0; t1] ++ tail)
  = if byte.unsigned s =? 2
    then Ok (Header.mk (Some (byte.unsigned s)) (Some (byte.unsigned c))
                       (le_combine [k0; k1]) (Buf.length data) (le_combine [p0; p1])
                       data (le_combine [c0; c1])
                       (Some (byte.unsigned c1)) (Some (byte.unsigned t0)))
    else Throw (Err "Bad STX").
Proof.
  intros Hn.
  set (hdr := [s; c; k0; k1; n0; n1; p0; p1]).
  pose proof (Buf_length_nonneg data) as Hd. pose proof (Buf_length_nonneg tail) as Ht.
  assert (Hlen : Buf.length (hdr ++ data ++ [c0; c1; t0; t1] ++ tail)
                 = 8 + Buf.length data + 4 + Buf.length tail).
  { rewrite !Buf_length_app. change (Buf.length hdr) with 8.
    change (Buf.length [c0; c1; t0; t1]) with 4. lia. }
  rewrite parseHeader_unfold by lia. unfold parseHeader_long.
  assert (E4 : u16_at (hdr ++ data ++ [c0; c1; t0; t1] ++ tail) 4 = Buf.length data)
    by (rewrite <- Hn; reflexivity).
  rewrite E4.
  change (Buf.get (hdr ++ ?r) 0) with (Some (byte.unsigned s)).
  change (Buf.get (hdr ++ ?r) 1) with (Some (byte.unsigned c)).
  change (u16_at (hdr ++ ?r) 2) with (le_combine [k0; k1]).
  change (u16_at (hdr ++ ?r) 6) with (le_combine [p0; p1]).
  cbn [JS.strict_eq].
  destruct (byte.unsigned s =? 2); cbn [negb]; [|reflexivity].
  destruct (Z.ltb_spec (Buf.length (hdr ++ data ++ [c0; c1; t0; t1] ++ tail))
              (8 + Buf.length data + 4)); [lia|].
  rewrite (subarray_at hdr data _ 8 (8 + Buf.length data) eq_refl eq_refl).
  replace (hdr ++ data ++ [c0; c1; t0; t1] ++ tail)
    with ((hdr ++ data) ++ c0 :: c1 :: t0 :: t1 :: tail) at 1
    by (rewrite <- app_assoc; reflexivity).
  rewrite (u16_at_app (hdr ++ data)) by (rewrite Buf_length_app; reflexivity).
  replace (hdr ++ data ++ [c0; c1; t0; t1] ++ tail)
    with (((hdr ++ data) ++ [c0]) ++ c1 :: t0 :: t1 :: tail) at 1
    by (rewrite <- !app_assoc; reflexivity).
  rewrite (Buf_get_at ((hdr ++ data) ++ [c0])) by (rewrite !Buf_length_app; reflexivity).
  replace (hdr ++ data ++ [c0; c1; t0; t1] ++ tail)
    with (((hdr ++ data) ++ [c0; c1]) ++ t0 :: t1 :: tail)
    by (rewrite <- !app_assoc; reflexivity).
  rewrite (Buf_get_at ((hdr ++ data) ++ [c0; c1])) by (rewrite !Buf_length_app; reflexivity).
  reflexivity.
Qed.

Lemma le_combine_split_16 z : 0 ≤ z < 65536 → le_combine (le_split 2 (z mod 65536)) = z.
Proof.
  intros Hz. rewrite le_combine_split. change (2 ^ (Z.of_nat 2 * 8)) with 65536.
  rewrite Z.mod_mod by lia. apply Z.mod_small. exact Hz.
Qed.

Lemma le_combine_split_u16 z : 0 ≤ z < 65536 → le_combine (le_split 2 z) = z.
Proof.
  intros Hz. rewrite le_combine_split. change (2 ^ (Z.of_nat 2 * 8)) with 65536.
  apply Z.mod_small. exact Hz.
Qed.

Lemma unsigned_of_Z_small z : 0 ≤ z < 256 → byte.unsigned (byte.of_Z z) = z.
Proof.
  intros Hz. rewrite byte.unsigned_of_Z. unfold byte.wrap. change (2 ^ 8) with 256.
  apply Z.mod_small. exact Hz.
Qed.

(** The frame [buildFrame] returns, decoded again by [parseHeader]. *)
Lemma parseHeader_buildFrame cmd cookie answerPort (data : Buffer) crc :
  Buf.length data ≤ 65535 →
  parseHeader (frame_header cmd cookie answerPort (Buf.length data) ++ data
               ++ frame_trailer cmd crc)
  = Ok (Header.mk (Some 2) (Some (cmd mod 256)) (cookie mod 65536) (Buf.length data)
                  (answerPort mod 65536) data (crc mod 65536)
                  (Some ((crc / 256) mod 256)) (Some ((- cmd - 1) mod 256))).
Proof.
  intros Hd. pose proof (Buf_length_nonneg data) as Hd0.
  pose proof (parseHeader_frame
    (byte.of_Z 2) (byte.of_Z (cmd mod 256))
    (byte.of_Z (cookie mod 65536)) (byte.of_Z ((cookie mod 65536) ≫ 8))
    (byte.of_Z (Buf.length data mod 65536)) (byte.of_Z ((Buf.length data mod 65536) ≫ 8))
    (byte.of_Z (answerPort mod 65536)) (byte.of_Z ((answerPort mod 65536) ≫ 8))
    data
    (byte.of_Z crc) (byte.of_Z (crc ≫ 8))
    (byte.of_Z ((- cmd - 1) mod 256)) (byte.of_Z 3) []) as H.
  change (frame_header cmd cookie answerPort (Buf.length data) ++ data
            ++ frame_trailer cmd crc)
    with ([byte.of_Z 2; byte.of_Z (cmd mod 256);
           byte.of_Z (cookie mod 65536); byte.of_Z ((cookie mod 65536) ≫ 8);
           byte.of_Z (Buf.length data mod 65536);
           byte.of_Z ((Buf.length data mod 65536) ≫ 8);
           byte.of_Z (answerPort mod 65536); byte.of_Z ((answerPort mod 65536) ≫ 8)]
          ++ data
          ++ [byte.of_Z crc; byte.of_Z (crc ≫ 8); byte.of_Z ((- cmd - 1) mod 256);
              byte.of_Z 3] ++ []).
  rewrite H; clear H.
  - change (byte.unsigned (byte.of_Z 2) =? 2) with true. cbv iota.
    change (byte.unsigned (byte.of_Z 2)) with 2.
    change [byte.of_Z (cookie mod 65536); byte.of_Z ((cookie mod 65536) ≫ 8)]
      with (le_split 2 (cookie mod 65536)).
    change [byte.of_Z (answerPort mod 65536); byte.of_Z ((answerPort mod 65536) ≫ 8)]
      with (le_split 2 (answerPort mod 65536)).
    change [byte.of_Z crc; byte.of_Z (crc ≫ 8)] with (le_split 2 crc).
    rewrite !le_combine_split. change (2 ^ (Z.of_nat 2 * 8)) with 65536.
    rewrite !Z.mod_mod by lia.
    rewrite !byte.unsigned_of_Z. unfold byte.wrap. change (2 ^ 8) with 256.
    rewrite !Z.mod_mod by lia.
    rewrite Z.shiftr_div_pow2 by lia. reflexivity.
  - change [byte.of_Z (Buf.length data mod 65536);
            byte.of_Z ((Buf.length data mod 65536) ≫ 8)]
      with (le_split 2 (Buf.length data mod 65536)).
    apply le_combine_split_16. lia.
Qed.

Lemma u16_at_trailer (pre : Buffer) c crc o :
  o = Buf.length pre → 0 ≤ crc < 65536 → u16_at (pre ++ frame_trailer c crc) o = crc.
Proof.
  intros Ho Hcrc.
  change (frame_trailer c crc)
    with (byte.of_Z crc :: byte.of_Z (crc ≫ 8) :: [byte.of_Z ((- c - 1) mod 256); byte.of_Z 3]).
  rewrite u16_at_app by exact Ho.
  apply (le_combine_split_u16 crc Hcrc).
Qed.

(** ** C1: round trip through the frame codec *)

(** C1. For every command byte, 16-bit cookie, 16-bit reply port and
    payload of at most 65535 bytes, [buildFrame] succeeds and [parseHeader]
    on its result recovers the command, the cookie, the payload length,
    the reply port and the payload.  The checksum field of the frame (the
    two bytes after the payload, which [parseHeader] returns as [crc16])
    is 0 when the checksum is forced to zero, and otherwise the CRC of the
    specification (feedback [0xA001], initial register [0xFFFF], least
    significant bit first) of the bytes before it, which is also what
    [crc16IBM] computes on them. *)
Theorem buildFrame_parseHeader_roundtrip
    (c ck port : Z) (payload : Buffer) (forceZeroChecksum : bool) :
  0 ≤ c < 256 → 0 ≤ ck < 65536 → 0 ≤ port < 65536 → Buf.length payload ≤ 65535 →
  ∃ frame h,
    buildFrame c ck port payload forceZeroChecksum = Ok frame
    ∧ parseHeader frame = Ok h
    ∧ Header.cmd h = Some c
    ∧ Header.cookie h = ck
    ∧ Header.count h = Buf.length payload
    ∧ Header.answerPort h = port
    ∧ Header.data h = payload
    ∧ Header.crc16 h = u16_at frame (8 + Buf.length payload)
    ∧ u16_at frame (8 + Buf.length payload)
      = (if forceZeroChecksum then 0
         else crc16_spec (take (8 + length payload) frame))
    ∧ crc16IBM frame 0 (8 + Buf.length payload)
      = crc16_spec (take (8 + length payload) frame).
Proof.
  intros Hc Hck Hport Hlen.
  set (hdr := frame_header c ck port (Buf.length payload)).
  set (crc := if forceZeroChecksum then 0 else crc16_spec (hdr ++ payload)).
  assert (Hcrc : 0 ≤ crc < 65536).
  { subst crc. destruct forceZeroChecksum; [lia|]. apply crc16_spec_range. }
  assert (Htake : take (8 + length payload) (hdr ++ payload ++ frame_trailer c crc)
                  = hdr ++ payload).
  { rewrite app_assoc. apply take_app_length'. rewrite length_app. reflexivity. }
  assert (Hl8 : 8 + Buf.length payload = Buf.length (hdr ++ payload)).
  { rewrite Buf_length_app. reflexivity. }
  eexists. eexists. split; [apply buildFrame_layout|].
  fold hdr. fold crc.
  split; [apply parseHeader_buildFrame; exact Hlen|].
  cbn [Header.cmd Header.cookie Header.count Header.answerPort Header.data Header.crc16].
  rewrite !Z.mod_small by lia. rewrite Htake.
  repeat split.
  - rewrite Hl8, app_assoc. symmetry. apply u16_at_trailer; [reflexivity|exact Hcrc].
  - rewrite Hl8, app_assoc. rewrite u16_at_trailer by (reflexivity || exact Hcrc).
    subst crc. destruct forceZeroChecksum; reflexivity.
  - rewrite Hl8, app_assoc. apply crc16IBM_spec.
Qed.

Lemma buildFrame_parseHeader_roundtrip_witness :
  ∃ frame h,
    buildFrame 0x0e 0x1234 5000 (Buf.from [0; 0; 0; 0]) true = Ok frame
    ∧ parseHeader frame = Ok h
    ∧ Header.cmd h = Some 0x0e
    ∧ Header.cookie h = 0x1234
    ∧ Header.count h = 4
    ∧ Header.answerPort h = 5000
    ∧ Header.data h = Buf.from [0; 0; 0; 0]
    ∧ Header.crc16 h = u16_at frame 12
    ∧ u16_at frame 12 = 0
    ∧ crc16IBM frame 0 12 = crc16_spec (take 12 frame).
Proof.
  apply (buildFrame_parseHeader_roundtrip 0x0e 0x1234 5000 (Buf.from [0; 0; 0; 0]) true);
    [lia | lia | lia | vm_compute; discriminate].
Defined.

(** ** When [parseHeader] fails *)

(** [parseHeader] throws exactly on a message shorter than 12 bytes, on a
    first byte other than 0x02, and on a message too short for the payload
    length it declares plus the 4-byte trailer. *)
Lemma parseHeader_throws_iff (msg : Buffer) :
  (∃ e, parseHeader msg = Throw e)
  ↔ Buf.length msg < 12 ∨ Buf.get msg 0 ≠ Some 2 ∨ Buf.length msg < 8 + u16_at msg 4 + 4.
Proof.
  destruct (Z.lt_ge_cases (Buf.length msg) 12) as [Hs|Hl].
  { rewrite parseHeader_short by exact Hs. split; [intros _; left; exact Hs|eauto]. }
  rewrite parseHeader_unfold by lia. unfold parseHeader_long.
  destruct (Buf.get msg 0) as [s|] eqn:E0; cbn [JS.strict_eq negb].
  - destruct (Z.eqb_spec s 2) as [->|Hne]; cbn [negb].
    + destruct (Z.ltb_spec (Buf.length msg) (8 + u16_at msg 4 + 4)).
      * split; [intros _; right; right; assumption|eauto].
      * split; [intros [e He]; discriminate|].
        intros [?|[?|?]]; [lia|congruence|lia].
    + split; [intros _; right; left; congruence|eauto].
  - split; [intros _; right; left; congruence|eauto].
Qed.

(** Every error of [parseHeader] is a malformed-frame error; the buffer
    accessors never throw inside it. *)
Lemma parseHeader_throws_malformed (msg : Buffer) e :
  parseHeader msg = Throw e → MalformedFrame e.
Proof.
  destruct (Z.lt_ge_cases (Buf.length msg) 12) as [Hs|Hl].
  { rewrite parseHeader_short by exact Hs. intros [= <-]. left. reflexivity. }
  rewrite parseHeader_unfold by lia. unfold parseHeader_long.
  destruct (negb _); [intros [= <-]; right; left; reflexivity|].
  destruct (_ <? _); [intros [= <-]; right; right; reflexivity|discriminate].
Qed.

(** On every other message [parseHeader] succeeds; neither the checksum
    nor the end marker is looked at. *)
Lemma parseHeader_succeeds (msg : Buffer) :
  12 ≤ Buf.length msg → Buf.get msg 0 = Some 2 → 8 + u16_at msg 4 + 4 ≤ Buf.length msg →
  parseHeader msg
  = Ok (Header.mk (Some 2) (Buf.get msg 1) (u16_at msg 2) (u16_at msg 4) (u16_at msg 6)
                  (Buf.subarray msg 8 (8 + u16_at msg 4)) (u16_at msg (8 + u16_at msg 4))
                  (Buf.get msg (8 + u16_at msg 4 + 1)) (Buf.get msg (8 + u16_at msg 4 + 2))).
Proof.
  intros Hl Hs Hc. rewrite parseHeader_unfold by exact Hl. unfold parseHeader_long.
  rewrite Hs. cbn [JS.strict_eq Z.eqb Pos.eqb negb].
  destruct (Z.ltb_spec (Buf.length msg) (8 + u16_at msg 4 + 4)); [lia|reflexivity].
Qed.

(** ** C9: the trailer bytes [parseHeader] returns *)

(** C9. On the frame that [buildFrame] lays out for command 0x01, cookie
    0x1234, reply port 5000 and an empty payload, the inverted command
    0xFE sits at offset 10 and the end marker 0x03 at offset 11.
    [parseHeader] accepts the frame but returns as [notCmd] the byte at
    offset 9, the high byte 0xA8 of the checksum, and as [ETX] the byte at
    offset 10, the inverted command. *)
Theorem parseHeader_trailer_offsets :
  ∃ frame h,
    buildFrame 0x01 0x1234 5000 [] false = Ok frame
    ∧ parseHeader frame = Ok h
    ∧ Header.crc16 h = 0xa84a
    ∧ Buf.get frame 10 = Some 0xfe ∧ Buf.get frame 11 = Some 0x03
    ∧ Header.notCmd h = Some 0xa8 ∧ Header.ETX h = Some 0xfe.
Proof. eexists. eexists. vm_compute. repeat split. Qed.

(** ** The exchange settles on the first callback that has an effect *)

Lemma settle_settled r r' st :
  Pending.settled st = Some r → Pending.settled (Pending.settle r' st) = Some r.
Proof. intros H. unfold Pending.settle. rewrite H. exact H. Qed.

Lemma settle_unsettled r st :
  Pending.settled st = None → Pending.settled (Pending.settle r st) = Some r.
Proof. intros H. unfold Pending.settle. rewrite H. reflexivity. Qed.

Lemma step_settled cmd cookie st ev r :
  Pending.settled st = Some r → Pending.settled (step cmd cookie st ev) = Some r.
Proof.
  intros H. destruct ev as [msg| |[err|]]; cbn [step].
  - destruct (_ && _); [|exact H]. apply settle_settled. exact H.
  - destruct (Pending.timer_armed st); [|exact H]. apply settle_settled. exact H.
  - apply settle_settled. exact H.
  - exact H.
Qed.

Lemma run_settled cmd cookie evs st r :
  Pending.settled st = Some r → Pending.settled (foldl (step cmd cookie) st evs) = Some r.
Proof.
  revert st. induction evs as [|ev evs IH]; intros st H; cbn [foldl]; [exact H|].
  apply IH. apply step_settled. exact H.
Qed.

Lemma run_from_init cmd cookie evs :
  Pending.settled (foldl (step cmd cookie) Pending.init (evs ++ [TimerFired]))
  = Some (first_outcome cmd cookie evs).
Proof.
  induction evs as [|ev evs IH]; [reflexivity|].
  destruct ev as [msg| |[err|]]; cbn [app foldl first_outcome].
  - apply run_settled. reflexivity.
  - apply run_settled. reflexivity.
  - apply run_settled. reflexivity.
  - exact IH.
Qed.

(** The promise of an exchange always settles. *)
Lemma await_reply_settles cmd cookie evs :
  await_reply cmd cookie evs = Some (first_outcome cmd cookie evs).
Proof. apply run_from_init. Qed.

(** What [check_reply] accepts. *)
Lemma check_reply_Ok cmd cookie msg payload :
  check_reply cmd cookie msg = Ok payload
  ↔ ∃ h, parseHeader msg = Ok h
         ∧ JS.band (JS.bxor (JS.operand (Header.cmd h)) 0xff) 0xff = cmd
         ∧ Header.cookie h = cookie
         ∧ Header.data h = payload.
Proof.
  unfold check_reply. destruct (parseHeader msg) as [h|e]; cbn [mbind result_bind].
  - destruct (Z.eqb_spec (JS.band (JS.bxor (JS.operand (Header.cmd h)) 255) 255) cmd)
      as [Hc|Hc]; cbn [negb].
    + destruct (Z.eqb_spec (Header.cookie h) cookie) as [Hk|Hk]; cbn [negb].
      * split; [intros [= <-]; eauto|]. intros (h' & [= <-] & _ & _ & <-). reflexivity.
      * split; [discriminate|]. intros (h' & [= <-] & _ & ? & _). contradiction.
    + split; [discriminate|]. intros (h' & [= <-] & ? & _ & _). contradiction.
  - split; [discriminate|]. intros (h' & ? & _). discriminate.
Qed.

Lemma check_reply_cmd_mismatch cmd cookie msg h :
  parseHeader msg = Ok h →
  JS.band (JS.bxor (JS.operand (Header.cmd h)) 0xff) 0xff ≠ cmd →
  check_reply cmd cookie msg = Throw (Err "Unexpected cmd in response").
Proof.
  intros Hp Hc. unfold check_reply. rewrite Hp. cbn [mbind result_bind].
  destruct (Z.eqb_spec (JS.band (JS.bxor (JS.operand (Header.cmd h)) 255) 255) cmd);
    [contradiction|reflexivity].
Qed.

Lemma check_reply_cookie_mismatch cmd cookie msg h :
  parseHeader msg = Ok h →
  JS.band (JS.bxor (JS.operand (Header.cmd h)) 0xff) 0xff = cmd →
  Header.cookie h ≠ cookie →
  check_reply cmd cookie msg = Throw (Err "Cookie mismatch").
Proof.
  intros Hp Hc Hk. unfold check_reply. rewrite Hp. cbn [mbind result_bind].
  destruct (Z.eqb_spec (JS.band (JS.bxor (JS.operand (Header.cmd h)) 255) 255) cmd);
    [|contradiction]. cbn [negb].
  destruct (Z.eqb_spec (Header.cookie h) cookie); [contradiction|reflexivity].
Qed.

Lemma first_outcome_Ok cmd cookie evs payload :
  first_outcome cmd cookie evs = Ok payload →
  ∃ msg, Message msg ∈ evs ∧ check_reply cmd cookie msg = Ok payload.
Proof.
  induction evs as [|ev evs IH]; cbn [first_outcome]; [discriminate|].
  destruct ev as [msg| |[err|]]; try discriminate.
  - intros H. exists msg. split; [left|exact H].
  - intros H. destruct (IH H) as (msg & Hin & Hm). exists msg. split; [right; exact Hin|exact Hm].
Qed.

(** ** C2: replies that do not correlate *)

(** C2, as stated, fails.  A standby request with cookie 7 receives a
    well-formed reply with the right command and cookie 8, then the
    matching reply, both before the deadline.  The first reply is not
    ignored: the exchange fails with "Cookie mismatch" (not with a
    timeout), although the matching reply alone would have resolved it. *)
Lemma mismatched_reply_is_not_ignored :
  (∃ h, parseHeader stale_reply = Ok h
        ∧ JS.band (JS.bxor (JS.operand (Header.cmd h)) 0xff) 0xff = CMD.STANDBY
        ∧ Header.cookie h ≠ 7)
  ∧ await_reply CMD.STANDBY 7 [Message matching_reply] = Some (Ok (Buf.from [1; 2; 0; 0]))
  ∧ await_reply CMD.STANDBY 7 [Message stale_reply; Message matching_reply]
    = Some (Throw (Err "Cookie mismatch"))
  ∧ await_reply CMD.STANDBY 7 [Message stale_reply; Message matching_reply]
    ≠ await_reply CMD.STANDBY 7 [Message matching_reply]
  ∧ Err "Cookie mismatch" ≠ Timeout.
Proof.
  split.
  { eexists. split; [vm_compute; reflexivity|]. vm_compute. split; [reflexivity|discriminate]. }
  vm_compute. repeat split; discriminate.
Qed.

(** C2, amended.  The first datagram received settles the exchange,
    whatever arrives after it: with the payload when it decodes and both
    its inverted command byte and its cookie match the request, with
    "Unexpected cmd in response" or "Cookie mismatch" when it decodes and
    one of them differs, and with the decoding error otherwise.  The
    exchange resolves with a payload only in the first case; when nothing
    arrives before the deadline it fails with the timeout error. *)
Theorem first_reply_settles_exchange
    (c ck : Z) (pre : list Event) (msg : Buffer) (rest : list Event) :
  Forall (λ ev, ev = SendCallback None) pre →
  (∀ h, parseHeader msg = Ok h →
     await_reply c ck (pre ++ Message msg :: rest)
     = Some (if negb (JS.band (JS.bxor (JS.operand (Header.cmd h)) 0xff) 0xff =? c)
             then Throw (Err "Unexpected cmd in response")
             else if negb (Header.cookie h =? ck) then Throw (Err "Cookie mismatch")
             else Ok (Header.data h)))
  ∧ (∀ e, parseHeader msg = Throw e →
       await_reply c ck (pre ++ Message msg :: rest) = Some (Throw e))
  ∧ (∀ payload, await_reply c ck (pre ++ Message msg :: rest) = Some (Ok payload) →
       ∃ h, parseHeader msg = Ok h
            ∧ JS.band (JS.bxor (JS.operand (Header.cmd h)) 0xff) 0xff = c
            ∧ Header.cookie h = ck
            ∧ Header.data h = payload)
  ∧ await_reply c ck pre = Some (Throw Timeout).
Proof.
  intros Hpre.
  assert (Hskip : ∀ evs, first_outcome c ck (pre ++ evs) = first_outcome c ck evs).
  { intros evs. induction Hpre as [|ev pre -> _ IH]; [reflexivity|exact IH]. }
  assert (Hrun : await_reply c ck (pre ++ Message msg :: rest) = Some (check_reply c ck msg)).
  { rewrite await_reply_settles, Hskip. reflexivity. }
  split; [|split; [|split]].
  - intros h Hh. rewrite Hrun. unfold check_reply. rewrite Hh. reflexivity.
  - intros e He. rewrite Hrun. unfold check_reply. rewrite He. reflexivity.
  - intros payload. rewrite Hrun. intros [= H]. apply check_reply_Ok. exact H.
  - rewrite await_reply_settles. rewrite <- (app_nil_r pre), Hskip. reflexivity.
Qed.

Lemma first_reply_settles_exchange_witness :
  (∀ h, parseHeader stale_reply = Ok h →
     await_reply CMD.STANDBY 7 ([SendCallback None] ++ Message stale_reply :: [Message matching_reply])
     = Some (if negb (JS.band (JS.bxor (JS.operand (Header.cmd h)) 0xff) 0xff =? CMD.STANDBY)
             then Throw (Err "Unexpected cmd in response")
             else if negb (Header.cookie h =? 7) then Throw (Err "Cookie mismatch")
             else Ok (Header.data h)))
  ∧ (∀ e, parseHeader stale_reply = Throw e →
       await_reply CMD.STANDBY 7 ([SendCallback None] ++ Message stale_reply :: [Message matching_reply])
       = Some (Throw e))
  ∧ (∀ payload,
       await_reply CMD.STANDBY 7 ([SendCallback None] ++ Message stale_reply :: [Message matching_reply])
       = Some (Ok payload) →
       ∃ h, parseHeader stale_reply = Ok h
            ∧ JS.band (JS.bxor (JS.operand (Header.cmd h)) 0xff) 0xff = CMD.STANDBY
            ∧ Header.cookie h = 7
            ∧ Header.data h = payload)
  ∧ await_reply CMD.STANDBY 7 [SendCallback None] = Some (Throw Timeout).
Proof.
  apply (first_reply_settles_exchange CMD.STANDBY 7 [SendCallback None] stale_reply
           [Message matching_reply]).
  repeat constructor.
Defined.

(** ** What [udpRequest] sends and returns *)

Lemma Ok_inj {A} (a b : A) : Ok a = Ok b → a = b.
Proof. congruence. Qed.

Lemma udpRequest_settles opts c (payload : Buffer) fz x :
  ∃ r, snd (udpRequest opts c payload fz x) = Some r.
Proof.
  unfold udpRequest. destruct (bind_result x) as [port|e]; [|eauto].
  destruct (buildFrame _ _ _ _ _); [|eauto].
  destruct (socket_send _) as [[]|e]; cbn [snd].
  - rewrite await_reply_settles. eauto.
  - exists (Throw e). apply run_settled. reflexivity.
Qed.

Lemma udpRequest_sent opts c (payload : Buffer) fz x dg :
  dg ∈ fst (udpRequest opts c payload fz x) →
  ∃ port,
    bind_result x = Ok port
    ∧ buildFrame c (random_cookie x) (if default false (answerPortZero opts) then 0 else port)
        payload (fz || (c =? CMD.STANDBY))
      = Ok (dg_frame dg).
Proof.
  unfold udpRequest. destruct (bind_result x) as [port|e]; cbn [fst].
  - destruct (buildFrame _ _ _ _ _) as [frame|e] eqn:E; cbn [fst].
    + destruct (socket_send _) as [[]|e]; cbn [fst].
      * intros ->%list_elem_of_singleton. exists port. split; [reflexivity|exact E].
      * intros H. inversion H.
    + intros H. inversion H.
  - intros H. inversion H.
Qed.

Lemma udpRequest_sends opts c (payload : Buffer) fz x port :
  bind_result x = Ok port → valid_port (default 1234 (devicePort opts)) = true →
  ∃ dg, fst (udpRequest opts c payload fz x) = [dg].
Proof.
  intros Hb Hp. unfold udpRequest, socket_send. rewrite Hb, buildFrame_layout, Hp.
  cbn [fst]. eauto.
Qed.

(** [readUdpStatus] resolved: the three requests are made one after the
    other, each [try] block runs on the outcome of its request. *)
Lemma readUdpStatus_unfold opts maxChannels net :
  ∃ r1 r2 r3,
    standby_reply opts net = Some r1
    ∧ readgm_reply opts net = Some r2
    ∧ alarms_reply opts net = Some r3
    ∧ readUdpStatus opts maxChannels net
      = (fst (udpRequest opts CMD.STANDBY (Buf.from [0; 0; 0; 0]) true (standby_exchange net))
         ++ fst (udpRequest opts CMD.READGM (Buf.alloc 0) false (readgm_exchange net))
         ++ fst (udpRequest opts CMD.READALLALARMS2 (Buf.alloc 0) false (alarms_exchange net)),
         Some (after r3 (alarms_block maxChannels)
                 (after r2 (readgm_block maxChannels)
                    (after r1 standby_block (fresh maxChannels))))).
Proof.
  unfold standby_reply, readgm_reply, alarms_reply, readUdpStatus.
  destruct (udpRequest_settles opts CMD.STANDBY (Buf.from [0; 0; 0; 0]) true
              (standby_exchange net)) as [r1 H1].
  destruct (udpRequest_settles opts CMD.READGM (Buf.alloc 0) false
              (readgm_exchange net)) as [r2 H2].
  destruct (udpRequest_settles opts CMD.READALLALARMS2 (Buf.alloc 0) false
              (alarms_exchange net)) as [r3 H3].
  exists r1, r2, r3.
  destruct (udpRequest opts CMD.STANDBY _ true _) as [sent1 reply1].
  destruct (udpRequest opts CMD.READGM _ false _) as [sent2 reply2].
  destruct (udpRequest opts CMD.READALLALARMS2 _ false _) as [sent3 reply3].
  cbn [fst snd] in *. subst reply1 reply2 reply3.
  repeat split.
Qed.

(** ** C8: the checksum of the frames that are sent *)

(** C8. Any frame [udpRequest] sends for the standby-read command has a
    zero checksum field, whatever the payload and the flag passed; of the
    frames one poll sends, the standby frame has a zero checksum field and
    the gain/mute and alarm frames carry in theirs the checksum that
    [crc16IBM] computes over the bytes before it, the CRC of the
    specification. *)
Theorem standby_frame_checksum_zero
    (opts : UdpOptions) (maxChannels : Z) (net : Network)
    (payload : Buffer) (fz : bool) (x : Exchange) (dg dg' : Datagram) :
  dg ∈ fst (udpRequest opts CMD.STANDBY payload fz x) →
  dg' ∈ fst (readUdpStatus opts maxChannels net) →
  (Buf.get (dg_frame dg) 1 = Some CMD.STANDBY
   ∧ u16_at (dg_frame dg) (8 + Buf.length payload) = 0)
  ∧ ((Buf.get (dg_frame dg') 1 = Some CMD.STANDBY ∧ u16_at (dg_frame dg') 12 = 0)
     ∨ ((Buf.get (dg_frame dg') 1 = Some CMD.READGM
         ∨ Buf.get (dg_frame dg') 1 = Some CMD.READALLALARMS2)
        ∧ u16_at (dg_frame dg') 8 = crc16IBM (dg_frame dg') 0 8
        ∧ crc16IBM (dg_frame dg') 0 8 = crc16_spec (take 8 (dg_frame dg')))).
Proof.
  assert (Hstandby : ∀ (p : Buffer) f y (d : Datagram),
     d ∈ fst (udpRequest opts CMD.STANDBY p f y) →
     Buf.get (dg_frame d) 1 = Some CMD.STANDBY
     ∧ u16_at (dg_frame d) (8 + Buf.length p) = 0).
  { intros p f y d (port & _ & Hf)%udpRequest_sent.
    rewrite buildFrame_layout in Hf. apply Ok_inj in Hf. rewrite <- Hf. clear Hf.
    change (CMD.STANDBY =? CMD.STANDBY) with true. rewrite orb_true_r.
    split; [reflexivity|].
    rewrite app_assoc. apply u16_at_trailer; [|lia].
    rewrite Buf_length_app. reflexivity. }
  assert (Hcrc : ∀ c y (d : Datagram), 0 ≤ c < 256 → (c =? CMD.STANDBY) = false →
     d ∈ fst (udpRequest opts c (Buf.alloc 0) false y) →
     Buf.get (dg_frame d) 1 = Some c
     ∧ u16_at (dg_frame d) 8 = crc16IBM (dg_frame d) 0 8
     ∧ crc16IBM (dg_frame d) 0 8 = crc16_spec (take 8 (dg_frame d))).
  { intros c y d Hc Hne (port & _ & Hf)%udpRequest_sent.
    rewrite buildFrame_layout in Hf. apply Ok_inj in Hf. rewrite <- Hf. clear Hf.
    rewrite Hne. cbn [orb]. change (Buf.alloc 0) with (@nil byte).
    change (Buf.length []) with 0. rewrite !app_nil_l, app_nil_r.
    set (hdr := frame_header c _ _ 0).
    assert (Hx : crc16IBM (hdr ++ frame_trailer c (crc16_spec hdr)) 0 8 = crc16_spec hdr)
      by (apply (crc16IBM_spec hdr)).
    split; [|split].
    - change (Buf.get (hdr ++ _) 1) with (Some (byte.unsigned (byte.of_Z (c mod 256)))).
      rewrite Z.mod_small by lia. rewrite unsigned_of_Z_small by lia. reflexivity.
    - rewrite Hx. apply u16_at_trailer; [reflexivity|apply crc16_spec_range].
    - rewrite Hx. reflexivity. }
  intros Hdg Hin. split; [exact (Hstandby _ _ _ _ Hdg)|].
  destruct (readUdpStatus_unfold opts maxChannels net) as (r1 & r2 & r3 & _ & _ & _ & Hu).
  rewrite Hu in Hin. cbn [fst] in Hin. rewrite !elem_of_app in Hin. destruct Hin as [Hin|[Hin|Hin]].
  - left. apply (Hstandby _ _ _ _ Hin).
  - right. destruct (Hcrc CMD.READGM _ dg' ltac:(cbv; split; congruence) eq_refl Hin)
      as (? & ? & ?). auto.
  - right. destruct (Hcrc CMD.READALLALARMS2 _ dg' ltac:(cbv; split; congruence) eq_refl Hin)
      as (? & ? & ?). auto.
Qed.

(** ** Little-endian values as sums *)

Lemma lor_shiftl_add a b n :
  0 ≤ n → 0 ≤ a < 2 ^ n → Z.lor a (Z.shiftl b n) = a + b * 2 ^ n.
Proof.
  intros Hn Ha. rewrite Z.shiftl_mul_pow2 by exact Hn.
  rewrite <- Z.lxor_lor, <- Z.add_nocarry_lxor; [reflexivity| |];
    (apply Z.bits_inj'; intros k Hk; rewrite Z.land_spec, Z.bits_0;
     destruct (Z.lt_ge_cases k n);
     [rewrite Z.mul_pow2_bits_low by lia; apply andb_false_r
     |rewrite <- (Z.mod_small a (2 ^ n)) by lia;
      rewrite Z.mod_pow2_bits_high by lia; reflexivity]).
Qed.

Lemma le_combine_cons b (l : Buffer) :
  le_combine (b :: l) = byte.unsigned b + 256 * le_combine l.
Proof.
  change (le_combine (b :: l)) with (Z.lor (byte.unsigned b) (Z.shiftl (le_combine l) 8)).
  pose proof (byte.unsigned_range b).
  rewrite lor_shiftl_add by lia. change (2 ^ 8) with 256. lia.
Qed.

Lemma le_combine_2 b0 b1 :
  le_combine [b0; b1] = byte.unsigned b0 + 256 * byte.unsigned b1.
Proof. rewrite !le_combine_cons, le_combine_nil. lia. Qed.

Lemma le_combine_4 b0 b1 b2 b3 : le_combine [b0; b1; b2; b3] = uint32_le b0 b1 b2 b3.
Proof. rewrite !le_combine_cons, le_combine_nil. unfold uint32_le. lia. Qed.

Lemma readInt16LE_at (pre post : Buffer) b0 b1 o :
  o = Buf.length pre →
  Buf.readInt16LE (pre ++ b0 :: b1 :: post) o = Ok (sint16_le b0 b1).
Proof.
  intros Ho. unfold Buf.readInt16LE.
  pose proof (Buf_length_nonneg pre). pose proof (Buf_length_nonneg post).
  rewrite readUInt16LE_ok.
  - rewrite bind_Ok, u16_at_app by exact Ho. rewrite le_combine_2. reflexivity.
  - lia.
  - rewrite Buf_length_app. unfold Buf.length at 2. cbn [length]. lia.
Qed.

Lemma readUInt32LE_at (pre post : Buffer) b0 b1 b2 b3 o :
  o = Buf.length pre →
  Buf.readUInt32LE (pre ++ b0 :: b1 :: b2 :: b3 :: post) o = Ok (uint32_le b0 b1 b2 b3).
Proof.
  intros ->. unfold Buf.readUInt32LE, Buf.readUIntLE.
  pose proof (Buf_length_nonneg pre).
  rewrite in_bounds_true.
  - unfold Buf.length. rewrite Nat2Z.id, drop_app_length. cbn [take].
    rewrite le_combine_4. reflexivity.
  - lia.
  - rewrite Buf_length_app. unfold Buf.length at 3. cbn [length]. lia.
Qed.

Lemma array_set_push {A} (acc : list A) (x : A) :
  JS.array_set (Some <$> acc) (Z.of_nat (length acc)) x = Some <$> (acc ++ [x]).
Proof.
  unfold JS.array_set. destruct (Z.ltb_spec (Z.of_nat (length acc)) 0); [lia|].
  rewrite Nat2Z.id, length_fmap.
  destruct (Nat.ltb_spec (length acc) (length acc)); [lia|].
  rewrite Nat.sub_diag, fmap_app. reflexivity.
Qed.

(** ** C6: the gain/mute table decoder *)

Lemma readgm_loop_short (data : Buffer) todo i p channels :
  Buf.length data < p + 6 → readgm_loop data todo i p channels = Ok channels.
Proof.
  intros H. destruct todo; [reflexivity|]. cbn [readgm_loop].
  destruct (Z.gtb_spec (p + 6) (Buf.length data)); [reflexivity|lia].
Qed.

Lemma Buf_get_in (data pre post : Buffer) b o :
  data = pre ++ b :: post → o = Buf.length pre → Buf.get data o = Some (byte.unsigned b).
Proof. intros -> ->. apply Buf_get_middle. Qed.

Lemma readInt16LE_in (data pre post : Buffer) b0 b1 o :
  data = pre ++ b0 :: b1 :: post → o = Buf.length pre →
  Buf.readInt16LE data o = Ok (sint16_le b0 b1).
Proof. intros -> Ho. apply readInt16LE_at. exact Ho. Qed.

Lemma readUInt32LE_in (data pre post : Buffer) b0 b1 b2 b3 o :
  data = pre ++ b0 :: b1 :: b2 :: b3 :: post → o = Buf.length pre →
  Buf.readUInt32LE data o = Ok (uint32_le b0 b1 b2 b3).
Proof. intros -> Ho. apply readUInt32LE_at. exact Ho. Qed.

Lemma readgm_loop_step (pre rest : Buffer) g0 g1 h0 h1 im om todo i p channels :
  p = Buf.length pre →
  readgm_loop (pre ++ g0 :: g1 :: h0 :: h1 :: im :: om :: rest) (S todo) i p channels
  = readgm_loop (pre ++ g0 :: g1 :: h0 :: h1 :: im :: om :: rest) todo (i + 1)
      (p + 2 + 2 + 1 + 1)
      (JS.array_set channels i
         (Gm.mkChannel (Some (div100 (sint16_le g0 g1))) (Some (div100 (sint16_le h0 h1)))
                       (Some (byte.unsigned im =? 1)) (Some (byte.unsigned om =? 1)))).
Proof.
  intros Hp. cbn [readgm_loop].
  set (data := pre ++ g0 :: g1 :: h0 :: h1 :: im :: om :: rest).
  assert (Hlen : Buf.length data = p + 6 + Buf.length rest).
  { subst data p. rewrite Buf_length_app. unfold Buf.length at 2. cbn [length].
    unfold Buf.length. lia. }
  pose proof (Buf_length_nonneg rest).
  destruct (Z.gtb_spec (p + 6) (Buf.length data)); [lia|].
  rewrite (readInt16LE_in data pre _ g0 g1 p eq_refl Hp), bind_Ok.
  rewrite (readInt16LE_in data (pre ++ [g0; g1]) (im :: om :: rest) h0 h1 (p + 2)), bind_Ok.
  2:{ subst data. rewrite <- app_assoc. reflexivity. }
  2:{ rewrite Buf_length_app, Hp. unfold Buf.length. cbn [length]. lia. }
  rewrite (Buf_get_in data (pre ++ [g0; g1; h0; h1]) (om :: rest) im (p + 2 + 2)).
  2:{ subst data. rewrite <- app_assoc. reflexivity. }
  2:{ rewrite Buf_length_app, Hp. unfold Buf.length. cbn [length]. lia. }
  rewrite (Buf_get_in data (pre ++ [g0; g1; h0; h1; im]) rest om (p + 2 + 2 + 1)).
  2:{ subst data. rewrite <- app_assoc. reflexivity. }
  2:{ rewrite Buf_length_app, Hp. unfold Buf.length. cbn [length]. lia. }
  reflexivity.
Qed.

Lemma readgm_loop_spec todo (pre rest : Buffer) (acc : list Gm.channel) :
  readgm_loop (pre ++ rest) todo (Z.of_nat (length acc)) (Buf.length pre) (Some <$> acc)
  = Ok (Some <$> (acc ++ gm_table_spec todo rest)).
Proof.
  revert pre rest acc. induction todo as [|todo IH]; intros pre rest acc.
  { cbn [readgm_loop gm_table_spec]. rewrite app_nil_r. reflexivity. }
  destruct rest as [|g0 [|g1 [|h0 [|h1 [|im [|om rest]]]]]];
    try (rewrite readgm_loop_short
           by (rewrite Buf_length_app; unfold Buf.length at 2; cbn [length]; lia);
         cbn [gm_table_spec]; rewrite app_nil_r; reflexivity).
  rewrite (readgm_loop_step pre rest) by reflexivity.
  rewrite array_set_push. cbn [gm_table_spec].
  set (ch := Gm.mkChannel _ _ _ _).
  replace (pre ++ g0 :: g1 :: h0 :: h1 :: im :: om :: rest)
    with ((pre ++ [g0; g1; h0; h1; im; om]) ++ rest)
    by (rewrite <- app_assoc; reflexivity).
  replace (Z.of_nat (length acc) + 1) with (Z.of_nat (length (acc ++ [ch])))
    by (rewrite length_app; cbn [length]; lia).
  replace (Buf.length pre + 2 + 2 + 1 + 1) with (Buf.length (pre ++ [g0; g1; h0; h1; im; om]))
    by (rewrite Buf_length_app; unfold Buf.length; cbn [length]; lia).
  rewrite IH, <- app_assoc. reflexivity.
Qed.

Lemma gm_table_spec_length budget (bytes : Buffer) :
  length (gm_table_spec budget bytes) = Nat.min budget (length bytes / 6).
Proof.
  revert bytes. induction budget as [|budget IH]; intros bytes; [reflexivity|].
  destruct bytes as [|g0 [|g1 [|h0 [|h1 [|im [|om rest]]]]]]; try reflexivity.
  cbn [gm_table_spec length]. rewrite IH.
  replace (S (S (S (S (S (S (length rest))))))) with (1 * 6 + length rest)%nat by lia.
  rewrite Nat.div_add_l by lia. reflexivity.
Qed.

(** [parseReadgmData] on a payload of at least 2 bytes. *)
Lemma parseReadgmData_cons (b0 b1 : byte) (rest : Buffer) (maxChannels : Z) :
  parseReadgmData (b0 :: b1 :: rest) maxChannels
  = Ok (Gm.mk (byte.unsigned b0 =? 1)
          (Some <$> gm_table_spec (Z.to_nat (Z.min (byte.unsigned b1) maxChannels)) rest)).
Proof.
  unfold parseReadgmData.
  assert (Hlen : Buf.length (b0 :: b1 :: rest) = 2 + Buf.length rest)
    by (unfold Buf.length; cbn [length]; lia).
  pose proof (Buf_length_nonneg rest).
  destruct (Z.ltb_spec (Buf.length (b0 :: b1 :: rest)) 2); [lia|].
  change (Buf.get (b0 :: b1 :: rest) 0) with (Some (byte.unsigned b0)).
  change (Buf.get (b0 :: b1 :: rest) 1) with (Some (byte.unsigned b1)).
  cbn [Gm.channels Gm.ok JS.strict_eq]. unfold JS.Math_min.
  set (budget := Z.to_nat (Z.min (byte.unsigned b1) maxChannels)).
  pose proof (readgm_loop_spec budget [b0; b1] rest []) as Hloop.
  cbn [app length fmap list_fmap] in Hloop. change (Z.of_nat 0) with 0 in Hloop.
  change (Buf.length [b0; b1]) with 2 in Hloop.
  rewrite Hloop. reflexivity.
Qed.

(** C6. On a payload of at least 2 bytes, [parseReadgmData] never throws:
    its flag is "byte 0 equals 1" and its channels are the gain/mute
    table of the specification read from byte 2 on, with a budget of the
    channel count in byte 1 capped at the configured maximum.  Each record
    is, in order, the input gain and the output gain (signed 16-bit little
    endian, divided by 100), the input mute and the output mute (byte
    equal to 1).  Only complete records are returned: their number is the
    budget or the number of whole 6-byte records present, whichever is
    smaller. *)
Theorem parseReadgmData_table (b0 b1 : byte) (rest : Buffer) (maxChannels : Z) :
  let budget := Z.to_nat (Z.min (byte.unsigned b1) maxChannels) in
  parseReadgmData (b0 :: b1 :: rest) maxChannels
  = Ok (Gm.mk (byte.unsigned b0 =? 1) (Some <$> gm_table_spec budget rest))
  ∧ length (gm_table_spec budget rest) = Nat.min budget (length rest / 6).
Proof.
  intros budget. split; [apply parseReadgmData_cons|apply gm_table_spec_length].
Qed.

Lemma parseReadgmData_short (data : Buffer) (maxChannels : Z) :
  Buf.length data < 2 → parseReadgmData data maxChannels = Ok (Gm.mk false []).
Proof.
  intros H. unfold parseReadgmData.
  destruct (Z.ltb_spec (Buf.length data) 2); [reflexivity|lia].
Qed.

Example parseReadgmData_truncated :
  parseReadgmData (Buf.from [1; 4; 0x9c; 0xff; 0x64; 0; 1; 0; 0x10; 0x27; 0; 0]) 8
  = Ok (Gm.mk true [Some (Gm.mkChannel (Some (Qmake (-100) 100)) (Some (Qmake 100 100))
                                       (Some true) (Some false))]).
Proof. reflexivity. Qed.

(** ** C7: the alarm decoder *)

Lemma alarms_loop_short (data : Buffer) todo i p words :
  Buf.length data < p + 4 → alarms_loop data todo i p words = Ok words.
Proof.
  intros H. destruct todo; [reflexivity|]. cbn [alarms_loop].
  destruct (Z.leb_spec (p + 4) (Buf.length data)); [lia|reflexivity].
Qed.

Lemma alarms_loop_step (pre rest : Buffer) b0 b1 b2 b3 todo i p words :
  p = Buf.length pre →
  alarms_loop (pre ++ b0 :: b1 :: b2 :: b3 :: rest) (S todo) i p words
  = alarms_loop (pre ++ b0 :: b1 :: b2 :: b3 :: rest) todo (i + 1) (p + 4)
      (JS.array_set words i (uint32_le b0 b1 b2 b3)).
Proof.
  intros Hp. cbn [alarms_loop].
  pose proof (Buf_length_nonneg rest).
  assert (Hlen : Buf.length (pre ++ b0 :: b1 :: b2 :: b3 :: rest) = p + 4 + Buf.length rest).
  { rewrite Buf_length_app, Hp. unfold Buf.length. cbn [length]. lia. }
  destruct (Z.leb_spec (p + 4) (Buf.length (pre ++ b0 :: b1 :: b2 :: b3 :: rest))); [|lia].
  cbn [negb]. rewrite (readUInt32LE_at pre rest b0 b1 b2 b3 p Hp), bind_Ok. reflexivity.
Qed.

Lemma alarms_loop_spec todo (pre rest : Buffer) (acc : list Z) :
  alarms_loop (pre ++ rest) todo (Z.of_nat (length acc)) (Buf.length pre) (Some <$> acc)
  = Ok (Some <$> (acc ++ alarm_words_spec todo rest)).
Proof.
  revert pre rest acc. induction todo as [|todo IH]; intros pre rest acc.
  { cbn [alarms_loop alarm_words_spec]. rewrite app_nil_r. reflexivity. }
  destruct rest as [|b0 [|b1 [|b2 [|b3 rest]]]];
    try (rewrite alarms_loop_short
           by (rewrite Buf_length_app; unfold Buf.length; cbn [length]; lia);
         cbn [alarm_words_spec]; rewrite app_nil_r; reflexivity).
  rewrite (alarms_loop_step pre rest) by reflexivity.
  rewrite array_set_push. cbn [alarm_words_spec].
  set (w := uint32_le b0 b1 b2 b3).
  replace (pre ++ b0 :: b1 :: b2 :: b3 :: rest) with ((pre ++ [b0; b1; b2; b3]) ++ rest)
    by (rewrite <- app_assoc; reflexivity).
  replace (Z.of_nat (length acc) + 1) with (Z.of_nat (length (acc ++ [w])))
    by (rewrite length_app; cbn [length]; lia).
  replace (Buf.length pre + 4) with (Buf.length (pre ++ [b0; b1; b2; b3]))
    by (rewrite Buf_length_app; unfold Buf.length; cbn [length]; lia).
  rewrite IH, <- app_assoc. reflexivity.
Qed.

Lemma alarm_words_spec_length budget (bytes : Buffer) :
  length (alarm_words_spec budget bytes) = Nat.min budget (length bytes / 4).
Proof.
  revert bytes. induction budget as [|budget IH]; intros bytes; [reflexivity|].
  destruct bytes as [|b0 [|b1 [|b2 [|b3 rest]]]]; try reflexivity.
  cbn [alarm_words_spec length]. rewrite IH.
  replace (S (S (S (S (length rest))))) with (1 * 4 + length rest)%nat by lia.
  rewrite Nat.div_add_l by lia. reflexivity.
Qed.

Lemma array_some_dense {A} (f : A → bool) (l : list A) :
  JS.array_some f (Some <$> l) = existsb f l.
Proof.
  unfold JS.array_some. induction l as [|x l IH]; [reflexivity|].
  cbn [fmap list_fmap existsb]. f_equal. exact IH.
Qed.

(** The decoder on a payload that does not start with the byte 1. *)
Lemma parseReadAllAlarms2Data_not_ok (data : Buffer) :
  Buf.get data 0 ≠ Some 1 →
  parseReadAllAlarms2Data data = Ok (Alarms.mk false false None None None).
Proof.
  intros H. unfold parseReadAllAlarms2Data.
  destruct (_ <? 1); [reflexivity|].
  destruct (Buf.get data 0) as [b|]; cbn [JS.strict_eq negb]; [|reflexivity].
  destruct (Z.eqb_spec b 1) as [->|]; [contradiction|reflexivity].
Qed.

(** The decoder on an accepted payload too short for the global word. *)
Lemma parseReadAllAlarms2Data_no_words (data : Buffer) :
  Buf.get data 0 = Some 1 → Buf.length data < 8 →
  parseReadAllAlarms2Data data = Ok (Alarms.mk true false None None None).
Proof.
  intros H0 Hl. unfold parseReadAllAlarms2Data. rewrite H0. cbn [JS.strict_eq Z.eqb Pos.eqb negb].
  destruct (Z.ltb_spec (Buf.length data) 1).
  - destruct data; [discriminate|]. unfold Buf.length in *. cbn [length] in *. lia.
  - destruct (Z.ltb_spec (Buf.length data) (1 + 1 + 2 + 4)); [reflexivity|lia].
Qed.

(** The decoder on an accepted payload that holds the global word. *)
Lemma parseReadAllAlarms2Data_words (b0 gp r0 r1 g0 g1 g2 g3 : byte) (rest : Buffer) :
  byte.unsigned b0 = 1 →
  parseReadAllAlarms2Data (b0 :: gp :: r0 :: r1 :: g0 :: g1 :: g2 :: g3 :: rest)
  = Ok (Alarms.mk true
          (negb (uint32_le g0 g1 g2 g3 =? 0)
           || existsb (λ w, negb (w =? 0)) (alarm_words_spec 8 rest))
          (Some (byte.unsigned gp)) (Some (uint32_le g0 g1 g2 g3))
          (Some (Some <$> alarm_words_spec 8 rest))).
Proof.
  intros Hb. unfold parseReadAllAlarms2Data.
  set (data := b0 :: gp :: r0 :: r1 :: g0 :: g1 :: g2 :: g3 :: rest).
  assert (Hlen : Buf.length data = 8 + Buf.length rest)
    by (subst data; unfold Buf.length; cbn [length]; lia).
  pose proof (Buf_length_nonneg rest).
  destruct (Z.ltb_spec (Buf.length data) 1); [lia|].
  change (Buf.get data 0) with (Some (byte.unsigned b0)). rewrite Hb.
  cbn [JS.strict_eq Z.eqb Pos.eqb negb].
  destruct (Z.ltb_spec (Buf.length data) (1 + 1 + 2 + 4)); [lia|].
  change (Buf.get data 1) with (Some (byte.unsigned gp)).
  rewrite (readUInt32LE_in data [b0; gp; r0; r1] rest g0 g1 g2 g3 (1 + 1 + 2) eq_refl eq_refl).
  rewrite bind_Ok.
  pose proof (alarms_loop_spec 8 [b0; gp; r0; r1; g0; g1; g2; g3] rest []) as Hloop.
  change (alarms_loop data 8 0 (1 + 1 + 2 + 4) []
          = Ok (Some <$> alarm_words_spec 8 rest)) in Hloop.
  rewrite Hloop, bind_Ok, array_some_dense. reflexivity.
Qed.

Lemma existsb_nonzero (words : list Z) :
  existsb (λ w, negb (w =? 0)) words = true ↔ ∃ w, w ∈ words ∧ w ≠ 0.
Proof.
  rewrite existsb_exists. split.
  - intros (w & Hin & Hw). exists w. split; [apply list_elem_of_In; exact Hin|].
    destruct (Z.eqb_spec w 0); [discriminate|assumption].
  - intros (w & Hin & Hw). exists w. split; [apply list_elem_of_In; exact Hin|].
    destruct (Z.eqb_spec w 0); [contradiction|reflexivity].
Qed.

(** C7. [parseReadAllAlarms2Data] returns "not ok" and no fault data when
    byte 0 of the payload is not 1.  When byte 0 is 1 and the payload has
    the 8 bytes up to and including the global word, it returns the
    global word (little-endian unsigned 32-bit at offset 4), the
    per-channel words (at most 8, as many as are complete from offset 8
    on), and a fault flag that is true exactly when the global word or
    one of these per-channel words is nonzero. *)
Theorem parseReadAllAlarms2Data_fault (refused accepted : Buffer) :
  Buf.get refused 0 ≠ Some 1 →
  Buf.get accepted 0 = Some 1 →
  8 ≤ Buf.length accepted →
  parseReadAllAlarms2Data refused = Ok (Alarms.mk false false None None None)
  ∧ ∃ global words fault,
      parseReadAllAlarms2Data accepted
      = Ok (Alarms.mk true fault (Buf.get accepted 1) (Some global) (Some (Some <$> words)))
      ∧ global = le_combine (take 4 (drop 4 accepted))
      ∧ words = alarm_words_spec 8 (drop 8 accepted)
      ∧ length words = Nat.min 8 ((length accepted - 8) / 4)
      ∧ (fault = true ↔ global ≠ 0 ∨ ∃ w, w ∈ words ∧ w ≠ 0).
Proof.
  intros Hrefused Hok Hlen.
  split; [apply parseReadAllAlarms2Data_not_ok; exact Hrefused|].
  destruct accepted as [|b0 [|gp [|r0 [|r1 [|g0 [|g1 [|g2 [|g3 rest]]]]]]]];
    try buffer_too_short Hlen.
  assert (Hb : byte.unsigned b0 = 1) by (injection Hok as Hok; exact Hok).
  eexists _, _, _. split; [apply parseReadAllAlarms2Data_words; exact Hb|].
  split; [cbn [drop take]; symmetry; apply le_combine_4|].
  split; [reflexivity|].
  split.
  - rewrite alarm_words_spec_length. cbn [length]. do 2 f_equal. lia.
  - rewrite orb_true_iff, negb_true_iff, Z.eqb_neq, existsb_nonzero. reflexivity.
Qed.

Lemma parseReadAllAlarms2Data_fault_witness :
  parseReadAllAlarms2Data alarms_refused = Ok (Alarms.mk false false None None None)
  ∧ ∃ global words fault,
      parseReadAllAlarms2Data alarms_sample
      = Ok (Alarms.mk true fault (Buf.get alarms_sample 1) (Some global)
              (Some (Some <$> words)))
      ∧ global = le_combine (take 4 (drop 4 alarms_sample))
      ∧ words = alarm_words_spec 8 (drop 8 alarms_sample)
      ∧ length words = Nat.min 8 ((length alarms_sample - 8) / 4)
      ∧ (fault = true ↔ global ≠ 0 ∨ ∃ w, w ∈ words ∧ w ≠ 0).
Proof.
  apply (parseReadAllAlarms2Data_fault alarms_refused alarms_sample);
    vm_compute; congruence.
Defined.

Example parseReadAllAlarms2Data_sample :
  parseReadAllAlarms2Data alarms_sample
  = Ok (Alarms.mk true true (Some 0) (Some 0) (Some [Some 0; Some 0x83])).
Proof. reflexivity. Qed.

(** ** The [try] blocks of the aggregator as functions on the status *)

Lemma M_bind_unfold {A B} (m : M A) (f : A → M B) s :
  (m ≫= f) s = match m s with
               | (Ok a, s') => f a s'
               | (Throw e, s') => (Throw e, s')
               end.
Proof. reflexivity. Qed.

Lemma set_channel_upd (i : nat) f s :
  (i < length (UdpStatus.channels s))%nat →
  set_channel (Z.of_nat i) f s = (Ok tt, upd i f s).
Proof.
  intros Hi. unfold set_channel, upd.
  destruct (Z.ltb_spec (Z.of_nat i) 0); [lia|]. rewrite Nat2Z.id.
  destruct (lookup_lt_is_Some_2 _ _ Hi) as [c Hc]. rewrite Hc.
  do 2 f_equal. rewrite list_insert_alter.
  apply list_alter_ext; [|reflexivity]. intros x Hx. congruence.
Qed.

Lemma upd_length i f s :
  length (UdpStatus.channels (upd i f s)) = length (UdpStatus.channels s).
Proof. apply length_alter. Qed.

Lemma upd_upd i f g s : upd i g (upd i f s) = upd i (g ∘ f) s.
Proof. unfold upd. cbn [UdpStatus.power UdpStatus.fault UdpStatus.channels].
  f_equal. apply list_alter_alter_eq. Qed.

Lemma upd_id i s : upd i id s = s.
Proof.
  unfold upd. destruct s as [p f chs]. cbn [UdpStatus.power UdpStatus.fault UdpStatus.channels].
  f_equal. apply list_alter_id. reflexivity.
Qed.

Lemma upd_range_length F lo n s :
  length (UdpStatus.channels (upd_range F lo n s)) = length (UdpStatus.channels s).
Proof. apply length_imap. Qed.

Lemma upd_range_lookup F lo n s j :
  UdpStatus.channels (upd_range F lo n s) !! j
  = (λ c, if decide (lo ≤ j < lo + n)%nat then F j c else c) <$> UdpStatus.channels s !! j.
Proof. unfold upd_range. cbn [UdpStatus.channels]. apply list_lookup_imap. Qed.

Lemma upd_range_0 F lo s : upd_range F lo 0 s = s.
Proof.
  unfold upd_range. destruct s as [p f chs].
  cbn [UdpStatus.power UdpStatus.fault UdpStatus.channels]. f_equal.
  apply list_eq. intros j. rewrite list_lookup_imap.
  destruct (chs !! j); [|reflexivity]. cbn [fmap option_fmap option_map].
  destruct (decide _); [lia|reflexivity].
Qed.

Lemma upd_range_S F lo n s :
  upd_range F (S lo) n (upd lo (F lo) s) = upd_range F lo (S n) s.
Proof.
  unfold upd_range, upd. cbn [UdpStatus.power UdpStatus.fault UdpStatus.channels]. f_equal.
  apply list_eq. intros j. rewrite !list_lookup_imap.
  destruct (decide (lo = j)) as [->|Hne].
  - rewrite list_lookup_alter_eq. destruct (UdpStatus.channels s !! j); [|reflexivity].
    cbn [fmap option_fmap option_map].
    destruct (decide (S j ≤ j < _)%nat); [lia|].
    destruct (decide (j ≤ j < _)%nat); [reflexivity|lia].
  - rewrite list_lookup_alter_ne by exact Hne.
    destruct (UdpStatus.channels s !! j); [|reflexivity].
    cbn [fmap option_fmap option_map].
    destruct (decide (S lo ≤ j < _)%nat), (decide (lo ≤ j < _)%nat); try reflexivity; lia.
Qed.

(** A loop whose iteration [j] rewrites channel [j] alone, run over
    channels that exist. *)
Lemma for_loop_upd (body : Z → M unit) F n :
  ∀ lo s,
    (lo + n ≤ length (UdpStatus.channels s))%nat →
    (∀ j s', (lo ≤ j < lo + n)%nat →
             length (UdpStatus.channels s') = length (UdpStatus.channels s) →
             body (Z.of_nat j) s' = (Ok tt, upd j (F j) s')) →
    for_loop n (Z.of_nat lo) body s = (Ok tt, upd_range F lo n s).
Proof.
  induction n as [|n IH]; intros lo s Hlen Hbody.
  { cbn [for_loop]. rewrite upd_range_0. reflexivity. }
  cbn [for_loop]. rewrite M_bind_unfold, Hbody by (lia || reflexivity).
  replace (Z.of_nat lo + 1) with (Z.of_nat (S lo)) by lia.
  rewrite IH.
  - rewrite upd_range_S. reflexivity.
  - rewrite upd_length. lia.
  - intros j s' Hj Hs'. apply Hbody; [lia|]. rewrite Hs'. apply upd_length.
Qed.

Lemma array_get_dense {A} (l : list A) (j : nat) :
  JS.array_get (Some <$> l) (Z.of_nat j) = l !! j.
Proof.
  unfold JS.array_get. destruct (Z.ltb_spec (Z.of_nat j) 0); [lia|].
  rewrite Nat2Z.id, list_lookup_fmap. destruct (l !! j); reflexivity.
Qed.

Lemma upd_ext i f g s : (∀ c, f c = g c) → upd i f s = upd i g s.
Proof.
  intros H. unfold upd. f_equal. apply list_alter_ext; [|reflexivity]. intros c _. apply H.
Qed.

(** The decoders never throw, and the arrays they return have no holes. *)
Lemma parseReadgmData_total (data : Buffer) (maxChannels : Z) :
  ∃ ok table, parseReadgmData data maxChannels = Ok (Gm.mk ok (Some <$> table)).
Proof.
  destruct data as [|b0 [|b1 rest]].
  - exists false, []. reflexivity.
  - exists false, []. reflexivity.
  - eexists _, _. apply parseReadgmData_cons.
Qed.

Lemma parseReadAllAlarms2Data_total (data : Buffer) :
  ∃ a words,
    parseReadAllAlarms2Data data = Ok a
    ∧ default [] (Alarms.channelWords a) = Some <$> words.
Proof.
  destruct (decide (Buf.get data 0 = Some 1)) as [H1|H1].
  - destruct (Z.lt_ge_cases (Buf.length data) 8) as [Hs|Hl].
    + eexists _, []. split; [apply parseReadAllAlarms2Data_no_words; assumption|reflexivity].
    + destruct data as [|b0 [|gp [|r0 [|r1 [|g0 [|g1 [|g2 [|g3 rest]]]]]]]];
        try buffer_too_short Hl.
      eexists _, _. split; [apply parseReadAllAlarms2Data_words|reflexivity].
      injection H1 as H1; exact H1.
  - eexists _, []. split; [apply parseReadAllAlarms2Data_not_ok; assumption|reflexivity].
Qed.

(** The first block only ever assigns [status.power]. *)
Lemma standby_block_run (standbyData : Buffer) s :
  standby_block standbyData s
  = (Ok tt,
     match standbyData with
     | b0 :: b1 :: _ =>
       if byte.unsigned b0 =? 1 then UdpStatus.set_power (byte.unsigned b1 =? 2) s else s
     | _ => s
     end).
Proof.
  unfold standby_block, parseStandbyData.
  destruct standbyData as [|b0 [|b1 rest]]; try reflexivity.
  assert (H : (Buf.length (b0 :: b1 :: rest) >=? 2) = true).
  { rewrite Z.geb_leb. apply Z.leb_le. unfold Buf.length. cbn [length]. lia. }
  rewrite H. cbn [Standby.standbyRaw Standby.ok].
  change (Buf.get (b0 :: b1 :: rest) 1) with (Some (byte.unsigned b1)).
  change (Buf.get (b0 :: b1 :: rest) 0) with (Some (byte.unsigned b0)).
  cbn [JS.strict_eq JS.defined]. destruct (byte.unsigned b0 =? 1); reflexivity.
Qed.

(** The second block, run on a status that has all its channels. *)
Lemma readgm_block_run (maxChannels : Z) (gmData : Buffer) ok table s :
  parseReadgmData gmData maxChannels = Ok (Gm.mk ok (Some <$> table)) →
  (Z.to_nat maxChannels ≤ length (UdpStatus.channels s))%nat →
  readgm_block maxChannels gmData s
  = (Ok tt,
     if ok
     then upd_range (λ j, from_option gm_apply id (table !! j)) 0
            (Z.to_nat (Z.min (Z.of_nat (length table)) maxChannels)) s
     else s).
Proof.
  intros Hparse Hlen. unfold readgm_block.
  rewrite M_bind_unfold. unfold lift. rewrite Hparse. cbn [Gm.ok Gm.channels].
  destruct ok; [|reflexivity].
  unfold JS.Math_min, JS.array_length. rewrite length_fmap.
  apply (for_loop_upd _ (λ j, from_option gm_apply id (table !! j)) _ 0%nat).
  { lia. }
  intros j s' Hj Hs'. rewrite array_get_dense.
  destruct (table !! j) as [ch|]; cbn [from_option].
  - rewrite M_bind_unfold, set_channel_upd by lia.
    unfold gm_apply.
    destruct (match Gm.outGain ch with Some g => Some g | None => Gm.inGain ch end) as [g|].
    + rewrite set_channel_upd by (rewrite upd_length; lia). rewrite upd_upd. reflexivity.
    + reflexivity.
  - unfold skip. rewrite upd_id. reflexivity.
Qed.

Lemma alarm_body_run (w : Z) (j : nat) s :
  (j < length (UdpStatus.channels s))%nat →
  (if JS.truthy w then
     _ ← set_channel (Z.of_nat j) (UdpStatus.set_clip (negb (JS.band w (JS.shl 1 0) =? 0)));
     _ ← set_channel (Z.of_nat j)
           (UdpStatus.set_thermalSOA (negb (JS.band w (JS.shl 1 1) =? 0)));
     _ ← set_channel (Z.of_nat j) (UdpStatus.set_overTemp (negb (JS.band w (JS.shl 1 3) =? 0)));
     _ ← set_channel (Z.of_nat j) (UdpStatus.set_railFault (negb (JS.band w (JS.shl 1 4) =? 0)));
     _ ← set_channel (Z.of_nat j)
           (UdpStatus.set_auxCurrentFault (negb (JS.band w (JS.shl 1 5) =? 0)));
     _ ← set_channel (Z.of_nat j)
           (UdpStatus.set_otherFault (negb (JS.band w (JS.shl 1 6) =? 0)));
     set_channel (Z.of_nat j) (UdpStatus.set_lowLoad (negb (JS.band w (JS.shl 1 7) =? 0)))
   else skip) s
  = (Ok tt, upd j (alarm_apply w) s).
Proof.
  intros Hj. unfold alarm_apply. destruct (JS.truthy w).
  - repeat (rewrite M_bind_unfold, set_channel_upd by (rewrite ?upd_length; exact Hj)).
    rewrite set_channel_upd by (rewrite ?upd_length; exact Hj).
    rewrite !upd_upd. reflexivity.
  - unfold skip. rewrite (upd_ext j _ id) by reflexivity. rewrite upd_id. reflexivity.
Qed.

(** The third block, run on a status that has all its channels. *)
Lemma alarms_block_run (maxChannels : Z) (alData : Buffer) a words s :
  parseReadAllAlarms2Data alData = Ok a →
  default [] (Alarms.channelWords a) = Some <$> words →
  (Z.to_nat maxChannels ≤ length (UdpStatus.channels s))%nat →
  alarms_block maxChannels alData s
  = (Ok tt,
     if Alarms.ok a
     then upd_range (λ j, alarm_apply (JS.ushr (default 0 (words !! j)) 0)) 0
            (Z.to_nat (Z.min (Z.of_nat (length words)) maxChannels))
            (UdpStatus.set_fault (Alarms.fault a) s)
     else s).
Proof.
  intros Hparse Hwords Hlen. unfold alarms_block.
  rewrite M_bind_unfold. unfold lift. rewrite Hparse.
  destruct (Alarms.ok a); [|reflexivity].
  rewrite M_bind_unfold. unfold modify. rewrite Hwords.
  unfold JS.Math_min, JS.array_length. rewrite length_fmap.
  apply (for_loop_upd _ (λ j, alarm_apply (JS.ushr (default 0 (words !! j)) 0)) _ 0%nat).
  { cbn [UdpStatus.set_fault UdpStatus.channels]. lia. }
  intros j s' Hj Hs'. rewrite array_get_dense. unfold JS.operand.
  apply alarm_body_run. rewrite Hs'. cbn [UdpStatus.set_fault UdpStatus.channels]. lia.
Qed.

(** ** Bit tests of the alarm loop *)

Lemma land_pow2_testbit x k : 0 ≤ k → negb (Z.land x (2 ^ k) =? 0) = Z.testbit x k.
Proof.
  intros Hk.
  assert (H : Z.land x (2 ^ k) = if Z.testbit x k then 2 ^ k else 0).
  { apply Z.bits_inj'. intros n Hn. rewrite Z.land_spec, Z.pow2_bits_eqb by exact Hk.
    destruct (Z.eqb_spec k n) as [->|Hne].
    - rewrite andb_true_r. destruct (Z.testbit x n) eqn:E.
      + rewrite Z.pow2_bits_true by exact Hn. reflexivity.
      + rewrite Z.bits_0. reflexivity.
    - rewrite andb_false_r. destruct (Z.testbit x k).
      + rewrite Z.pow2_bits_false by lia. reflexivity.
      + rewrite Z.bits_0. reflexivity. }
  rewrite H. destruct (Z.testbit x k); [|reflexivity].
  destruct (Z.eqb_spec (2 ^ k) 0) as [E|]; [|reflexivity].
  pose proof (Z.pow_pos_nonneg 2 k). lia.
Qed.

Lemma ToInt32_testbit z k : 0 ≤ k < 32 → Z.testbit (JS.ToInt32 z) k = Z.testbit z k.
Proof.
  intros Hk.
  rewrite <- (Z.mod_pow2_bits_low (JS.ToInt32 z) 32 k) by lia.
  rewrite <- (Z.mod_pow2_bits_low z 32 k) by lia.
  rewrite ToInt32_mod_pow2 by lia. reflexivity.
Qed.

Lemma js_bit_test w k :
  0 ≤ k < 31 → negb (JS.band w (2 ^ k) =? 0) = Z.testbit w k.
Proof.
  intros Hk. unfold JS.band.
  rewrite (ToInt32_small (2 ^ k)).
  - rewrite land_pow2_testbit by lia. apply ToInt32_testbit. lia.
  - split; [apply Z.pow_nonneg; lia|]. apply Z.pow_lt_mono_r; lia.
Qed.

Lemma ushr_0 w : 0 ≤ w < 2 ^ 32 → JS.ushr w 0 = w.
Proof.
  intros Hw. unfold JS.ushr, JS.ToUint32. rewrite (Z.mod_small w) by exact Hw.
  apply Z.shiftr_0_r.
Qed.

Lemma alarm_apply_0 c : alarm_apply 0 c = c.
Proof. reflexivity. Qed.

(** The flags written for a nonzero word are its bits 0, 1, 3, 4, 5, 6, 7. *)
Lemma alarm_apply_flags w c :
  w ≠ 0 → alarm_flags (alarm_apply w c) = alarm_bits_spec w.
Proof.
  intros Hw. unfold alarm_apply, JS.truthy.
  destruct (Z.eqb_spec w 0) as [|_]; [contradiction|]. cbn [negb].
  change (JS.shl 1 0) with (2 ^ 0). change (JS.shl 1 1) with (2 ^ 1).
  change (JS.shl 1 3) with (2 ^ 3). change (JS.shl 1 4) with (2 ^ 4).
  change (JS.shl 1 5) with (2 ^ 5). change (JS.shl 1 6) with (2 ^ 6).
  change (JS.shl 1 7) with (2 ^ 7).
  rewrite !js_bit_test by lia. reflexivity.
Qed.

Lemma alarm_apply_gm w c :
  UdpStatus.mute (alarm_apply w c) = UdpStatus.mute c
  ∧ UdpStatus.gain (alarm_apply w c) = UdpStatus.gain c.
Proof. unfold alarm_apply. destruct (JS.truthy w); split; reflexivity. Qed.

Lemma alarm_apply_respects w c c' :
  alarm_flags c = alarm_flags c' → alarm_flags (alarm_apply w c) = alarm_flags (alarm_apply w c').
Proof. unfold alarm_apply. destruct (JS.truthy w); [reflexivity|trivial]. Qed.

Lemma gm_apply_alarm_flags ch c : alarm_flags (gm_apply ch c) = alarm_flags c.
Proof. unfold gm_apply. destruct (match Gm.outGain ch with Some _ => _ | None => _ end); reflexivity. Qed.

Lemma gm_apply_respects ch c c' :
  gm_fields c = gm_fields c' → gm_fields (gm_apply ch c) = gm_fields (gm_apply ch c').
Proof.
  unfold gm_apply, gm_fields. intros [= Hm Hg].
  destruct (match Gm.outGain ch with Some _ => _ | None => _ end); cbn; congruence.
Qed.

Lemma uint32_le_range b0 b1 b2 b3 : 0 ≤ uint32_le b0 b1 b2 b3 < 2 ^ 32.
Proof.
  unfold uint32_le.
  pose proof (byte.unsigned_range b0). pose proof (byte.unsigned_range b1).
  pose proof (byte.unsigned_range b2). pose proof (byte.unsigned_range b3).
  change (2 ^ 8) with 256 in *. change (2 ^ 32) with 4294967296. lia.
Qed.

Lemma alarm_words_spec_range budget (bytes : Buffer) w :
  w ∈ alarm_words_spec budget bytes → 0 ≤ w < 2 ^ 32.
Proof.
  revert bytes. induction budget as [|budget IH]; intros bytes; [intros H; inversion H|].
  destruct bytes as [|b0 [|b1 [|b2 [|b3 rest]]]]; try (intros H; inversion H; fail).
  cbn [alarm_words_spec]. intros [->|H]%elem_of_cons; [apply uint32_le_range|].
  apply (IH rest H).
Qed.

(** The per-channel words of a decoded payload are unsigned 32-bit values. *)
Lemma decoded_word_range (alData : Buffer) a words j w :
  parseReadAllAlarms2Data alData = Ok a →
  default [] (Alarms.channelWords a) = Some <$> words →
  words !! j = Some w → 0 ≤ w < 2 ^ 32.
Proof.
  intros Hparse Hwords Hj.
  destruct (decide (Buf.get alData 0 = Some 1)) as [H1|H1].
  - destruct (Z.lt_ge_cases (Buf.length alData) 8) as [Hs|Hl].
    + rewrite parseReadAllAlarms2Data_no_words in Hparse by assumption.
      apply Ok_inj in Hparse. subst a. cbn in Hwords.
      destruct words; [discriminate|discriminate].
    + destruct alData as [|b0 [|gp [|r0 [|r1 [|g0 [|g1 [|g2 [|g3 rest]]]]]]]];
        try buffer_too_short Hl.
      rewrite parseReadAllAlarms2Data_words in Hparse by (injection H1 as H1; exact H1).
      apply Ok_inj in Hparse. subst a. cbn [Alarms.channelWords default from_option id] in Hwords.
      apply (inj (fmap Some)) in Hwords. subst words.
      apply (alarm_words_spec_range 8 rest). apply list_elem_of_lookup. eauto.
  - rewrite parseReadAllAlarms2Data_not_ok in Hparse by assumption.
    apply Ok_inj in Hparse. subst a. cbn in Hwords.
    destruct words; [discriminate|discriminate].
Qed.

(** ** Which fields each block can change *)

Lemma standby_after_props r s :
  UdpStatus.fault (after r standby_block s) = UdpStatus.fault s
  ∧ UdpStatus.channels (after r standby_block s) = UdpStatus.channels s.
Proof.
  destruct r as [d|e]; cbn [after]; [|split; reflexivity].
  rewrite standby_block_run. cbn [snd].
  destruct d as [|b0 [|b1 rest]]; try (split; reflexivity).
  destruct (byte.unsigned b0 =? 1); split; reflexivity.
Qed.

Lemma readgm_after_props maxChannels r s s' :
  (Z.to_nat maxChannels ≤ length (UdpStatus.channels s))%nat →
  length (UdpStatus.channels s') = length (UdpStatus.channels s) →
  let t := after r (readgm_block maxChannels) s in
  let t' := after r (readgm_block maxChannels) s' in
  UdpStatus.power t = UdpStatus.power s
  ∧ UdpStatus.fault t = UdpStatus.fault s
  ∧ length (UdpStatus.channels t) = length (UdpStatus.channels s)
  ∧ (∀ j, alarm_flags <$> UdpStatus.channels t !! j
          = alarm_flags <$> UdpStatus.channels s !! j)
  ∧ ((∀ j, gm_fields <$> UdpStatus.channels s !! j = gm_fields <$> UdpStatus.channels s' !! j) →
     ∀ j, gm_fields <$> UdpStatus.channels t !! j = gm_fields <$> UdpStatus.channels t' !! j).
Proof.
  intros Hlen Hlen' t t'. subst t t'.
  destruct r as [d|e]; cbn [after]; [|repeat split; auto].
  destruct (parseReadgmData_total d maxChannels) as (ok & table & Hp).
  rewrite (readgm_block_run _ _ _ _ s Hp Hlen).
  rewrite (readgm_block_run _ _ _ _ s' Hp) by lia. cbn [snd].
  destruct ok; [|repeat split; auto].
  split; [reflexivity|]. split; [reflexivity|]. split; [apply upd_range_length|]. split.
  - intros j. rewrite upd_range_lookup.
    destruct (UdpStatus.channels s !! j) as [c|]; [|reflexivity]. cbn [fmap option_fmap option_map].
    destruct (decide _); [|reflexivity].
    destruct (table !! j); cbn [from_option id]; [|reflexivity].
    rewrite gm_apply_alarm_flags. reflexivity.
  - intros H j. rewrite !upd_range_lookup. specialize (H j).
    destruct (UdpStatus.channels s !! j) as [c|], (UdpStatus.channels s' !! j) as [c'|];
      cbn [fmap option_fmap option_map] in *; try discriminate; [|reflexivity].
    apply (inj Some) in H. f_equal.
    destruct (decide _); [|exact H].
    destruct (table !! j); cbn [from_option id]; [|exact H].
    apply gm_apply_respects. exact H.
Qed.

Lemma alarms_after_props maxChannels r s s' :
  (Z.to_nat maxChannels ≤ length (UdpStatus.channels s))%nat →
  length (UdpStatus.channels s') = length (UdpStatus.channels s) →
  let t := after r (alarms_block maxChannels) s in
  let t' := after r (alarms_block maxChannels) s' in
  UdpStatus.power t = UdpStatus.power s
  ∧ length (UdpStatus.channels t) = length (UdpStatus.channels s)
  ∧ (∀ j, gm_fields <$> UdpStatus.channels t !! j = gm_fields <$> UdpStatus.channels s !! j)
  ∧ (UdpStatus.fault s = UdpStatus.fault s' →
     (∀ j, alarm_flags <$> UdpStatus.channels s !! j
           = alarm_flags <$> UdpStatus.channels s' !! j) →
     UdpStatus.fault t = UdpStatus.fault t'
     ∧ ∀ j, alarm_flags <$> UdpStatus.channels t !! j
            = alarm_flags <$> UdpStatus.channels t' !! j).
Proof.
  intros Hlen Hlen' t t'. subst t t'.
  destruct r as [d|e]; cbn [after]; [|repeat split; auto].
  destruct (parseReadAllAlarms2Data_total d) as (a & words & Hp & Hw).
  rewrite (alarms_block_run _ _ _ _ s Hp Hw Hlen).
  rewrite (alarms_block_run _ _ _ _ s' Hp Hw) by lia. cbn [snd].
  destruct (Alarms.ok a); [|repeat split; auto].
  split; [reflexivity|]. split; [rewrite upd_range_length; reflexivity|]. split.
  - intros j. rewrite upd_range_lookup. cbn [UdpStatus.set_fault UdpStatus.channels].
    destruct (UdpStatus.channels s !! j) as [c|]; [|reflexivity]. cbn [fmap option_fmap option_map].
    destruct (decide _); [|reflexivity].
    unfold gm_fields. destruct (alarm_apply_gm (JS.ushr (default 0 (words !! j)) 0) c) as [-> ->].
    reflexivity.
  - intros _ H. split; [reflexivity|].
    intros j. rewrite !upd_range_lookup. cbn [UdpStatus.set_fault UdpStatus.channels].
    specialize (H j).
    destruct (UdpStatus.channels s !! j) as [c|], (UdpStatus.channels s' !! j) as [c'|];
      cbn [fmap option_fmap option_map] in *; try discriminate; [|reflexivity].
    apply (inj Some) in H. f_equal.
    destruct (decide _); [|exact H].
    apply alarm_apply_respects. exact H.
Qed.

Lemma fresh_length maxChannels :
  length (UdpStatus.channels (fresh maxChannels)) = Z.to_nat maxChannels.
Proof. apply length_replicate. Qed.

Lemma fresh_lookup maxChannels j c :
  UdpStatus.channels (fresh maxChannels) !! j = Some c → c = UdpStatus.empty.
Proof. unfold fresh. cbn [UdpStatus.channels]. intros [-> _]%lookup_replicate. reflexivity. Qed.

(** ** C5: the aggregator never fails and merges what succeeded *)

(** The snapshot of one poll, from the outcomes of its three requests. *)
Lemma readUdpStatus_snapshot opts maxChannels net :
  ∃ r1 r2 r3,
    standby_reply opts net = Some r1
    ∧ readgm_reply opts net = Some r2
    ∧ alarms_reply opts net = Some r3
    ∧ snd (readUdpStatus opts maxChannels net)
      = Some (after r3 (alarms_block maxChannels)
                (after r2 (readgm_block maxChannels)
                   (after r1 standby_block (fresh maxChannels)))).
Proof.
  destruct (readUdpStatus_unfold opts maxChannels net) as (r1 & r2 & r3 & H1 & H2 & H3 & Hu).
  exists r1, r2, r3. rewrite Hu. auto.
Qed.

(** Each group of fields of the snapshot is what its own request alone
    would have produced on a fresh status. *)
Lemma snapshot_fields maxChannels r1 r2 r3 :
  let st := after r3 (alarms_block maxChannels)
              (after r2 (readgm_block maxChannels)
                 (after r1 standby_block (fresh maxChannels))) in
  length (UdpStatus.channels st) = Z.to_nat maxChannels
  ∧ UdpStatus.power st = UdpStatus.power (after r1 standby_block (fresh maxChannels))
  ∧ (∀ j, gm_fields <$> UdpStatus.channels st !! j
          = gm_fields <$> UdpStatus.channels
                            (after r2 (readgm_block maxChannels) (fresh maxChannels)) !! j)
  ∧ UdpStatus.fault st
    = UdpStatus.fault (after r3 (alarms_block maxChannels) (fresh maxChannels))
  ∧ (∀ j, alarm_flags <$> UdpStatus.channels st !! j
          = alarm_flags <$> UdpStatus.channels
                              (after r3 (alarms_block maxChannels) (fresh maxChannels)) !! j).
Proof.
  set (t0 := fresh maxChannels).
  set (t1 := after r1 standby_block t0).
  set (t2 := after r2 (readgm_block maxChannels) t1).
  intros st. subst st.
  pose proof (fresh_length maxChannels) as L0. fold t0 in L0.
  destruct (standby_after_props r1 t0) as [F1 C1]. fold t1 in F1, C1.
  assert (L1 : length (UdpStatus.channels t1) = Z.to_nat maxChannels) by (rewrite C1; exact L0).
  destruct (readgm_after_props maxChannels r2 t1 t0) as (P2 & F2 & L2 & A2 & G2);
    [lia|lia|]. fold t2 in P2, F2, L2, A2, G2.
  destruct (alarms_after_props maxChannels r3 t2 t0) as (P3 & L3 & G3 & A3); [lia|lia|].
  destruct A3 as [F3 A3].
  { rewrite F2, F1. reflexivity. }
  { intros j. rewrite A2, C1. reflexivity. }
  split; [lia|]. split; [congruence|]. split; [|split; [exact F3|exact A3]].
  intros j. rewrite G3. apply G2. intros k. rewrite C1. reflexivity.
Qed.

(** C5. [readUdpStatus] always returns a snapshot, with one entry per
    configured channel, whatever happens to its three requests.  The power
    field, the mute and gain fields, and the fault and alarm fields are
    each exactly what the corresponding request alone produces, whether
    the other two succeed or fail; a request that fails (timeout, socket
    error, malformed or uncorrelated reply) leaves its fields unset. *)
Theorem readUdpStatus_never_fails (opts : UdpOptions) (maxChannels : Z) (net : Network) :
  ∃ r1 r2 r3 st,
    standby_reply opts net = Some r1
    ∧ readgm_reply opts net = Some r2
    ∧ alarms_reply opts net = Some r3
    ∧ snd (readUdpStatus opts maxChannels net) = Some st
    ∧ length (UdpStatus.channels st) = Z.to_nat maxChannels
    ∧ UdpStatus.power st = UdpStatus.power (after r1 standby_block (fresh maxChannels))
    ∧ (∀ j, gm_fields <$> UdpStatus.channels st !! j
            = gm_fields <$> UdpStatus.channels
                              (after r2 (readgm_block maxChannels) (fresh maxChannels)) !! j)
    ∧ UdpStatus.fault st
      = UdpStatus.fault (after r3 (alarms_block maxChannels) (fresh maxChannels))
    ∧ (∀ j, alarm_flags <$> UdpStatus.channels st !! j
            = alarm_flags <$> UdpStatus.channels
                                (after r3 (alarms_block maxChannels) (fresh maxChannels)) !! j)
    ∧ (is_Ok r1 = false → UdpStatus.power st = None)
    ∧ (is_Ok r2 = false →
       ∀ c, c ∈ UdpStatus.channels st → UdpStatus.mute c = None ∧ UdpStatus.gain c = None)
    ∧ (is_Ok r3 = false →
       UdpStatus.fault st = None
       ∧ ∀ c, c ∈ UdpStatus.channels st → alarm_flags c = replicate 7 None).
Proof.
  destruct (readUdpStatus_snapshot opts maxChannels net) as (r1 & r2 & r3 & H1 & H2 & H3 & Hs).
  exists r1, r2, r3. eexists. split; [exact H1|]. split; [exact H2|]. split; [exact H3|].
  split; [exact Hs|].
  destruct (snapshot_fields maxChannels r1 r2 r3) as (L & P & G & F & A).
  split; [exact L|]. split; [exact P|]. split; [exact G|]. split; [exact F|].
  split; [exact A|]. split; [|split].
  - destruct r1; [discriminate|]. intros _. rewrite P. reflexivity.
  - destruct r2; [discriminate|]. intros _ c [j Hj]%list_elem_of_lookup.
    specialize (G j). rewrite Hj in G. cbn [after fmap option_fmap option_map] in G.
    destruct (UdpStatus.channels (fresh maxChannels) !! j) as [c0|] eqn:E; [|discriminate].
    apply fresh_lookup in E. subst c0. apply (inj Some) in G.
    injection G as Hm Hg. split; assumption.
  - destruct r3; [discriminate|]. intros _. split; [rewrite F; reflexivity|].
    intros c [j Hj]%list_elem_of_lookup.
    specialize (A j). rewrite Hj in A. cbn [after fmap option_fmap option_map] in A.
    destruct (UdpStatus.channels (fresh maxChannels) !! j) as [c0|] eqn:E; [|discriminate].
    apply fresh_lookup in E. subst c0. apply (inj Some) in A. exact A.
Qed.

(** A device that answers only the alarm request: the fault flag and the
    alarm flags of the first channel are set, power, mute and gain are
    not. *)
Example readUdpStatus_alarms_only :
  snd (readUdpStatus sample_options 2 alarms_only)
  = Some (UdpStatus.mk None (Some true)
            [UdpStatus.mkChannel None None (Some true) (Some false) (Some true) (Some false)
                                 (Some false) (Some true) (Some false);
             UdpStatus.empty]).
Proof. vm_compute. reflexivity. Qed.

(** ** C3: the power field *)

(** C3, as stated, fails.  The standby exchange succeeds with answer-ok
    byte 1 and raw state code 3; the power field of the snapshot is not
    left unset, it is false. *)
Lemma power_unknown_code_reads_false :
  standby_reply sample_options standby_code_3 = Some (Ok (Buf.from [1; 3; 0; 0]))
  ∧ ∃ st, snd (readUdpStatus sample_options 2 standby_code_3) = Some st
          ∧ UdpStatus.power st = Some false
          ∧ UdpStatus.power st ≠ None.
Proof.
  split; [vm_compute; reflexivity|].
  eexists. split; [vm_compute; reflexivity|].
  split; [reflexivity|discriminate].
Qed.

(** C3, amended.  After a standby exchange that succeeds with a payload
    of at least 2 bytes whose answer-ok byte is 1, the power field of the
    snapshot is set: true when the raw state code (payload byte 1) is 2,
    false for every other code. *)
Theorem power_true_iff_code_2
    (opts : UdpOptions) (maxChannels : Z) (net : Network)
    (b0 b1 : byte) (rest : Buffer) (st : UdpStatus.t) :
  standby_reply opts net = Some (Ok (b0 :: b1 :: rest)) →
  byte.unsigned b0 = 1 →
  snd (readUdpStatus opts maxChannels net) = Some st →
  UdpStatus.power st = Some (byte.unsigned b1 =? 2).
Proof.
  intros Hreply Hok Hst.
  destruct (readUdpStatus_snapshot opts maxChannels net) as (r1 & r2 & r3 & H1 & _ & _ & Hs).
  rewrite Hreply in H1. apply (inj Some) in H1. subst r1.
  rewrite Hs in Hst. apply (inj Some) in Hst. subst st.
  destruct (snapshot_fields maxChannels (Ok (b0 :: b1 :: rest)) r2 r3) as (_ & P & _).
  rewrite P. cbn [after]. rewrite standby_block_run. cbn [snd]. rewrite Hok. reflexivity.
Qed.

Lemma power_true_iff_code_2_witness :
  standby_reply sample_options standby_code_2 = Some (Ok (Buf.from [1; 2; 0; 0]))
  ∧ snd (readUdpStatus sample_options 2 standby_code_2)
    = Some (UdpStatus.mk (Some true) None [UdpStatus.empty; UdpStatus.empty])
  ∧ UdpStatus.power (UdpStatus.mk (Some true) None [UdpStatus.empty; UdpStatus.empty])
    = Some true.
Proof.
  split; [vm_compute; reflexivity|]. split; [vm_compute; reflexivity|].
  apply (power_true_iff_code_2 sample_options 2 standby_code_2
           (byte.of_Z 1) (byte.of_Z 2) [byte.of_Z 0; byte.of_Z 0]);
    [vm_compute; reflexivity | reflexivity | vm_compute; reflexivity].
Defined.

(** ** C4 and C10: merging the per-channel alarm words *)

(** The status the third block starts from has all its channels and no
    alarm flag set. *)
Lemma before_alarms_props maxChannels r1 r2 :
  let t := after r2 (readgm_block maxChannels) (after r1 standby_block (fresh maxChannels)) in
  length (UdpStatus.channels t) = Z.to_nat maxChannels
  ∧ ∀ j c, UdpStatus.channels t !! j = Some c → alarm_flags c = replicate 7 None.
Proof.
  intros t. subst t.
  pose proof (fresh_length maxChannels) as L0.
  destruct (standby_after_props r1 (fresh maxChannels)) as [_ C1].
  destruct (readgm_after_props maxChannels r2 (after r1 standby_block (fresh maxChannels))
              (fresh maxChannels)) as (_ & _ & L2 & A2 & _);
    [rewrite C1; lia|rewrite C1; lia|].
  split; [rewrite L2, C1; exact L0|].
  intros j c Hj. specialize (A2 j). rewrite Hj, C1 in A2.
  destruct (UdpStatus.channels (fresh maxChannels) !! j) as [c0|] eqn:E; [|discriminate].
  apply fresh_lookup in E. subst c0. apply (inj Some) in A2. exact A2.
Qed.

(** Channel [i] after the third block has merged a decoded payload. *)
Lemma alarms_block_channel (maxChannels : Z) (alData : Buffer) a words s (i : nat) w c :
  parseReadAllAlarms2Data alData = Ok a →
  Alarms.ok a = true →
  Alarms.channelWords a = Some words →
  JS.array_get words (Z.of_nat i) = Some w →
  length (UdpStatus.channels s) = Z.to_nat maxChannels →
  UdpStatus.channels s !! i = Some c →
  UdpStatus.channels (snd (alarms_block maxChannels alData s)) !! i = Some (alarm_apply w c).
Proof.
  intros Hparse Hok Hwords Hw Hlen Hc.
  destruct (parseReadAllAlarms2Data_total alData) as (a' & ws & Hparse' & Hws).
  rewrite Hparse in Hparse'. apply Ok_inj in Hparse'. subst a'.
  rewrite Hwords in Hws. cbn [default from_option id] in Hws. subst words.
  rewrite array_get_dense in Hw.
  rewrite (alarms_block_run _ _ _ _ s Hparse) by (rewrite ?Hwords; reflexivity || lia).
  cbn [snd]. rewrite Hok, upd_range_lookup.
  cbn [UdpStatus.set_fault UdpStatus.channels]. rewrite Hc. cbn [fmap option_fmap option_map].
  assert (Hi : (i < length ws)%nat) by (apply lookup_lt_is_Some; eauto).
  assert (Hi' : (i < Z.to_nat maxChannels)%nat)
    by (rewrite <- Hlen; apply lookup_lt_is_Some; eauto).
  destruct (decide _) as [_|Hn]; [|lia].
  rewrite Hw. cbn [default from_option id].
  rewrite ushr_0; [reflexivity|].
  apply (decoded_word_range alData a ws i w Hparse); [rewrite Hwords; reflexivity|exact Hw].
Qed.

(** C4. When the alarm exchange succeeds and its decoded payload is
    merged, every nonzero per-channel word [w] of a configured channel
    sets the seven flags of that channel from fixed bits of [w]: clip
    from bit 0, thermalSOA from bit 1, overTemp from bit 3, railFault from
    bit 4, auxCurrentFault from bit 5, otherFault from bit 6 and lowLoad
    from bit 7.  In particular the third block, run on the word
    0b10000011, sets clip, thermalSOA and lowLoad to true and the other
    four flags to false. *)
Theorem alarm_flags_bit_positions
    (opts : UdpOptions) (maxChannels : Z) (net : Network)
    (alData : Buffer) (a : Alarms.t) (words : JS.Array Z) (i : nat) (w : Z)
    (st : UdpStatus.t) :
  alarms_reply opts net = Some (Ok alData) →
  parseReadAllAlarms2Data alData = Ok a →
  Alarms.ok a = true →
  Alarms.channelWords a = Some words →
  JS.array_get words (Z.of_nat i) = Some w →
  w ≠ 0 →
  (i < Z.to_nat maxChannels)%nat →
  snd (readUdpStatus opts maxChannels net) = Some st →
  (∃ c, UdpStatus.channels st !! i = Some c
        ∧ alarm_flags c = (λ k, Some (Z.testbit w k)) <$> [0; 1; 3; 4; 5; 6; 7])
  ∧ alarm_flags <$> UdpStatus.channels (snd (alarms_block 1 alarms_0x83 (fresh 1)))
    = [[Some true; Some true; Some false; Some false; Some false; Some false; Some true]].
Proof.
  intros Hreply Hparse Hok Hwords Hw Hnz Hi Hst.
  split; [|vm_compute; reflexivity].
  destruct (readUdpStatus_snapshot opts maxChannels net) as (r1 & r2 & r3 & _ & _ & H3 & Hs).
  rewrite Hreply in H3. apply (inj Some) in H3. subst r3.
  rewrite Hs in Hst. apply (inj Some) in Hst. subst st. cbn [after].
  destruct (before_alarms_props maxChannels r1 r2) as [L _].
  set (t := after r2 (readgm_block maxChannels) (after r1 standby_block (fresh maxChannels)))
    in *.
  destruct (lookup_lt_is_Some_2 (UdpStatus.channels t) i) as [c Hc]; [lia|].
  exists (alarm_apply w c). split.
  - apply (alarms_block_channel maxChannels alData a words t i w c); assumption.
  - apply alarm_apply_flags. exact Hnz.
Qed.

Lemma alarm_flags_bit_positions_witness :
  (∃ c, [UdpStatus.mkChannel None None (Some true) (Some false) (Some true) (Some false)
                             (Some false) (Some true) (Some false);
         UdpStatus.empty] !! 0%nat = Some c
        ∧ alarm_flags c = (λ k, Some (Z.testbit 0x83 k)) <$> [0; 1; 3; 4; 5; 6; 7])
  ∧ alarm_flags <$> UdpStatus.channels (snd (alarms_block 1 alarms_0x83 (fresh 1)))
    = [[Some true; Some true; Some false; Some false; Some false; Some false; Some true]].
Proof.
  apply (alarm_flags_bit_positions sample_options 2 alarms_only alarms_0x83
           (Alarms.mk true true (Some 0) (Some 0) (Some [Some 0x83; Some 0]))
           [Some 0x83; Some 0] 0 0x83
           (UdpStatus.mk None (Some true)
              [UdpStatus.mkChannel None None (Some true) (Some false) (Some true) (Some false)
                                   (Some false) (Some true) (Some false);
               UdpStatus.empty]));
    try (vm_compute; reflexivity); [discriminate | vm_compute; lia].
Defined.

(** C10. When the alarm exchange succeeds and a configured channel's
    per-channel word is zero, merging leaves that channel as it was: none
    of its seven alarm flags is written, all stay unset, and the channel
    entry of the snapshot is the very entry obtained when the alarm
    exchange fails and the other two exchanges go the same way. *)
Theorem zero_alarm_word_writes_nothing
    (opts : UdpOptions) (maxChannels : Z) (net net' : Network)
    (alData : Buffer) (a : Alarms.t) (words : JS.Array Z) (i : nat) (e : Error)
    (st st' : UdpStatus.t) :
  alarms_reply opts net = Some (Ok alData) →
  parseReadAllAlarms2Data alData = Ok a →
  Alarms.ok a = true →
  Alarms.channelWords a = Some words →
  JS.array_get words (Z.of_nat i) = Some 0 →
  (i < Z.to_nat maxChannels)%nat →
  standby_reply opts net' = standby_reply opts net →
  readgm_reply opts net' = readgm_reply opts net →
  alarms_reply opts net' = Some (Throw e) →
  snd (readUdpStatus opts maxChannels net) = Some st →
  snd (readUdpStatus opts maxChannels net') = Some st' →
  ∃ c, UdpStatus.channels st !! i = Some c
       ∧ alarm_flags c = replicate 7 None
       ∧ UdpStatus.channels st' !! i = Some c.
Proof.
  intros Hreply Hparse Hok Hwords Hw Hi Hsame1 Hsame2 Hfail Hst Hst'.
  destruct (readUdpStatus_snapshot opts maxChannels net) as (r1 & r2 & r3 & H1 & H2 & H3 & Hs).
  destruct (readUdpStatus_snapshot opts maxChannels net')
    as (r1' & r2' & r3' & H1' & H2' & H3' & Hs').
  rewrite Hreply in H3. apply (inj Some) in H3. subst r3.
  rewrite Hfail in H3'. apply (inj Some) in H3'. subst r3'.
  rewrite Hsame1, H1 in H1'. apply (inj Some) in H1'. subst r1'.
  rewrite Hsame2, H2 in H2'. apply (inj Some) in H2'. subst r2'.
  rewrite Hs in Hst. apply (inj Some) in Hst. subst st.
  rewrite Hs' in Hst'. apply (inj Some) in Hst'. subst st'. cbn [after].
  destruct (before_alarms_props maxChannels r1 r2) as [L A].
  set (t := after r2 (readgm_block maxChannels) (after r1 standby_block (fresh maxChannels)))
    in *.
  destruct (lookup_lt_is_Some_2 (UdpStatus.channels t) i) as [c Hc]; [lia|].
  exists c. split; [|split; [apply (A i c Hc)|exact Hc]].
  rewrite (alarms_block_channel maxChannels alData a words t i 0 c) by assumption.
  rewrite alarm_apply_0. reflexivity.
Qed.

Lemma zero_alarm_word_writes_nothing_witness :
  ∃ c, [UdpStatus.mkChannel None None (Some true) (Some false) (Some true) (Some false)
                            (Some false) (Some true) (Some false);
        UdpStatus.empty] !! 1%nat = Some c
       ∧ alarm_flags c = replicate 7 None
       ∧ [UdpStatus.empty; UdpStatus.empty] !! 1%nat = Some c.
Proof.
  apply (zero_alarm_word_writes_nothing sample_options 2 alarms_only nothing_answers
           alarms_0x83
           (Alarms.mk true true (Some 0) (Some 0) (Some [Some 0x83; Some 0]))
           [Some 0x83; Some 0] 1 Timeout
           (UdpStatus.mk None (Some true)
              [UdpStatus.mkChannel None None (Some true) (Some false) (Some true) (Some false)
                                   (Some false) (Some true) (Some false);
               UdpStatus.empty])
           (UdpStatus.mk None None [UdpStatus.empty; UdpStatus.empty]));
    try (vm_compute; reflexivity); vm_compute; lia.
Defined.

Lemma readUdpStatus_never_fails_witness :
  ∃ r1 r2 r3 st,
    standby_reply sample_options alarms_only = Some r1
    ∧ readgm_reply sample_options alarms_only = Some r2
    ∧ alarms_reply sample_options alarms_only = Some r3
    ∧ snd (readUdpStatus sample_options 2 alarms_only) = Some st
    ∧ length (UdpStatus.channels st) = Z.to_nat 2
    ∧ UdpStatus.power st = UdpStatus.power (after r1 standby_block (fresh 2))
    ∧ (∀ j, gm_fields <$> UdpStatus.channels st !! j
            = gm_fields <$> UdpStatus.channels (after r2 (readgm_block 2) (fresh 2)) !! j)
    ∧ UdpStatus.fault st = UdpStatus.fault (after r3 (alarms_block 2) (fresh 2))
    ∧ (∀ j, alarm_flags <$> UdpStatus.channels st !! j
            = alarm_flags <$> UdpStatus.channels (after r3 (alarms_block 2) (fresh 2)) !! j)
    ∧ (is_Ok r1 = false → UdpStatus.power st = None)
    ∧ (is_Ok r2 = false →
       ∀ c, c ∈ UdpStatus.channels st → UdpStatus.mute c = None ∧ UdpStatus.gain c = None)
    ∧ (is_Ok r3 = false →
       UdpStatus.fault st = None
       ∧ ∀ c, c ∈ UdpStatus.channels st → alarm_flags c = replicate 7 None).
Proof. exact (readUdpStatus_never_fails sample_options 2 alarms_only). Defined.

Lemma standby_frame_checksum_zero_witness :
  (Buf.get (dg_frame standby_datagram) 1 = Some CMD.STANDBY
   ∧ u16_at (dg_frame standby_datagram) (8 + 4) = 0)
  ∧ ((Buf.get (dg_frame alarms_datagram) 1 = Some CMD.STANDBY
      ∧ u16_at (dg_frame alarms_datagram) 12 = 0)
     ∨ ((Buf.get (dg_frame alarms_datagram) 1 = Some CMD.READGM
         ∨ Buf.get (dg_frame alarms_datagram) 1 = Some CMD.READALLALARMS2)
        ∧ u16_at (dg_frame alarms_datagram) 8 = crc16IBM (dg_frame alarms_datagram) 0 8
        ∧ crc16IBM (dg_frame alarms_datagram) 0 8
          = crc16_spec (take 8 (dg_frame alarms_datagram)))).
Proof.
  apply (standby_frame_checksum_zero sample_options 2 alarms_only
           (Buf.from [0; 0; 0; 0]) false (unanswered 7) standby_datagram alarms_datagram).
  - vm_compute. left.
  - vm_compute. right. right. left.
Defined.

(** * Further properties of the code *)

(** ** The checksum over an arbitrary window *)

Lemma crc_byte_undefined crc : crc_byte crc None = crc_byte crc (Some 0).
Proof. unfold crc_byte. reflexivity. Qed.

Lemma crc_byte_window crc (buf : Buffer) k :
  0 ≤ crc < 2 ^ 16 →
  let b := default Byte.x00 (if k <? 0 then None else buf !! Z.to_nat k) in
  crc_byte crc (Buf.get buf k) = Nat.iter 8 crc16_spec_round (Z.lxor crc (byte.unsigned b))
  ∧ 0 ≤ Nat.iter 8 crc16_spec_round (Z.lxor crc (byte.unsigned b)) < 2 ^ 16.
Proof.
  intros Hr b. subst b. unfold Buf.get.
  destruct (k <? 0); [|destruct (buf !! Z.to_nat k) as [b|]];
    cbn [fmap option_fmap option_map default from_option id].
  - rewrite crc_byte_undefined. exact (crc_byte_spec crc Byte.x00 Hr).
  - exact (crc_byte_spec crc b Hr).
  - rewrite crc_byte_undefined. exact (crc_byte_spec crc Byte.x00 Hr).
Qed.

Lemma crc_loop_window (buf : Buffer) offset todo i crc :
  0 ≤ crc < 2 ^ 16 →
  crc_loop buf offset todo i crc
  = crc16_spec_from crc
      ((λ j, default Byte.x00
               (if offset + j <? 0 then None else buf !! Z.to_nat (offset + j)))
       <$> seqZ i (Z.of_nat todo)).
Proof.
  revert i crc. induction todo as [|todo IH]; intros i crc Hr; [reflexivity|].
  rewrite crc_loop_step.
  destruct (crc_byte_window crc buf (offset + i) Hr) as [-> Hr'].
  rewrite IH by exact Hr'.
  rewrite Nat2Z.inj_succ, (seqZ_cons i) by lia.
  replace (Z.pred (Z.succ (Z.of_nat todo))) with (Z.of_nat todo) by lia.
  replace (Z.succ i) with (i + 1) by lia.
  rewrite fmap_cons, crc16_spec_from_cons.
  reflexivity.
Qed.

(** X1. For every buffer, offset and length, [crc16IBM] is the CRC of the
    specification of the bytes of the window, positions outside the
    buffer counting as zero bytes; it lies in 0..65535, and it is the
    initial register 0xFFFF when the length is not positive. *)
Theorem crc16IBM_window (buf : Buffer) (offset len : Z) :
  crc16IBM buf offset len = crc16_spec (crc_window buf offset len)
  ∧ 0 ≤ crc16IBM buf offset len < 65536
  ∧ (len ≤ 0 → crc16IBM buf offset len = 0xffff).
Proof.
  assert (H : crc16IBM buf offset len = crc16_spec (crc_window buf offset len)).
  { unfold crc16IBM, crc16_spec, crc_window.
    rewrite crc_loop_window by lia.
    rewrite band_0xffff, Z.mod_small by (apply crc16_spec_from_range; lia).
    destruct (Z.le_gt_cases 0 len) as [Hl|Hl].
    - rewrite Z2Nat.id by exact Hl. reflexivity.
    - replace (Z.to_nat len) with 0%nat by lia.
      rewrite (seqZ_nil 0 len) by lia. reflexivity. }
  split; [exact H|]. split; [rewrite H; apply crc16_spec_range|].
  intros Hl. rewrite H. unfold crc_window. rewrite seqZ_nil by lia. reflexivity.
Qed.

Lemma crc16IBM_window_witness : crc16IBM (Buf.from [1; 2; 3]) 1 (-4) = 0xffff.
Proof. apply (crc16IBM_window (Buf.from [1; 2; 3]) 1 (-4)). lia. Defined.

(** ** The checksum of a frame together with its checksum field *)

Lemma crc_rounds_low_zero k r :
  0 ≤ r → r mod 2 ^ Z.of_nat k = 0 → Nat.iter k crc16_spec_round r = r / 2 ^ Z.of_nat k.
Proof.
  revert r. induction k as [|k IH]; intros r Hr Hz.
  - cbn. rewrite Z.div_1_r. reflexivity.
  - rewrite Nat.iter_succ_r.
    rewrite Nat2Z.inj_succ, Z.pow_succ_r in * by lia.
    assert (Hp : 0 < 2 ^ Z.of_nat k) by (apply Z.pow_pos_nonneg; lia).
    rewrite Z.rem_mul_r in Hz by lia.
    pose proof (Z.mod_pos_bound r 2) as H2.
    pose proof (Z.mod_pos_bound (r / 2) (2 ^ Z.of_nat k) Hp) as Hk.
    assert (Hround : crc16_spec_round r = r / 2).
    { unfold crc16_spec_round. rewrite Z.shiftr_div_pow2 by lia.
      rewrite (Zodd_mod r). replace (r mod 2) with 0 by lia. reflexivity. }
    rewrite Hround, IH.
    + rewrite Z.div_div by lia. reflexivity.
    + apply Z.div_pos; lia.
    + lia.
Qed.

Lemma lxor_low_byte c : 0 ≤ c → Z.lxor c (c mod 256) = 256 * (c / 256).
Proof.
  intros Hc. change 256 with (2 ^ 8).
  rewrite <- Z.land_ones, <- Z.shiftr_div_pow2, Z.mul_comm, <- Z.shiftl_mul_pow2 by lia.
  apply Z.bits_inj'. intros n Hn.
  rewrite Z.lxor_spec, Z.land_spec, Z.testbit_ones_nonneg by lia.
  destruct (Z.ltb_spec n 8) as [Hlt|Hge].
  - rewrite Z.shiftl_spec_low by lia.
    destruct (Z.testbit c n); reflexivity.
  - rewrite Z.shiftl_spec, Z.shiftr_spec by lia.
    replace (n - 8 + 8) with n by lia.
    destruct (Z.testbit c n); reflexivity.
Qed.

Lemma crc_feed_low_byte c :
  0 ≤ c → Nat.iter 8 crc16_spec_round (Z.lxor c (byte.unsigned (byte.of_Z c))) = c / 256.
Proof.
  intros Hc. rewrite byte.unsigned_of_Z. unfold byte.wrap. change (2 ^ 8) with 256.
  rewrite lxor_low_byte by exact Hc.
  rewrite (crc_rounds_low_zero 8).
  - change (2 ^ Z.of_nat 8) with 256. rewrite Z.mul_comm, Z.div_mul by lia. reflexivity.
  - pose proof (Z.div_pos c 256). lia.
  - change (2 ^ Z.of_nat 8) with 256. rewrite Z.mul_comm. apply Z.mod_mul. lia.
Qed.

Lemma crc16_spec_residue (l : Buffer) : crc16_spec (l ++ le_split 2 (crc16_spec l)) = 0.
Proof.
  unfold crc16_spec at 1. unfold crc16_spec_from. rewrite foldl_app.
  fold (crc16_spec_from 0xFFFF l). fold (crc16_spec l).
  pose proof (crc16_spec_range l) as Hr.
  generalize dependent (crc16_spec l). intros c Hr.
  change (le_split 2 c) with [byte.of_Z c; byte.of_Z (Z.shiftr c 8)].
  cbn [foldl].
  rewrite crc_feed_low_byte by lia.
  rewrite Z.shiftr_div_pow2 by lia. change (2 ^ 8) with 256.
  rewrite crc_feed_low_byte by (apply Z.div_pos; lia).
  rewrite Z.div_div by lia. apply Z.div_small. lia.
Qed.

(** X2. A frame built with its checksum (no forced zero) has residue zero:
    [crc16IBM] over the frame from its first byte through the two bytes
    of the checksum field is 0, for every command, cookie, reply port and
    payload. *)
Theorem buildFrame_checksum_residue cmd cookie answerPort (data : Buffer) :
  ∃ frame, buildFrame cmd cookie answerPort data false = Ok frame
           ∧ crc16IBM frame 0 (8 + Buf.length data + 2) = 0.
Proof.
  eexists. split; [apply buildFrame_layout|].
  cbv iota. unfold frame_trailer.
  set (body := frame_header cmd cookie answerPort (Buf.length data) ++ data).
  set (tl := [byte.of_Z ((- cmd - 1) mod 256); byte.of_Z 3]).
  replace (frame_header cmd cookie answerPort (Buf.length data) ++ data
           ++ le_split 2 (crc16_spec body) ++ tl)
    with ((body ++ le_split 2 (crc16_spec body)) ++ tl)
    by (subst body; rewrite <- !app_assoc; reflexivity).
  replace (8 + Buf.length data + 2) with (Buf.length (body ++ le_split 2 (crc16_spec body))).
  - rewrite crc16IBM_spec. apply crc16_spec_residue.
  - subst body. rewrite !Buf_length_app. unfold frame_header.
    unfold Buf.length. cbn [length app]. rewrite !length_app, !length_le_split. cbn [length]. lia.
Qed.

(** ** Frames built from arbitrary arguments *)

Lemma neg_mod_256 c : (- c - 1) mod 256 = 255 - c mod 256.
Proof. Z.div_mod_to_equations. lia. Qed.

Lemma frame_header_cons cmd cookie answerPort count :
  frame_header cmd cookie answerPort count
  = [byte.of_Z 2; byte.of_Z (cmd mod 256);
     byte.of_Z (cookie mod 65536); byte.of_Z ((cookie mod 65536) ≫ 8);
     byte.of_Z (count mod 65536); byte.of_Z ((count mod 65536) ≫ 8);
     byte.of_Z (answerPort mod 65536); byte.of_Z ((answerPort mod 65536) ≫ 8)].
Proof. reflexivity. Qed.

Lemma frame_header_length cmd cookie answerPort count :
  Buf.length (frame_header cmd cookie answerPort count) = 8.
Proof. reflexivity. Qed.

Lemma frame_trailer_cons cmd crc :
  frame_trailer cmd crc
  = [byte.of_Z crc; byte.of_Z (crc ≫ 8); byte.of_Z ((- cmd - 1) mod 256); byte.of_Z 3].
Proof. reflexivity. Qed.

Lemma le_combine_split_mod z : le_combine (le_split 2 (z mod 65536)) = z mod 65536.
Proof.
  rewrite le_combine_split. change (2 ^ (Z.of_nat 2 * 8)) with 65536.
  apply Z.mod_mod. lia.
Qed.

(** [parseHeader] on a message given by its eight header bytes and the
    rest: the fields read from the header, and the payload cut out of the
    rest. *)
Lemma parseHeader_header (s c k0 k1 n0 n1 p0 p1 : byte) (rest : Buffer) :
  byte.unsigned s = 2 → le_combine [n0; n1] + 4 ≤ Buf.length rest →
  ∃ h, parseHeader ([s; c; k0; k1; n0; n1; p0; p1] ++ rest) = Ok h
       ∧ Header.STX h = Some 2
       ∧ Header.cmd h = Some (byte.unsigned c)
       ∧ Header.cookie h = le_combine [k0; k1]
       ∧ Header.count h = le_combine [n0; n1]
       ∧ Header.answerPort h = le_combine [p0; p1]
       ∧ Header.data h = take (Z.to_nat (le_combine [n0; n1])) rest.
Proof.
  intros Hs Hn.
  set (hdr := [s; c; k0; k1; n0; n1; p0; p1]).
  assert (E4 : u16_at (hdr ++ rest) 4 = le_combine [n0; n1]) by reflexivity.
  assert (E0 : Buf.get (hdr ++ rest) 0 = Some 2) by (rewrite <- Hs; reflexivity).
  pose proof (u16_at_range (hdr ++ rest) 4) as Hr. rewrite E4 in Hr.
  assert (Hlen : Buf.length (hdr ++ rest) = 8 + Buf.length rest)
    by (rewrite Buf_length_app; reflexivity).
  eexists. split.
  { apply parseHeader_succeeds; rewrite ?E4, ?Hlen; [lia|exact E0|lia]. }
  cbn [Header.STX Header.cmd Header.cookie Header.count Header.answerPort Header.data].
  rewrite E4.
  repeat (split; [reflexivity|]).
  unfold Buf.subarray, Buf.clamp.
  change (Z.of_nat (length (hdr ++ rest))) with (Buf.length (hdr ++ rest)). rewrite Hlen.
  destruct (Z.ltb_spec 8 0); [lia|].
  destruct (Z.ltb_spec (8 + le_combine [n0; n1]) 0); [lia|].
  rewrite !Z.min_l by lia.
  replace (8 + le_combine [n0; n1] - 8) with (le_combine [n0; n1]) by lia.
  reflexivity.
Qed.

(** X3. [buildFrame] never throws, whatever its arguments: the frame has
    12 bytes more than the payload, starts with 0x02 and the command
    modulo 256, holds the payload unchanged from offset 8, and ends with
    the inverted command byte (255 minus the command byte) at offset
    10 + N and 0x03 at offset 11 + N. *)
Theorem buildFrame_shape cmd cookie answerPort (data : Buffer) fz :
  ∃ frame, buildFrame cmd cookie answerPort data fz = Ok frame
           ∧ Buf.length frame = 12 + Buf.length data
           ∧ Buf.get frame 0 = Some 0x02
           ∧ Buf.get frame 1 = Some (cmd mod 256)
           ∧ Buf.subarray frame 8 (8 + Buf.length data) = data
           ∧ Buf.get frame (10 + Buf.length data) = Some (255 - cmd mod 256)
           ∧ Buf.get frame (11 + Buf.length data) = Some 0x03.
Proof.
  eexists. split; [apply buildFrame_layout|].
  set (crc := if fz then 0 else _). clearbody crc.
  set (hdr := frame_header cmd cookie answerPort (Buf.length data)).
  assert (Hh : Buf.length hdr = 8) by reflexivity.
  pose proof (Z.mod_pos_bound cmd 256) as Hc.
  split; [|split; [|split; [|split; [|split]]]].
  - rewrite !Buf_length_app, Hh. change (Buf.length (frame_trailer cmd crc)) with 4. lia.
  - reflexivity.
  - subst hdr. rewrite frame_header_cons.
    rewrite (Buf_get_at [_] _ _ 1 eq_refl : Buf.get ((_ :: _ :: _) ++ _) 1 = _).
    rewrite unsigned_of_Z_small by lia. reflexivity.
  - apply subarray_at; [exact (eq_sym Hh)|rewrite Hh; reflexivity].
  - rewrite frame_trailer_cons.
    replace (hdr ++ data ++ [byte.of_Z crc; byte.of_Z (crc ≫ 8);
                             byte.of_Z ((- cmd - 1) mod 256); byte.of_Z 3])
      with ((hdr ++ data ++ [byte.of_Z crc; byte.of_Z (crc ≫ 8)])
            ++ byte.of_Z ((- cmd - 1) mod 256) :: [byte.of_Z 3])
      by (rewrite <- !app_assoc; reflexivity).
    rewrite Buf_get_at.
    + rewrite neg_mod_256, unsigned_of_Z_small by lia. reflexivity.
    + rewrite !Buf_length_app, Hh. change (Buf.length [_; _]) with 2. lia.
  - rewrite frame_trailer_cons.
    replace (hdr ++ data ++ [byte.of_Z crc; byte.of_Z (crc ≫ 8);
                             byte.of_Z ((- cmd - 1) mod 256); byte.of_Z 3])
      with ((hdr ++ data ++ [byte.of_Z crc; byte.of_Z (crc ≫ 8);
                             byte.of_Z ((- cmd - 1) mod 256)])
            ++ byte.of_Z 3 :: [])
      by (rewrite <- !app_assoc; reflexivity).
    rewrite Buf_get_at.
    + reflexivity.
    + rewrite !Buf_length_app, Hh. change (Buf.length [_; _; _]) with 3. lia.
Qed.

(** X4. Decoding a frame built from arbitrary arguments: [parseHeader]
    accepts it and returns the command modulo 256, the cookie and the
    reply port modulo 65536, the payload length modulo 65536 as count,
    and the first count bytes of the payload; so a payload longer than
    65535 bytes is built without error and comes back cut to its length
    modulo 65536. *)
Theorem parseHeader_buildFrame_wraps cmd cookie answerPort (data : Buffer) fz :
  ∃ frame h,
    buildFrame cmd cookie answerPort data fz = Ok frame
    ∧ parseHeader frame = Ok h
    ∧ Header.STX h = Some 2
    ∧ Header.cmd h = Some (cmd mod 256)
    ∧ Header.cookie h = cookie mod 65536
    ∧ Header.count h = Buf.length data mod 65536
    ∧ Header.answerPort h = answerPort mod 65536
    ∧ Header.data h = take (Z.to_nat (Buf.length data mod 65536)) data.
Proof.
  pose proof (Buf_length_nonneg data) as Hd.
  pose proof (Z.mod_pos_bound (Buf.length data) 65536) as Hn.
  assert (Hle : Buf.length data mod 65536 ≤ Buf.length data) by (apply Z.mod_le; lia).
  pose proof (Z.mod_pos_bound cmd 256) as Hc.
  set (crc := if fz then 0
              else crc16_spec (frame_header cmd cookie answerPort (Buf.length data) ++ data)).
  destruct (parseHeader_header
    (byte.of_Z 2) (byte.of_Z (cmd mod 256))
    (byte.of_Z (cookie mod 65536)) (byte.of_Z ((cookie mod 65536) ≫ 8))
    (byte.of_Z (Buf.length data mod 65536)) (byte.of_Z ((Buf.length data mod 65536) ≫ 8))
    (byte.of_Z (answerPort mod 65536)) (byte.of_Z ((answerPort mod 65536) ≫ 8))
    (data ++ frame_trailer cmd crc))
    as (h & Hp & Hstx & Hcmd & Hck & Hcount & Hport & Hdata).
  { reflexivity. }
  { change [byte.of_Z (Buf.length data mod 65536);
            byte.of_Z ((Buf.length data mod 65536) ≫ 8)]
      with (le_split 2 (Buf.length data mod 65536)).
    rewrite le_combine_split_mod, Buf_length_app.
    change (Buf.length (frame_trailer cmd crc)) with 4. lia. }
  change [byte.of_Z (Buf.length data mod 65536);
          byte.of_Z ((Buf.length data mod 65536) ≫ 8)]
    with (le_split 2 (Buf.length data mod 65536)) in Hcount, Hdata.
  change [byte.of_Z (cookie mod 65536); byte.of_Z ((cookie mod 65536) ≫ 8)]
    with (le_split 2 (cookie mod 65536)) in Hck.
  change [byte.of_Z (answerPort mod 65536); byte.of_Z ((answerPort mod 65536) ≫ 8)]
    with (le_split 2 (answerPort mod 65536)) in Hport.
  rewrite le_combine_split_mod in Hck, Hcount, Hport, Hdata.
  rewrite unsigned_of_Z_small in Hcmd by lia.
  exists (frame_header cmd cookie answerPort (Buf.length data) ++ data
          ++ frame_trailer cmd crc), h.
  split; [apply buildFrame_layout|].
  split; [rewrite frame_header_cons; exact Hp|].
  repeat (split; [assumption|]).
  rewrite Hdata. apply take_app_le. unfold Buf.length in *. lia.
Qed.

(** ** Replies *)

Lemma lxor_255 x : 0 ≤ x < 256 → Z.lxor x 255 = 255 - x.
Proof.
  intros Hx.
  assert (H : Forall (λ x, Z.lxor x 255 = 255 - x) (seqZ 0 256))
    by (apply (bool_decide_unpack _); vm_compute; exact I).
  rewrite Forall_forall in H. apply H, elem_of_seqZ. lia.
Qed.

Lemma invert_cmd_byte x :
  0 ≤ x < 256 → JS.band (JS.bxor (JS.operand (Some x)) 0xff) 0xff = 255 - x.
Proof.
  intros Hx. cbn [JS.operand default from_option id].
  destruct (bxor_small x 255) as [-> _]; [lia|lia|].
  rewrite band_0xff, lxor_255 by exact Hx. apply Z.mod_small. lia.
Qed.

Lemma first_outcome_skip c ck pre evs :
  Forall (λ ev, ev = SendCallback None) pre →
  first_outcome c ck (pre ++ evs) = first_outcome c ck evs.
Proof.
  induction 1 as [|ev pre -> _ IH]; [reflexivity|exact IH].
Qed.

(** The verdict of the message handler on a frame laid out as [buildFrame]
    does. *)
Lemma check_reply_built c ck r rk port (payload : Buffer) crc :
  check_reply c ck (frame_header r rk port (Buf.length payload) ++ payload
                    ++ frame_trailer r crc)
  = if negb (255 - r mod 256 =? c) then Throw (Err "Unexpected cmd in response")
    else if negb (rk mod 65536 =? ck) then Throw (Err "Cookie mismatch")
    else Ok (take (Z.to_nat (Buf.length payload mod 65536)) payload).
Proof.
  pose proof (Buf_length_nonneg payload) as Hd.
  pose proof (Z.mod_pos_bound (Buf.length payload) 65536) as Hn.
  assert (Hle : Buf.length payload mod 65536 ≤ Buf.length payload) by (apply Z.mod_le; lia).
  pose proof (Z.mod_pos_bound r 256) as Hc.
  destruct (parseHeader_header
    (byte.of_Z 2) (byte.of_Z (r mod 256))
    (byte.of_Z (rk mod 65536)) (byte.of_Z ((rk mod 65536) ≫ 8))
    (byte.of_Z (Buf.length payload mod 65536))
    (byte.of_Z ((Buf.length payload mod 65536) ≫ 8))
    (byte.of_Z (port mod 65536)) (byte.of_Z ((port mod 65536) ≫ 8))
    (payload ++ frame_trailer r crc))
    as (h & Hp & _ & Hcmd & Hck & _ & _ & Hdata).
  { reflexivity. }
  { change [byte.of_Z (Buf.length payload mod 65536);
            byte.of_Z ((Buf.length payload mod 65536) ≫ 8)]
      with (le_split 2 (Buf.length payload mod 65536)).
    rewrite le_combine_split_mod, Buf_length_app.
    change (Buf.length (frame_trailer r crc)) with 4. lia. }
  change [byte.of_Z (Buf.length payload mod 65536);
          byte.of_Z ((Buf.length payload mod 65536) ≫ 8)]
    with (le_split 2 (Buf.length payload mod 65536)) in Hdata.
  change [byte.of_Z (rk mod 65536); byte.of_Z ((rk mod 65536) ≫ 8)]
    with (le_split 2 (rk mod 65536)) in Hck.
  rewrite le_combine_split_mod in Hck, Hdata.
  rewrite unsigned_of_Z_small in Hcmd by lia.
  rewrite take_app_le in Hdata by (unfold Buf.length in *; lia).
  rewrite frame_header_cons. unfold check_reply. rewrite Hp. cbn [mbind result_bind].
  rewrite Hcmd, Hck, Hdata, invert_cmd_byte by lia. reflexivity.
Qed.

(** X5. What the exchange does with a first datagram that is itself a
    frame built by [buildFrame] from arbitrary arguments: it is accepted
    exactly when 255 minus its command byte is the request's command and
    its cookie modulo 65536 is the request's cookie, and then the
    exchange resolves with the payload (its first length-mod-65536
    bytes); otherwise the exchange fails with the command error first,
    the cookie error second. *)
Theorem built_reply_outcome c ck r rk port (payload : Buffer) fz pre rest :
  Forall (λ ev, ev = SendCallback None) pre →
  ∃ reply,
    buildFrame r rk port payload fz = Ok reply
    ∧ await_reply c ck (pre ++ Message reply :: rest)
      = Some (if negb (255 - r mod 256 =? c) then Throw (Err "Unexpected cmd in response")
              else if negb (rk mod 65536 =? ck) then Throw (Err "Cookie mismatch")
              else Ok (take (Z.to_nat (Buf.length payload mod 65536)) payload)).
Proof.
  intros Hpre. eexists. split; [apply buildFrame_layout|].
  rewrite await_reply_settles, first_outcome_skip by exact Hpre.
  cbn [first_outcome]. rewrite check_reply_built. reflexivity.
Qed.

Lemma built_reply_outcome_witness :
  ∃ reply,
    buildFrame 0xfe 7 0 (Buf.from [1; 2; 0; 0]) false = Ok reply
    ∧ await_reply CMD.READGM 7 ([SendCallback None] ++ Message reply :: [TimerFired])
      = Some (Ok (Buf.from [1; 2; 0; 0])).
Proof.
  apply (built_reply_outcome CMD.READGM 7 0xfe 7 0 (Buf.from [1; 2; 0; 0]) false
           [SendCallback None] [TimerFired]).
  repeat constructor.
Defined.

Lemma parseHeader_bad_stx (msg : Buffer) :
  12 ≤ Buf.length msg → Buf.get msg 0 ≠ Some 2 → parseHeader msg = Throw (Err "Bad STX").
Proof.
  intros Hl Hs. rewrite parseHeader_unfold by exact Hl. unfold parseHeader_long.
  destruct (Buf.get msg 0) as [s|]; cbn [JS.strict_eq negb]; [|reflexivity].
  destruct (Z.eqb_spec s 2) as [->|_]; [contradiction|reflexivity].
Qed.

(** X6. The handler never looks at what follows the payload of a reply:
    two datagrams with the same eight header bytes and the same payload
    of the announced length get the same verdict, whatever their
    checksum, inverted-command and end-marker bytes are and whatever
    follows them. *)
Theorem reply_trailer_unchecked c ck (hdr data tail1 tail2 : Buffer) :
  Buf.length hdr = 8 → u16_at hdr 4 = Buf.length data →
  4 ≤ Buf.length tail1 → 4 ≤ Buf.length tail2 →
  check_reply c ck (hdr ++ data ++ tail1) = check_reply c ck (hdr ++ data ++ tail2).
Proof.
  intros Hh Hn H1 H2.
  destruct hdr as [|s [|cb [|k0 [|k1 [|n0 [|n1 [|p0 [|p1 [|]]]]]]]]]; try (exfalso; buffer_too_short Hh).
  change (u16_at [s; cb; k0; k1; n0; n1; p0; p1] 4) with (le_combine [n0; n1]) in Hn.
  destruct (Z.eq_dec (byte.unsigned s) 2) as [Hs|Hs].
  - destruct (parseHeader_header s cb k0 k1 n0 n1 p0 p1 (data ++ tail1) Hs)
      as (h1 & Hp1 & _ & Hc1 & Hk1 & _ & _ & Hd1);
      [rewrite Buf_length_app; lia|].
    destruct (parseHeader_header s cb k0 k1 n0 n1 p0 p1 (data ++ tail2) Hs)
      as (h2 & Hp2 & _ & Hc2 & Hk2 & _ & _ & Hd2);
      [rewrite Buf_length_app; lia|].
    rewrite take_app_le, take_ge in Hd1, Hd2 by (unfold Buf.length in *; lia).
    unfold check_reply. rewrite Hp1, Hp2. cbn [mbind result_bind].
    rewrite Hc1, Hc2, Hk1, Hk2, Hd1, Hd2. reflexivity.
  - unfold check_reply.
    rewrite !parseHeader_bad_stx; [reflexivity| | | |].
    + rewrite !Buf_length_app. pose proof (Buf_length_nonneg data). lia.
    + intros E. apply Hs. apply (inj Some). exact E.
    + rewrite !Buf_length_app. pose proof (Buf_length_nonneg data). lia.
    + intros E. apply Hs. apply (inj Some). exact E.
Qed.

Lemma reply_trailer_unchecked_witness :
  check_reply CMD.READGM 7
    (Buf.from [2; 0xfe; 7; 0; 1; 0; 0; 0] ++ Buf.from [9] ++ Buf.from [0; 0; 0; 0])
  = check_reply CMD.READGM 7
      (Buf.from [2; 0xfe; 7; 0; 1; 0; 0; 0] ++ Buf.from [9] ++ Buf.from [0xde; 0xad; 0xbe; 0xef; 5]).
Proof.
  apply (reply_trailer_unchecked CMD.READGM 7 (Buf.from [2; 0xfe; 7; 0; 1; 0; 0; 0])
           (Buf.from [9]) (Buf.from [0; 0; 0; 0]) (Buf.from [0xde; 0xad; 0xbe; 0xef; 5]));
    [reflexivity|reflexivity|vm_compute; discriminate|vm_compute; discriminate].
Defined.

(** X7. A request never accepts its own frame: when the first datagram
    received is the frame the request has just sent (an echo), the
    request fails with 'Unexpected cmd in response', for every command,
    payload and socket. *)
Theorem udpRequest_rejects_own_frame opts c (payload : Buffer) fz x dg pre rest :
  fst (udpRequest opts c payload fz x) = [dg] →
  Forall (λ ev, ev = SendCallback None) pre →
  events x = pre ++ Message (dg_frame dg) :: rest →
  snd (udpRequest opts c payload fz x) = Some (Throw (Err "Unexpected cmd in response")).
Proof.
  unfold udpRequest. cbv zeta.
  destruct (bind_result x) as [port|e]; [|discriminate].
  rewrite buildFrame_layout.
  destruct (socket_send _) as [[]|e]; cbn [fst snd]; [|discriminate].
  intros Hdg Hpre Hev. apply (inj (λ d, [d])) in Hdg. subst dg. cbn [dg_frame] in Hev.
  rewrite Hev, await_reply_settles, first_outcome_skip by exact Hpre. cbn [first_outcome].
  rewrite check_reply_built.
  destruct (Z.eqb_spec (255 - c mod 256) c) as [E|_]; [|reflexivity].
  exfalso. pose proof (Z.div_mod c 256). lia.
Qed.

Lemma udpRequest_rejects_own_frame_witness :
  snd (udpRequest sample_options CMD.STANDBY (Buf.from [0; 0; 0; 0]) true echoed)
  = Some (Throw (Err "Unexpected cmd in response")).
Proof.
  apply (udpRequest_rejects_own_frame sample_options CMD.STANDBY (Buf.from [0; 0; 0; 0]) true
           echoed standby_datagram [SendCallback None] []);
    [vm_compute; reflexivity|repeat constructor|vm_compute; reflexivity].
Defined.

(** ** Errors of the header decoder *)

(** X8. The errors of [parseHeader] and their precedence: fewer than 12
    bytes give 'UDP frame too short'; otherwise a first byte other than
    0x02 gives 'Bad STX', also when the announced length does not fit;
    otherwise a message shorter than 8 + count + 4 gives 'Truncated
    frame'.  No other error is raised: the 16-bit reads never run out of
    range. *)
Theorem parseHeader_errors (msg : Buffer) (e : Error) :
  parseHeader msg = Throw e
  ↔ (Buf.length msg < 12 ∧ e = Err "UDP frame too short")
    ∨ (12 ≤ Buf.length msg ∧ Buf.get msg 0 ≠ Some 2 ∧ e = Err "Bad STX")
    ∨ (12 ≤ Buf.length msg ∧ Buf.get msg 0 = Some 2
       ∧ Buf.length msg < 8 + u16_at msg 4 + 4 ∧ e = Err "Truncated frame").
Proof.
  destruct (Z.lt_ge_cases (Buf.length msg) 12) as [Hs|Hl].
  { rewrite parseHeader_short by exact Hs. split.
    - intros Hthrow. injection Hthrow as Hthrow. left. split; [exact Hs|symmetry; exact Hthrow].
    - intros [[_ ->]|[(Hl & _)|(Hl & _)]]; [reflexivity|lia|lia]. }
  destruct (decide (Buf.get msg 0 = Some 2)) as [H2|H2].
  - destruct (Z.lt_ge_cases (Buf.length msg) (8 + u16_at msg 4 + 4)) as [Ht|Ht].
    + rewrite parseHeader_unfold by exact Hl. unfold parseHeader_long.
      rewrite H2. cbn [JS.strict_eq Z.eqb Pos.eqb negb].
      destruct (Z.ltb_spec (Buf.length msg) (8 + u16_at msg 4 + 4)); [|lia].
      split.
      * intros Hthrow. injection Hthrow as Hthrow. right. right. repeat split; try assumption.
        symmetry; exact Hthrow.
      * intros [[Hs _]|[(_ & Hn & _)|(_ & _ & _ & ->)]]; [lia|contradiction|reflexivity].
    + rewrite parseHeader_succeeds by assumption. split; [discriminate|].
      intros [[Hs _]|[(_ & Hn & _)|(_ & _ & Hs & _)]]; [lia|contradiction|lia].
  - rewrite parseHeader_bad_stx by assumption. split.
    + intros Hthrow. injection Hthrow as Hthrow. right. left. repeat split; try assumption.
      symmetry; exact Hthrow.
    + intros [[Hs _]|[(_ & _ & ->)|(_ & Hn & _)]]; [lia|reflexivity|contradiction].
Qed.

(** ** The pending exchange *)

Lemma first_outcome_app_effective c ck evs more :
  Exists (λ ev, ev ≠ SendCallback None) evs →
  first_outcome c ck (evs ++ more) = first_outcome c ck evs.
Proof.
  induction evs as [|ev evs IH]; intros H; [inversion H|].
  destruct ev as [msg| |[err|]]; cbn [app first_outcome]; try reflexivity.
  apply IH. inversion H as [? ? Hne|? ? Hex]; [contradiction|exact Hex].
Qed.

(** X9. The promise of an exchange settles once: as soon as the callbacks
    delivered contain one other than a successful send completion (a
    datagram, the timer, a send error), the callbacks that follow, in
    any number and of any kind, do not change the outcome. *)
Theorem exchange_settles_once c ck (evs more : list Event) :
  Exists (λ ev, ev ≠ SendCallback None) evs →
  await_reply c ck (evs ++ more) = await_reply c ck evs.
Proof.
  intros H. rewrite !await_reply_settles, first_outcome_app_effective by exact H.
  reflexivity.
Qed.

Lemma exchange_settles_once_witness :
  await_reply CMD.STANDBY 7
    ([SendCallback None; TimerFired] ++ [Message (device_reply CMD.STANDBY 7 [1; 2; 0; 0])])
  = await_reply CMD.STANDBY 7 [SendCallback None; TimerFired].
Proof.
  apply (exchange_settles_once CMD.STANDBY 7 [SendCallback None; TimerFired]
           [Message (device_reply CMD.STANDBY 7 [1; 2; 0; 0])]).
  right. left. discriminate.
Defined.

Lemma step_released c ck st ev :
  Pending.timer_armed st = false → Pending.socket_open st = false →
  is_Some (Pending.settled st) →
  Pending.timer_armed (step c ck st ev) = false
  ∧ Pending.socket_open (step c ck st ev) = false
  ∧ is_Some (Pending.settled (step c ck st ev)).
Proof.
  destruct st as [s t o l]. cbn. intros -> -> [r ->].
  destruct ev as [msg| |[err|]]; cbn; eauto.
Qed.

Lemma step_live c ck st ev :
  Pending.timer_armed st = true → Pending.socket_open st = true →
  Pending.listening st = true →
  match ev with
  | SendCallback None => step c ck st ev = st
  | _ => Pending.timer_armed (step c ck st ev) = false
         ∧ Pending.socket_open (step c ck st ev) = false
         ∧ is_Some (Pending.settled (step c ck st ev))
  end.
Proof.
  destruct st as [s t o l]. cbn. intros -> -> ->.
  destruct ev as [msg| |[err|]]; cbn; [| | |reflexivity];
    unfold Pending.settle; cbn; destruct s; cbn; eauto.
Qed.

Lemma run_live c ck evs :
  ∀ st0,
    Pending.timer_armed st0 = true → Pending.socket_open st0 = true →
    Pending.listening st0 = true →
    let st := foldl (step c ck) st0 evs in
    if forallb (λ ev, match ev with SendCallback None => true | _ => false end) evs
    then st = st0
    else Pending.timer_armed st = false ∧ Pending.socket_open st = false
         ∧ is_Some (Pending.settled st).
Proof.
  induction evs as [|ev evs IH] using rev_ind; intros st0 Ht Ho Hl; cbv zeta.
  - reflexivity.
  - rewrite foldl_app, forallb_app. cbn [foldl forallb].
    specialize (IH st0 Ht Ho Hl). cbv zeta in IH.
    destruct (forallb _ evs); cbn [andb].
    + rewrite IH. pose proof (step_live c ck st0 ev Ht Ho Hl) as Hs.
      destruct ev as [msg| |[err|]]; cbn [andb]; exact Hs.
    + destruct IH as (Ht' & Ho' & Hs'). apply step_released; assumption.
Qed.

(** X10. The resources of an exchange, from the moment the executor of
    its promise has run, [sent] being the outcome of [socket.send].  As
    long as nothing but successful send completions has been delivered,
    the timer is armed and the socket open; from the first datagram,
    timer callback or send error on, the timer is cleared and the socket
    closed.  When [send] returned, the promise is pending in the first
    phase and settled in the second.  When [send] threw, the promise is
    rejected with that exception from the start, so that the timer and
    the socket outlive the promise until a datagram arrives or the
    deadline passes.  In every case the timer is cleared, the socket
    closed and the promise settled once the deadline has passed. *)
Theorem exchange_resources c ck (sent : result unit) (evs : list Event) :
  let st := foldl (step c ck) (started sent) evs in
  let quiet := forallb (λ ev, match ev with SendCallback None => true | _ => false end) evs in
  Pending.timer_armed st = quiet
  ∧ Pending.socket_open st = quiet
  ∧ match sent with
    | Ok _ =>
      if quiet then Pending.settled st = None ∧ Pending.listening st = true
      else is_Some (Pending.settled st)
    | Throw e => Pending.settled st = Some (Throw e)
    end
  ∧ Pending.timer_armed (step c ck st TimerFired) = false
  ∧ Pending.socket_open (step c ck st TimerFired) = false
  ∧ is_Some (Pending.settled (step c ck st TimerFired)).
Proof.
  cbv zeta.
  assert (Hlive : Pending.timer_armed (started sent) = true
                  ∧ Pending.socket_open (started sent) = true
                  ∧ Pending.listening (started sent) = true)
    by (destruct sent as [[]|e]; repeat split).
  destruct Hlive as (Ht & Ho & Hl).
  pose proof (run_live c ck evs (started sent) Ht Ho Hl) as Hrun. cbv zeta in Hrun.
  pose proof (step_live c ck (started sent) TimerFired Ht Ho Hl) as Hfinal.
  destruct (forallb _ evs).
  - rewrite Hrun. repeat (split; [assumption|]). split; [|exact Hfinal].
    destruct sent as [[]|e]; [split|]; reflexivity.
  - destruct Hrun as (Ht' & Ho' & Hs'). repeat (split; [assumption|]). split.
    + destruct sent as [[]|e]; [exact Hs'|]. apply run_settled. reflexivity.
    + apply step_released; assumption.
Qed.

(** ** The snapshot of a poll, field by field *)

Lemma snapshot_after opts maxChannels net st :
  snd (readUdpStatus opts maxChannels net) = Some st →
  ∃ r1 r2 r3,
    standby_reply opts net = Some r1
    ∧ readgm_reply opts net = Some r2
    ∧ alarms_reply opts net = Some r3
    ∧ st = after r3 (alarms_block maxChannels)
             (after r2 (readgm_block maxChannels)
                (after r1 standby_block (fresh maxChannels))).
Proof.
  intros Hst.
  destruct (readUdpStatus_snapshot opts maxChannels net) as (r1 & r2 & r3 & H1 & H2 & H3 & Hs).
  exists r1, r2, r3. repeat (split; [assumption|]).
  rewrite Hs in Hst. apply (inj Some) in Hst. symmetry. exact Hst.
Qed.

Lemma standby_power r1 maxChannels :
  UdpStatus.power (after r1 standby_block (fresh maxChannels))
  = match r1 with
    | Ok (b0 :: b1 :: _) => if byte.unsigned b0 =? 1 then Some (byte.unsigned b1 =? 2) else None
    | _ => None
    end.
Proof.
  destruct r1 as [data|e]; cbn [after]; [|reflexivity].
  rewrite standby_block_run. cbn [snd].
  destruct data as [|b0 [|b1 rest]]; try reflexivity.
  destruct (byte.unsigned b0 =? 1); reflexivity.
Qed.

(** X11. The power field of the snapshot, in every case: it is set, to
    whether payload byte 1 is 2, when the standby request resolved with
    a payload of at least two bytes whose byte 0 is 1, and it is left
    unset in every other case (request failed, payload shorter than two
    bytes, byte 0 other than 1).  The other two requests and the channel
    count have no influence on it. *)
Theorem power_field opts maxChannels net r1 st :
  standby_reply opts net = Some r1 →
  snd (readUdpStatus opts maxChannels net) = Some st →
  UdpStatus.power st
  = match r1 with
    | Ok (b0 :: b1 :: _) => if byte.unsigned b0 =? 1 then Some (byte.unsigned b1 =? 2) else None
    | _ => None
    end.
Proof.
  intros H1 Hst.
  destruct (snapshot_after _ _ _ _ Hst) as (r1' & r2 & r3 & H1' & _ & _ & ->).
  rewrite H1 in H1'. apply (inj Some) in H1'. subst r1'.
  destruct (snapshot_fields maxChannels r1 r2 r3) as (_ & Hp & _).
  rewrite Hp. apply standby_power.
Qed.

Lemma power_field_witness : UdpStatus.power answering_snapshot = Some true.
Proof.
  apply (power_field sample_options 2 answering (Ok (Buf.from [1; 2; 0; 0])) answering_snapshot);
    vm_compute; reflexivity.
Defined.

Lemma gm_table_spec_lookup budget (rest : Buffer) j g0 g1 h0 h1 im om :
  (j < budget)%nat → take 6 (drop (6 * j) rest) = [g0; g1; h0; h1; im; om] →
  gm_table_spec budget rest !! j
  = Some (Gm.mkChannel (Some (Qmake (sint16_le g0 g1) 100))
                       (Some (Qmake (sint16_le h0 h1) 100))
                       (Some (byte.unsigned im =? 1)) (Some (byte.unsigned om =? 1))).
Proof.
  revert budget rest. induction j as [|j IH]; intros budget rest Hj Hr.
  - destruct budget as [|budget]; [lia|].
    destruct rest as [|a0 [|a1 [|a2 [|a3 [|a4 [|a5 rest]]]]]]; try discriminate Hr.
    cbn in Hr. injection Hr as -> -> -> -> -> ->. reflexivity.
  - destruct budget as [|budget]; [lia|].
    replace (6 * S j)%nat with (S (S (S (S (S (S (6 * j)))))))%nat in Hr by lia.
    destruct rest as [|a0 [|a1 [|a2 [|a3 [|a4 [|a5 rest]]]]]]; try discriminate Hr.
    cbn [drop] in Hr. cbn [gm_table_spec lookup list_lookup].
    apply IH; [lia|exact Hr].
Qed.

Lemma gm_table_spec_beyond budget (rest : Buffer) j :
  (budget ≤ j ∨ length rest < 6 * (j + 1))%nat → gm_table_spec budget rest !! j = None.
Proof.
  intros H. apply lookup_ge_None. rewrite gm_table_spec_length.
  destruct H as [H|H]; [lia|].
  assert (length rest / 6 < j + 1)%nat by (apply Nat.Div0.div_lt_upper_bound; lia). lia.
Qed.

Lemma gm_table_spec_output budget (rest : Buffer) j ch c :
  gm_table_spec budget rest !! j = Some ch →
  gm_fields (gm_apply ch c) = (Gm.outMute ch, Gm.outGain ch).
Proof.
  revert budget rest. induction j as [|j IH]; intros budget rest;
    (destruct budget as [|budget]; [discriminate|]);
    (destruct rest as [|a0 [|a1 [|a2 [|a3 [|a4 [|a5 rest]]]]]]; try discriminate);
    cbn [gm_table_spec lookup list_lookup].
  - intros H. apply (inj Some) in H. subst ch. reflexivity.
  - apply IH.
Qed.

(** The mute and gain of channel [j] once the second block has run on a
    fresh status. *)
Lemma readgm_gm_fields maxChannels r2 j c :
  UdpStatus.channels (after r2 (readgm_block maxChannels) (fresh maxChannels)) !! j = Some c →
  gm_fields c
  = match r2 with
    | Ok (b0 :: b1 :: rest) =>
      if byte.unsigned b0 =? 1
      then match gm_table_spec (Z.to_nat (Z.min (byte.unsigned b1) maxChannels)) rest !! j with
           | Some ch => (Gm.outMute ch, Gm.outGain ch)
           | None => (None, None)
           end
      else (None, None)
    | _ => (None, None)
    end.
Proof.
  assert (Hfresh : ∀ c, UdpStatus.channels (fresh maxChannels) !! j = Some c →
                        gm_fields c = (None, None)).
  { intros c' Hc. apply fresh_lookup in Hc. subst c'. reflexivity. }
  destruct r2 as [data|e]; cbn [after]; [|apply Hfresh].
  destruct data as [|b0 [|b1 rest]].
  - rewrite (readgm_block_run maxChannels [] false []);
      [apply Hfresh|apply parseReadgmData_short; unfold Buf.length; cbn [length]; lia|rewrite fresh_length; lia].
  - rewrite (readgm_block_run maxChannels [b0] false []);
      [apply Hfresh|apply parseReadgmData_short; unfold Buf.length; cbn [length]; lia
      |rewrite fresh_length; lia].
  - rewrite (readgm_block_run maxChannels _ _ _ _ (parseReadgmData_cons b0 b1 rest maxChannels))
      by (rewrite fresh_length; lia).
    cbn [snd]. destruct (byte.unsigned b0 =? 1); [|apply Hfresh].
    rewrite upd_range_lookup.
    set (table := gm_table_spec _ rest).
    destruct (UdpStatus.channels (fresh maxChannels) !! j) as [c0|] eqn:Hc0; [|discriminate].
    pose proof (lookup_lt_Some _ _ _ Hc0) as Hj. rewrite fresh_length in Hj.
    cbn [fmap option_fmap option_map]. intros Hc. apply (inj Some) in Hc. subst c.
    destruct (table !! j) as [ch|] eqn:Ht.
    + pose proof (lookup_lt_Some _ _ _ Ht) as Hjt.
      destruct (decide _) as [_|Hn]; [|lia].
      cbn [from_option]. eapply gm_table_spec_output. exact Ht.
    + apply lookup_ge_None in Ht. destruct (decide _) as [Ha|_]; [lia|].
      apply Hfresh. reflexivity.
Qed.

Lemma snapshot_gm_fields opts maxChannels net r2 st j c :
  readgm_reply opts net = Some r2 →
  snd (readUdpStatus opts maxChannels net) = Some st →
  UdpStatus.channels st !! j = Some c →
  ∃ c', UdpStatus.channels (after r2 (readgm_block maxChannels) (fresh maxChannels)) !! j
        = Some c'
        ∧ gm_fields c = gm_fields c'.
Proof.
  intros H2 Hst Hc.
  destruct (snapshot_after _ _ _ _ Hst) as (r1 & r2' & r3 & _ & H2' & _ & ->).
  rewrite H2 in H2'. apply (inj Some) in H2'. subst r2'.
  destruct (snapshot_fields maxChannels r1 r2 r3) as (_ & _ & Hgm & _).
  specialize (Hgm j). rewrite Hc in Hgm. cbn [fmap option_fmap option_map] in Hgm.
  destruct (UdpStatus.channels (after r2 (readgm_block maxChannels) (fresh maxChannels)) !! j)
    as [c'|]; [|discriminate].
  exists c'. split; [reflexivity|]. apply (inj Some) in Hgm. exact Hgm.
Qed.

(** X12. Where mute and gain come from: when the gain/mute request
    resolved with answer-ok byte 1, a configured channel [j] below the
    announced count whose six-byte record is complete gets its mute from
    the output-mute byte (equal to 1) and its gain from the output-gain
    pair (signed, little-endian, divided by 100).  The input gain and
    input mute of the record never reach the snapshot. *)
Theorem gain_mute_from_output_record
    opts maxChannels net (b0 b1 : byte) (rest : Buffer) st (j : nat)
    (g0 g1 h0 h1 im om : byte) :
  readgm_reply opts net = Some (Ok (b0 :: b1 :: rest)) →
  byte.unsigned b0 = 1 →
  snd (readUdpStatus opts maxChannels net) = Some st →
  (j < Z.to_nat (Z.min (byte.unsigned b1) maxChannels))%nat →
  take 6 (drop (6 * j) rest) = [g0; g1; h0; h1; im; om] →
  ∃ c, UdpStatus.channels st !! j = Some c
       ∧ UdpStatus.mute c = Some (byte.unsigned om =? 1)
       ∧ UdpStatus.gain c = Some (Qmake (sint16_le h0 h1) 100).
Proof.
  intros H2 Hok Hst Hj Hrec.
  destruct (snapshot_after _ _ _ _ Hst) as (r1 & r2 & r3 & _ & _ & _ & Est).
  destruct (snapshot_fields maxChannels r1 r2 r3) as (Hlen & _).
  rewrite <- Est in Hlen.
  destruct (lookup_lt_is_Some_2 (UdpStatus.channels st) j) as [c Hc]; [lia|].
  exists c. split; [exact Hc|].
  destruct (snapshot_gm_fields _ _ _ _ _ _ _ H2 Hst Hc) as (c' & Hc' & E).
  apply readgm_gm_fields in Hc'. rewrite Hok in Hc'. cbn [Z.eqb Pos.eqb] in Hc'.
  rewrite (gm_table_spec_lookup _ _ _ _ _ _ _ _ _ Hj Hrec) in Hc'. cbn in Hc'.
  rewrite <- E in Hc'. unfold gm_fields in Hc'.
  injection Hc' as Hm Hg. split; assumption.
Qed.

Lemma gain_mute_from_output_record_witness :
  ∃ c, UdpStatus.channels answering_snapshot !! 0%nat = Some c
       ∧ UdpStatus.mute c = Some true
       ∧ UdpStatus.gain c = Some (Qmake (-300) 100).
Proof.
  apply (gain_mute_from_output_record sample_options 2 answering
           (byte.of_Z 1) (byte.of_Z 2)
           (Buf.from [0; 0; 0xd4; 0xfe; 0; 1; 0x64; 0; 0; 0; 1; 0]) answering_snapshot 0
           (byte.of_Z 0) (byte.of_Z 0) (byte.of_Z 0xd4) (byte.of_Z 0xfe)
           (byte.of_Z 0) (byte.of_Z 1));
    try (vm_compute; reflexivity). vm_compute; lia.
Defined.

(** X13. When mute and gain stay unset: for every channel of the
    snapshot both are unset when the gain/mute request failed, when its
    payload has fewer than two bytes or an answer-ok byte other than 1,
    and otherwise for the channels at or beyond the announced count or
    without a complete six-byte record. *)
Theorem gain_mute_unset opts maxChannels net r2 st (j : nat) c :
  readgm_reply opts net = Some r2 →
  snd (readUdpStatus opts maxChannels net) = Some st →
  UdpStatus.channels st !! j = Some c →
  match r2 with
  | Ok (b0 :: b1 :: rest) =>
    byte.unsigned b0 ≠ 1
    ∨ (Z.to_nat (byte.unsigned b1) ≤ j)%nat
    ∨ (length rest < 6 * (j + 1))%nat
  | _ => True
  end →
  UdpStatus.mute c = None ∧ UdpStatus.gain c = None.
Proof.
  intros H2 Hst Hc Hcase.
  destruct (snapshot_gm_fields _ _ _ _ _ _ _ H2 Hst Hc) as (c' & Hc' & E).
  apply readgm_gm_fields in Hc'. rewrite <- E in Hc'. clear E.
  assert (Hn : gm_fields c = (None, None)).
  { destruct r2 as [[|b0 [|b1 rest]]|e]; try exact Hc'.
    destruct (Z.eqb_spec (byte.unsigned b0) 1) as [Hb|_]; [|exact Hc'].
    rewrite gm_table_spec_beyond in Hc'; [exact Hc'|].
    destruct Hcase as [Hx|[Hx|Hx]]; [contradiction|left; lia|right; exact Hx]. }
  unfold gm_fields in Hn. injection Hn as Hm Hg. split; assumption.
Qed.

Lemma gain_mute_unset_witness :
  UdpStatus.mute UdpStatus.empty = None ∧ UdpStatus.gain UdpStatus.empty = None.
Proof.
  apply (gain_mute_unset sample_options 2 one_record
           (Ok (Buf.from [1; 1; 0; 0; 0xd4; 0xfe; 0; 1])) one_record_snapshot 1
           UdpStatus.empty);
    try (vm_compute; reflexivity).
  right. left. vm_compute. lia.
Defined.

(** The third block on a fresh status: the fault field and, for the
    decoded words, the channels. *)
Lemma alarms_on_fresh maxChannels r3 :
  let t := after r3 (alarms_block maxChannels) (fresh maxChannels) in
  ∃ words : list Z,
    (∀ w, w ∈ words → 0 ≤ w < 2 ^ 32)
    ∧ UdpStatus.fault t
      = match r3 with
        | Ok (b0 :: rest) =>
          if byte.unsigned b0 =? 1
          then Some match rest with
                    | gp :: r0 :: r1 :: g0 :: g1 :: g2 :: g3 :: ws =>
                      negb (uint32_le g0 g1 g2 g3 =? 0)
                      || existsb (λ w, negb (w =? 0)) (alarm_words_spec 8 ws)
                    | _ => false
                    end
          else None
        | _ => None
        end
    ∧ (∀ w, w ∈ words → w ≠ 0 → UdpStatus.fault t = Some true)
    ∧ (∀ j c, UdpStatus.channels t !! j = Some c →
              c = alarm_apply (default 0 (words !! j)) UdpStatus.empty).
Proof.
  cbv zeta.
  assert (Hnone : ∀ s : UdpStatus.t, s = fresh maxChannels →
            ∀ j c, UdpStatus.channels s !! j = Some c →
                   c = alarm_apply (default 0 (@nil Z !! j)) UdpStatus.empty).
  { intros s -> j c Hc. apply fresh_lookup in Hc. subst c. reflexivity. }
  assert (Hlenf : (Z.to_nat maxChannels ≤ length (UdpStatus.channels (fresh maxChannels)))%nat)
    by (rewrite fresh_length; lia).
  destruct r3 as [data|e]; cbn [after].
  2:{ exists []. split; [intros w Hw; inversion Hw|]. split; [reflexivity|].
      split; [intros w Hw; inversion Hw|]. apply Hnone. reflexivity. }
  destruct (decide (Buf.get data 0 = Some 1)) as [Hok|Hok].
  2:{ exists []. split; [intros w Hw; inversion Hw|].
      rewrite (alarms_block_run maxChannels data _ [] _
                 (parseReadAllAlarms2Data_not_ok data Hok) eq_refl Hlenf).
      cbn [snd Alarms.ok]. split.
      - destruct data as [|b0 rest]; [reflexivity|]. cbv beta iota.
        destruct (Z.eqb_spec (byte.unsigned b0) 1) as [E|_]; [|reflexivity].
        exfalso. apply Hok. change (Some (byte.unsigned b0) = Some 1). rewrite E. reflexivity.
      - split; [intros w Hw; inversion Hw|]. apply Hnone. reflexivity. }
  destruct data as [|b0 rest]; [discriminate Hok|].
  assert (Hb0 : byte.unsigned b0 = 1) by (apply (inj Some); exact Hok).
  cbv beta iota. rewrite Hb0. cbn [Z.eqb Pos.eqb].
  destruct (Z.lt_ge_cases (Buf.length (b0 :: rest)) 8) as [Hshort|Hlong].
  { exists []. split; [intros w Hw; inversion Hw|].
    rewrite (alarms_block_run maxChannels (b0 :: rest) _ [] _
               (parseReadAllAlarms2Data_no_words _ Hok Hshort) eq_refl Hlenf).
    cbn [snd Alarms.ok Alarms.fault length Z.of_nat].
    replace (Z.to_nat (Z.min (Z.of_nat 0) maxChannels)) with 0%nat by lia. rewrite upd_range_0. split.
    - destruct rest as [|gp [|r0 [|r1 [|g0 [|g1 [|g2 [|g3 ws]]]]]]]; try reflexivity.
      exfalso. buffer_too_short Hshort.
    - split; [intros w Hw; inversion Hw|]. intros j c. apply (Hnone (fresh maxChannels) eq_refl). }
  destruct rest as [|gp [|r0 [|r1 [|g0 [|g1 [|g2 [|g3 ws]]]]]]];
    try (exfalso; buffer_too_short Hlong).
  set (words := alarm_words_spec 8 ws).
  set (f := negb (uint32_le g0 g1 g2 g3 =? 0) || existsb (λ w, negb (w =? 0)) words).
  exists words.
  rewrite (alarms_block_run maxChannels _ _ words _
             (parseReadAllAlarms2Data_words b0 gp r0 r1 g0 g1 g2 g3 ws Hb0) eq_refl Hlenf).
  cbn [snd Alarms.ok Alarms.fault].
  assert (Hrange : ∀ w, w ∈ words → 0 ≤ w < 2 ^ 32)
    by (intros w; apply alarm_words_spec_range).
  split; [exact Hrange|]. split; [reflexivity|]. split.
  - intros w Hw Hnz. cbn [upd_range UdpStatus.fault UdpStatus.set_fault]. f_equal.
    subst f. apply orb_true_iff. right. apply existsb_nonzero. exists w. split; assumption.
  - intros j c. rewrite upd_range_lookup. cbn [UdpStatus.set_fault UdpStatus.channels].
    destruct (UdpStatus.channels (fresh maxChannels) !! j) as [c0|] eqn:Hc0; [|discriminate].
    pose proof (lookup_lt_Some _ _ _ Hc0) as Hj. rewrite fresh_length in Hj.
    apply fresh_lookup in Hc0. subst c0.
    cbn [fmap option_fmap option_map]. intros Hc. apply (inj Some) in Hc. subst c.
    destruct (words !! j) as [w|] eqn:Hw; cbn [default from_option id].
    + pose proof (lookup_lt_Some _ _ _ Hw) as Hjw.
      destruct (decide _) as [_|Hn]; [|lia].
      rewrite ushr_0; [reflexivity|]. apply Hrange. eapply list_elem_of_lookup_2. exact Hw.
    + apply lookup_ge_None in Hw. destruct (decide _) as [Ha|_]; [lia|]. reflexivity.
Qed.

Lemma snapshot_alarm_fields opts maxChannels net r3 st :
  alarms_reply opts net = Some r3 →
  snd (readUdpStatus opts maxChannels net) = Some st →
  let t := after r3 (alarms_block maxChannels) (fresh maxChannels) in
  UdpStatus.fault st = UdpStatus.fault t
  ∧ ∀ j c, UdpStatus.channels st !! j = Some c →
           ∃ c', UdpStatus.channels t !! j = Some c' ∧ alarm_flags c = alarm_flags c'.
Proof.
  intros H3 Hst.
  destruct (snapshot_after _ _ _ _ Hst) as (r1 & r2 & r3' & _ & _ & H3' & ->).
  rewrite H3 in H3'. apply (inj Some) in H3'. subst r3'.
  destruct (snapshot_fields maxChannels r1 r2 r3) as (_ & _ & _ & Hf & Hfl).
  cbv zeta. split; [exact Hf|].
  intros j c Hc. specialize (Hfl j). rewrite Hc in Hfl.
  cbn [fmap option_fmap option_map] in Hfl.
  destruct (UdpStatus.channels (after r3 (alarms_block maxChannels) (fresh maxChannels)) !! j)
    as [c'|]; [|discriminate].
  exists c'. split; [reflexivity|]. apply (inj Some) in Hfl. exact Hfl.
Qed.

(** X14. The fault field of the snapshot, in every case: unset when the
    alarm request failed, its payload is empty or its byte 0 is not 1;
    false when byte 0 is 1 and the payload has fewer than 8 bytes;
    otherwise true exactly when the global word or one of the complete
    per-channel words (at most eight) is nonzero.  The channel count does
    not enter: a word of a channel beyond the configured ones raises the
    fault as well. *)
Theorem fault_field opts maxChannels net r3 st :
  alarms_reply opts net = Some r3 →
  snd (readUdpStatus opts maxChannels net) = Some st →
  UdpStatus.fault st
  = match r3 with
    | Ok (b0 :: rest) =>
      if byte.unsigned b0 =? 1
      then Some match rest with
                | gp :: r0 :: r1 :: g0 :: g1 :: g2 :: g3 :: ws =>
                  negb (uint32_le g0 g1 g2 g3 =? 0)
                  || existsb (λ w, negb (w =? 0)) (alarm_words_spec 8 ws)
                | _ => false
                end
      else None
    | _ => None
    end.
Proof.
  intros H3 Hst.
  destruct (snapshot_alarm_fields _ _ _ _ _ H3 Hst) as [-> _].
  destruct (alarms_on_fresh maxChannels r3) as (words & _ & Hf & _). exact Hf.
Qed.

Lemma fault_field_witness : UdpStatus.fault answering_snapshot = Some true.
Proof.
  apply (fault_field sample_options 2 answering
           (Ok (Buf.from [1; 0; 0; 0; 0; 0; 0; 0; 0x83; 0; 0; 0; 0; 0; 0; 0]))
           answering_snapshot);
    vm_compute; reflexivity.
Defined.

Lemma gm_table_spec_some budget (rest : Buffer) j ch :
  gm_table_spec budget rest !! j = Some ch →
  is_Some (Gm.outMute ch) ∧ is_Some (Gm.outGain ch).
Proof.
  revert budget rest. induction j as [|j IH]; intros budget rest;
    (destruct budget as [|budget]; [discriminate|]);
    (destruct rest as [|a0 [|a1 [|a2 [|a3 [|a4 [|a5 rest]]]]]]; try discriminate);
    cbn [gm_table_spec lookup list_lookup].
  - intros H. apply (inj Some) in H. subst ch. split; eexists; reflexivity.
  - apply IH.
Qed.

(** X15. Two invariants of every channel of every snapshot.  The seven
    alarm flags are written together: either all seven are unset, or all
    seven are set and are the bits 0, 1, 3, 4, 5, 6 and 7 of one nonzero
    32-bit word.  Mute and gain are written together: both unset or both
    set. *)
Theorem channel_fields_written_together opts maxChannels net st c :
  snd (readUdpStatus opts maxChannels net) = Some st →
  c ∈ UdpStatus.channels st →
  (alarm_flags c = replicate 7 None
   ∨ ∃ w, 0 < w < 2 ^ 32
          ∧ alarm_flags c = (λ k, Some (Z.testbit w k)) <$> [0; 1; 3; 4; 5; 6; 7])
  ∧ ((UdpStatus.mute c = None ∧ UdpStatus.gain c = None)
     ∨ (is_Some (UdpStatus.mute c) ∧ is_Some (UdpStatus.gain c))).
Proof.
  intros Hst [j Hc]%list_elem_of_lookup.
  destruct (snapshot_after _ _ _ _ Hst) as (r1 & r2 & r3 & _ & H2 & H3 & _).
  split.
  - destruct (snapshot_alarm_fields _ _ _ _ _ H3 Hst) as [_ Hfl].
    destruct (Hfl j c Hc) as (c' & Hc' & ->).
    destruct (alarms_on_fresh maxChannels r3) as (words & Hrange & _ & _ & Hch).
    rewrite (Hch j c' Hc').
    destruct (words !! j) as [w|] eqn:Hw; cbn [default from_option id]; [|left; reflexivity].
    destruct (Z.eq_dec w 0) as [->|Hnz]; [left; reflexivity|].
    right. exists w. split.
    + pose proof (Hrange w (list_elem_of_lookup_2 _ _ _ Hw)). lia.
    + apply alarm_apply_flags. exact Hnz.
  - destruct (snapshot_gm_fields _ _ _ _ _ _ _ H2 Hst Hc) as (c' & Hc' & E).
    apply readgm_gm_fields in Hc'. rewrite <- E in Hc'. clear E. unfold gm_fields in Hc'.
    assert (Hcases : (UdpStatus.mute c, UdpStatus.gain c) = (None, None)
                     ∨ ∃ ch, is_Some (Gm.outMute ch) ∧ is_Some (Gm.outGain ch)
                             ∧ (UdpStatus.mute c, UdpStatus.gain c)
                               = (Gm.outMute ch, Gm.outGain ch)).
    { destruct r2 as [[|b0 [|b1 rest]]|e]; try (left; exact Hc').
      destruct (byte.unsigned b0 =? 1); [|left; exact Hc'].
      destruct (gm_table_spec _ rest !! j) as [ch|] eqn:Ht; [|left; exact Hc'].
      right. exists ch. destruct (gm_table_spec_some _ _ _ _ Ht) as [Hm Hg].
      repeat split; assumption. }
    destruct Hcases as [E|(ch & Hm & Hg & E)]; injection E as -> ->; [left|right];
      split; trivial.
Qed.

Lemma channel_fields_written_together_witness :
  (alarm_flags answering_channel = replicate 7 None
   ∨ ∃ w, 0 < w < 2 ^ 32
          ∧ alarm_flags answering_channel
            = (λ k, Some (Z.testbit w k)) <$> [0; 1; 3; 4; 5; 6; 7])
  ∧ ((UdpStatus.mute answering_channel = None ∧ UdpStatus.gain answering_channel = None)
     ∨ (is_Some (UdpStatus.mute answering_channel)
        ∧ is_Some (UdpStatus.gain answering_channel))).
Proof.
  apply (channel_fields_written_together sample_options 2 answering answering_snapshot
           answering_channel);
    [vm_compute; reflexivity|left].
Defined.

(** X16. A flagged channel implies the fault: whenever a channel of the
    snapshot has an alarm flag written, the snapshot's fault field is
    set and true. *)
Theorem flagged_channel_implies_fault opts maxChannels net st c :
  snd (readUdpStatus opts maxChannels net) = Some st →
  c ∈ UdpStatus.channels st →
  alarm_flags c ≠ replicate 7 None →
  UdpStatus.fault st = Some true.
Proof.
  intros Hst [j Hc]%list_elem_of_lookup Hflag.
  destruct (snapshot_after _ _ _ _ Hst) as (r1 & r2 & r3 & _ & _ & H3 & _).
  destruct (snapshot_alarm_fields _ _ _ _ _ H3 Hst) as [-> Hfl].
  destruct (Hfl j c Hc) as (c' & Hc' & E). rewrite E in Hflag.
  destruct (alarms_on_fresh maxChannels r3) as (words & _ & _ & Hfault & Hch).
  rewrite (Hch j c' Hc') in Hflag.
  destruct (words !! j) as [w|] eqn:Hw; cbn [default from_option id] in Hflag;
    [|contradiction Hflag; reflexivity].
  apply (Hfault w (list_elem_of_lookup_2 _ _ _ Hw)).
  intros ->. apply Hflag. reflexivity.
Qed.

Lemma flagged_channel_implies_fault_witness : UdpStatus.fault answering_snapshot = Some true.
Proof.
  apply (flagged_channel_implies_fault sample_options 2 answering answering_snapshot
           answering_channel);
    [vm_compute; reflexivity|left|discriminate].
Defined.

(** ** What a request sends *)

Lemma parseHeader_built c ck port (payload : Buffer) crc :
  ∃ h, parseHeader (frame_header c ck port (Buf.length payload) ++ payload
                    ++ frame_trailer c crc) = Ok h
       ∧ Header.cmd h = Some (c mod 256)
       ∧ Header.cookie h = ck mod 65536
       ∧ Header.count h = Buf.length payload mod 65536
       ∧ Header.answerPort h = port mod 65536
       ∧ Header.data h = take (Z.to_nat (Buf.length payload mod 65536)) payload.
Proof.
  pose proof (Buf_length_nonneg payload) as Hd.
  pose proof (Z.mod_pos_bound (Buf.length payload) 65536) as Hn.
  assert (Hle : Buf.length payload mod 65536 ≤ Buf.length payload) by (apply Z.mod_le; lia).
  pose proof (Z.mod_pos_bound c 256) as Hc.
  destruct (parseHeader_header
    (byte.of_Z 2) (byte.of_Z (c mod 256))
    (byte.of_Z (ck mod 65536)) (byte.of_Z ((ck mod 65536) ≫ 8))
    (byte.of_Z (Buf.length payload mod 65536))
    (byte.of_Z ((Buf.length payload mod 65536) ≫ 8))
    (byte.of_Z (port mod 65536)) (byte.of_Z ((port mod 65536) ≫ 8))
    (payload ++ frame_trailer c crc))
    as (h & Hp & _ & Hcmd & Hck & Hcount & Hport & Hdata).
  { reflexivity. }
  { change [byte.of_Z (Buf.length payload mod 65536);
            byte.of_Z ((Buf.length payload mod 65536) ≫ 8)]
      with (le_split 2 (Buf.length payload mod 65536)).
    rewrite le_combine_split_mod, Buf_length_app.
    change (Buf.length (frame_trailer c crc)) with 4. lia. }
  change [byte.of_Z (Buf.length payload mod 65536);
          byte.of_Z ((Buf.length payload mod 65536) ≫ 8)]
    with (le_split 2 (Buf.length payload mod 65536)) in Hcount, Hdata.
  change [byte.of_Z (ck mod 65536); byte.of_Z ((ck mod 65536) ≫ 8)]
    with (le_split 2 (ck mod 65536)) in Hck.
  change [byte.of_Z (port mod 65536); byte.of_Z ((port mod 65536) ≫ 8)]
    with (le_split 2 (port mod 65536)) in Hport.
  rewrite le_combine_split_mod in Hck, Hcount, Hport, Hdata.
  rewrite unsigned_of_Z_small in Hcmd by lia.
  rewrite take_app_le in Hdata by (unfold Buf.length in *; lia).
  exists h. rewrite frame_header_cons. repeat (split; [assumption|]). exact Hdata.
Qed.

(** X17. What [udpRequest] puts on the wire.  When the bind fails nothing
    is sent and the request fails with the bind error.  When the device
    port (1234 when none is configured) is outside 1..65535, [socket.send]
    throws: nothing is sent and the request fails with
    [ERR_SOCKET_BAD_PORT].  Otherwise exactly one datagram is sent, to the
    configured host and the device port; its frame decodes to the
    command, the drawn cookie, the payload, and as reply port 0 when
    [answerPortZero] is set and the bound port otherwise (each reduced to
    its field width). *)
Theorem udpRequest_datagram opts c (payload : Buffer) fz x :
  let port := default 1234 (devicePort opts) in
  match bind_result x with
  | Throw e => udpRequest opts c payload fz x = ([], Some (Throw e))
  | Ok bound =>
    if (0 <? port) && (port <=? 65535) then
      ∃ frame h,
        fst (udpRequest opts c payload fz x) = [mkDatagram frame port (host opts)]
        ∧ parseHeader frame = Ok h
        ∧ Header.cmd h = Some (c mod 256)
        ∧ Header.cookie h = random_cookie x mod 65536
        ∧ Header.count h = Buf.length payload mod 65536
        ∧ Header.answerPort h
          = (if default false (answerPortZero opts) then 0 else bound mod 65536)
        ∧ Header.data h = take (Z.to_nat (Buf.length payload mod 65536)) payload
    else
      udpRequest opts c payload fz x = ([], Some (Throw (RangeError "ERR_SOCKET_BAD_PORT")))
  end.
Proof.
  unfold udpRequest, socket_send, valid_port. cbv zeta.
  destruct (bind_result x) as [bound|e]; [|reflexivity].
  rewrite buildFrame_layout.
  destruct ((0 <? default 1234 (devicePort opts)) && (default 1234 (devicePort opts) <=? 65535)).
  - cbn [fst].
    set (ap := if default false (answerPortZero opts) then 0 else bound).
    set (crc := if fz || (c =? CMD.STANDBY) then 0 else _). clearbody crc.
    destruct (parseHeader_built c (random_cookie x) ap payload crc)
      as (h & Hp & Hcmd & Hck & Hcount & Hport & Hdata).
    eexists _, h. split; [reflexivity|].
    repeat (split; [assumption|]). split; [|exact Hdata].
    rewrite Hport. subst ap. destruct (default false (answerPortZero opts)); reflexivity.
  - f_equal. apply run_settled. reflexivity.
Qed.

Lemma readUdpStatus_sent opts maxChannels net :
  fst (readUdpStatus opts maxChannels net)
  = fst (udpRequest opts CMD.STANDBY (Buf.from [0; 0; 0; 0]) true (standby_exchange net))
    ++ fst (udpRequest opts CMD.READGM (Buf.alloc 0) false (readgm_exchange net))
    ++ fst (udpRequest opts CMD.READALLALARMS2 (Buf.alloc 0) false (alarms_exchange net)).
Proof.
  destruct (readUdpStatus_unfold opts maxChannels net) as (r1 & r2 & r3 & _ & _ & _ & ->).
  reflexivity.
Qed.

Lemma udpRequest_sent_frame opts c (payload : Buffer) fz x :
  ∃ frame,
    buildFrame c (random_cookie x)
      match bind_result x with
      | Ok bound => if default false (answerPortZero opts) then 0 else bound
      | Throw _ => 0
      end payload (fz || (c =? CMD.STANDBY)) = Ok frame
    ∧ fst (udpRequest opts c payload fz x)
      = if is_Ok (bind_result x)
           && ((0 <? default 1234 (devicePort opts))
               && (default 1234 (devicePort opts) <=? 65535))
        then [mkDatagram frame (default 1234 (devicePort opts)) (host opts)]
        else [].
Proof.
  eexists. split; [apply buildFrame_layout|].
  unfold udpRequest, socket_send, valid_port. cbv zeta.
  destruct (bind_result x) as [bound|e]; [|reflexivity].
  rewrite buildFrame_layout. cbn [is_Ok andb].
  destruct ((0 <? default 1234 (devicePort opts)) && (default 1234 (devicePort opts) <=? 65535));
    reflexivity.
Qed.

(** X18. The datagrams of a poll.  A poll always makes its three
    requests, whatever the device answers or fails to answer and
    whatever the channel count: the datagrams sent are, in this order,
    the standby frame (payload 00 00 00 00, checksum forced to zero), the
    gain/mute frame and the alarm frame (empty payloads), each as
    [buildFrame] builds it from the request's cookie and reply port (0
    when [answerPortZero] is set, the bound port otherwise), each to the
    configured host and device port (1234 when none is configured).  A
    request whose socket could not be bound sends nothing, and nothing
    at all is sent when the device port is outside 1..65535. *)
Theorem poll_datagrams opts maxChannels net :
  let port := default 1234 (devicePort opts) in
  let reply_port x :=
    match bind_result x with
    | Ok bound => if default false (answerPortZero opts) then 0 else bound
    | Throw _ => 0
    end in
  let sends x := is_Ok (bind_result x) && ((0 <? port) && (port <=? 65535)) in
  ∃ f1 f2 f3,
    buildFrame CMD.STANDBY (random_cookie (standby_exchange net))
      (reply_port (standby_exchange net)) (Buf.from [0; 0; 0; 0]) true = Ok f1
    ∧ buildFrame CMD.READGM (random_cookie (readgm_exchange net))
        (reply_port (readgm_exchange net)) (Buf.alloc 0) false = Ok f2
    ∧ buildFrame CMD.READALLALARMS2 (random_cookie (alarms_exchange net))
        (reply_port (alarms_exchange net)) (Buf.alloc 0) false = Ok f3
    ∧ fst (readUdpStatus opts maxChannels net)
      = (if sends (standby_exchange net) then [mkDatagram f1 port (host opts)] else [])
        ++ (if sends (readgm_exchange net) then [mkDatagram f2 port (host opts)] else [])
        ++ (if sends (alarms_exchange net) then [mkDatagram f3 port (host opts)] else []).
Proof.
  cbv zeta. rewrite readUdpStatus_sent.
  destruct (udpRequest_sent_frame opts CMD.STANDBY (Buf.from [0; 0; 0; 0]) true
              (standby_exchange net)) as (f1 & Hf1 & ->).
  destruct (udpRequest_sent_frame opts CMD.READGM (Buf.alloc 0) false
              (readgm_exchange net)) as (f2 & Hf2 & ->).
  destruct (udpRequest_sent_frame opts CMD.READALLALARMS2 (Buf.alloc 0) false
              (alarms_exchange net)) as (f3 & Hf3 & ->).
  exists f1, f2, f3. repeat (split; [assumption|]). reflexivity.
Qed.

(** ** The payload decoders never throw *)

(** X19. The two table decoders return a result for every payload and
    every channel count: each read is guarded by the bounds check before
    it.  The gain/mute table has no holes, at most 255 entries, at most
    [maxChannels] entries and only complete six-byte records; the alarm
    words are at most eight, complete four-byte words, each below
    2^32. *)
Theorem payload_decoders_never_throw (data : Buffer) (maxChannels : Z) :
  (∃ ok table,
     parseReadgmData data maxChannels = Ok (Gm.mk ok (Some <$> table))
     ∧ (length table ≤ 255)%nat
     ∧ Z.of_nat (length table) ≤ Z.max 0 maxChannels
     ∧ (2 + 6 * length table ≤ Nat.max 2 (length data))%nat)
  ∧ (∃ a words,
       parseReadAllAlarms2Data data = Ok a
       ∧ default [] (Alarms.channelWords a) = Some <$> words
       ∧ (length words ≤ 8)%nat
       ∧ (8 + 4 * length words ≤ Nat.max 8 (length data))%nat
       ∧ ∀ w, w ∈ words → 0 ≤ w < 2 ^ 32).
Proof.
  split.
  - destruct data as [|b0 [|b1 rest]].
    + exists false, []. split; [apply parseReadgmData_short; reflexivity|cbn [length]; lia].
    + exists false, []. split; [apply parseReadgmData_short; reflexivity|cbn [length]; lia].
    + eexists _, _. split; [apply parseReadgmData_cons|].
      rewrite gm_table_spec_length.
      pose proof (byte.unsigned_range b1) as Hb. change (2 ^ 8) with 256 in Hb.
      pose proof (Nat.Div0.mul_div_le (length rest) 6) as Hd.
      cbn [length]. lia.
  - destruct (decide (Buf.get data 0 = Some 1)) as [Hok|Hok].
    2:{ eexists _, []. split; [apply parseReadAllAlarms2Data_not_ok; exact Hok|].
        split; [reflexivity|]. split; [cbn [length]; lia|]. split; [cbn [length]; lia|].
        intros w Hw; inversion Hw. }
    destruct (Z.lt_ge_cases (Buf.length data) 8) as [Hshort|Hlong].
    { eexists _, []. split; [apply parseReadAllAlarms2Data_no_words; assumption|].
      split; [reflexivity|]. split; [cbn [length]; lia|]. split; [cbn [length]; lia|].
        intros w Hw; inversion Hw. }
    destruct data as [|b0 [|gp [|r0 [|r1 [|g0 [|g1 [|g2 [|g3 ws]]]]]]]];
      try (exfalso; buffer_too_short Hlong).
    eexists _, (alarm_words_spec 8 ws). split.
    { apply parseReadAllAlarms2Data_words. apply (inj Some). exact Hok. }
    split; [reflexivity|].
    rewrite alarm_words_spec_length.
    pose proof (Nat.Div0.mul_div_le (length ws) 4) as Hd.
    split; [lia|]. split; [cbn [length]; lia|].
    intros w. apply alarm_words_spec_range.
Qed.
